(** * The Open Library data-access layer of bookworld

    A shallow embedding of [services/openLibrary.ts]: the search function
    [browseBooks] with its session-cache fallback, the detail lookup
    [getBookDetails] with its two best-effort enrichment requests, and the
    three resilient category fetchers [getTrendingBooks], [getTopRatedBooks]
    and [getRandomBooks].

    The asynchronous functions are embedded in a state-and-exception monad
    over a [World]: the session storage, the arrays allocated by the module,
    the number of network requests and random draws made so far, and the
    trace of observable events.  The network, the random source and the
    builtins of the JavaScript runtime that the module calls are the fields
    of a [Runtime] record. *)

From Stdlib Require Import ZArith String Ascii List Lia Permutation.
From stdpp Require Import base option gmap strings list pretty sorting.

Local Open Scope Z_scope.
Set Warnings "-register-all".

(** ** JavaScript values *)

Module Js.

(** The classes of the thrown values that can occur: the two classes the
    module declares and the builtin ones the runtime raises. *)
Inductive ErrorClass :=
| Error | TypeError | SyntaxError | DOMException
| FetchError | BookNotFoundError.

(** [class C extends D] *)
Definition extends (c : ErrorClass) : option ErrorClass :=
  match c with
  | Error => None
  | TypeError | SyntaxError | DOMException => Some Error
  | FetchError => Some Error
  | BookNotFoundError => Some FetchError
  end.

Global Instance ErrorClass_eq_dec : EqDecision ErrorClass.
Proof. solve_decision. Defined.

(** [c] is [d] or one of its descendants; the chains have length at most 3. *)
Fixpoint subclass_fuel (fuel : nat) (c d : ErrorClass) : bool :=
  if decide (c = d) then true
  else match fuel, extends c with
       | S fuel', Some c' => subclass_fuel fuel' c' d
       | _, _ => false
       end.

Definition subclass : ErrorClass -> ErrorClass -> bool := subclass_fuel 3.

Record JsError := mkError {
  err_class : ErrorClass;
  err_name : string;
  err_message : string
}.

(** [e instanceof C] *)
Definition instanceof (e : JsError) (C : ErrorClass) : bool :=
  subclass (err_class e) C.

(** The outcome of evaluating an expression: a value or a thrown error. *)
Inductive Completion (A : Type) :=
| Normal (a : A)
| Throw (e : JsError).
Arguments Normal {A} a.
Arguments Throw {A} e.

Global Instance Completion_ret : MRet Completion := @Normal.
Global Instance Completion_bind : MBind Completion := fun A B f c =>
  match c with
  | Normal a => f a
  | Throw e => Throw e
  end.

(** The values the module handles: [undefined] and what [JSON.parse] yields,
    with numbers restricted to those with an integer value (every number this
    module computes with is a count, an identifier, a length, a status, a
    page or a limit; their arithmetic and their decimal form are those of
    doubles, below) and strings to sequences of code units below 256.  An
    array carries, besides its elements, the named properties assigned to it
    ([own]); an array from [JSON.parse] has none.  [VFun] is a builtin method
    read off a prototype, of which only the name and the arity are observable
    here. *)
Inductive JsVal :=
| VUndef
| VNull
| VBool (b : bool)
| VNum (n : Z)
| VStr (s : string)
| VArr (elems : list JsVal) (own : list (string * JsVal))
| VObj (props : list (string * JsVal))
| VFun (name : string) (len : Z).

(** The double quote character. *)
Definition dquote : string := String "034"%char EmptyString.

Definition type_error (msg : string) : JsError :=
  mkError TypeError "TypeError" msg.

Fixpoint lookup_prop (k : string) (ps : list (string * JsVal)) : option JsVal :=
  match ps with
  | [] => None
  | (k', v) :: ps' => if decide (k' = k) then Some v else lookup_prop k ps'
  end.

(** [v.k] for a property name [k] that is not an array index.  The names
    this module reads are docs, key, numFound, entries, length, covers,
    identifiers, goodreads, amazon, google, authors, author, name, bio,
    birth_date, death_date, books, value and sort: of the builtin prototypes
    only [Array.prototype] (entries), and the own [length] and [name] of
    arrays, strings and functions, define any of them. *)
Definition getProp (v : JsVal) (k : string) : Completion JsVal :=
  match v with
  | VUndef =>
      Throw (type_error ("Cannot read properties of undefined (reading '" +:+ k +:+ "')"))
  | VNull =>
      Throw (type_error ("Cannot read properties of null (reading '" +:+ k +:+ "')"))
  | VBool _ | VNum _ => Normal VUndef
  | VStr s =>
      Normal (if decide (k = "length") then VNum (Z.of_nat (String.length s)) else VUndef)
  | VArr elems own =>
      Normal
        (if decide (k = "length") then VNum (Z.of_nat (List.length elems))
         else match lookup_prop k own with
              | Some x => x
              | None => if decide (k = "entries") then VFun "entries" 0 else VUndef
              end)
  | VObj props => Normal (default VUndef (lookup_prop k props))
  | VFun name len =>
      Normal
        (if decide (k = "length") then VNum len
         else if decide (k = "name") then VStr name
         else VUndef)
  end.

(** [v[i]] for a literal index [i]. *)
Definition getIndex (v : JsVal) (i : nat) : Completion JsVal :=
  match v with
  | VArr elems _ => Normal (nth i elems VUndef)
  | VStr s =>
      Normal (match String.get i s with
              | Some c => VStr (String c EmptyString)
              | None => VUndef
              end)
  | VObj props => Normal (default VUndef (lookup_prop (pretty i) props))
  | VUndef =>
      Throw (type_error ("Cannot read properties of undefined (reading '" +:+ pretty i +:+ "')"))
  | VNull =>
      Throw (type_error ("Cannot read properties of null (reading '" +:+ pretty i +:+ "')"))
  | VBool _ | VNum _ | VFun _ _ => Normal VUndef
  end.

(** [v?.[i]] *)
Definition getIndexOpt (v : JsVal) (i : nat) : Completion JsVal :=
  match v with
  | VUndef | VNull => Normal VUndef
  | _ => getIndex v i
  end.

Fixpoint assign_prop (k : string) (x : JsVal) (ps : list (string * JsVal))
  : list (string * JsVal) :=
  match ps with
  | [] => [(k, x)]
  | (k', v) :: ps' =>
      if decide (k' = k) then (k, x) :: ps' else (k', v) :: assign_prop k x ps'
  end.

(** [v.k = x] in strict mode (the file is an ES module), for a property name
    [k] that is neither an array index nor [length]: every name the module
    assigns (cover_i, external_links, goodreads, amazon, google, author_name,
    author_details) is such.  The result is the updated [v].  (No function
    value is ever assigned to here: the one that can arise, the builtin read
    by [editionsData.entries] off an array, only has its [length] read.) *)
Definition setProp (v : JsVal) (k : string) (x : JsVal) : Completion JsVal :=
  match v with
  | VObj props => Normal (VObj (assign_prop k x props))
  | VArr elems own => Normal (VArr elems (assign_prop k x own))
  | VUndef =>
      Throw (type_error ("Cannot set properties of undefined (setting '" +:+ k +:+ "')"))
  | VNull =>
      Throw (type_error ("Cannot set properties of null (setting '" +:+ k +:+ "')"))
  | VBool _ | VNum _ | VStr _ =>
      Throw (type_error ("Cannot create property '" +:+ k +:+ "' on a primitive value"))
  | VFun name len =>
      if bool_decide (k = "length") || bool_decide (k = "name")
      then Throw (type_error ("Cannot assign to read only property '" +:+ k +:+ "'"))
      else Normal (VFun name len)
  end.

(** ToBoolean *)
Definition truthy (v : JsVal) : bool :=
  match v with
  | VUndef | VNull => false
  | VBool b => b
  | VNum n => negb (n =? 0)
  | VStr s => negb (bool_decide (s = ""))
  | VArr _ _ | VObj _ | VFun _ _ => true
  end.

(** *** Numbers

    A number of the program is a double.  Those that the module computes
    with have integer values, and up to [2 ^ 53] in absolute value every
    integer is a double: there the arithmetic is that of the integers.
    Beyond, a result is rounded to the nearest double, ties to the even
    mantissa, and to an infinity from [2 ^ 1024] on. *)
Inductive Double :=
| Finite (n : Z)
| Infinite (negative : bool)
| NaN.

Global Instance Double_eq_dec : EqDecision Double.
Proof. solve_decision. Defined.

(** The integer nearest to [z / q], the even one of two. *)
Definition round_half_even (z q : Z) : Z :=
  let d := z / q in
  let r := z mod q in
  if 2 * r <? q then d
  else if q <? 2 * r then d + 1
  else if Z.even d then d else d + 1.

(** The double that an exact integer result is rounded to: 53 bits of
    mantissa are kept. *)
Definition to_double (z : Z) : Double :=
  if Z.abs z <=? 2 ^ 53 then Finite z
  else
    let q := 2 ^ (Z.log2 (Z.abs z) - 52) in
    let r := round_half_even z q * q in
    if 2 ^ 1024 <=? Z.abs r then Infinite (z <? 0) else Finite r.

(** [x - y] and [x * y] on doubles with integer values. *)
Definition Double_sub (x y : Z) : Double := to_double (x - y).

Definition Double_mul (x : Double) (y : Z) : Double :=
  match x with
  | Finite a => to_double (a * y)
  | Infinite negative => if y =? 0 then NaN else Infinite (xorb negative (y <? 0))
  | NaN => NaN
  end.

(** Number::toString writes the fewest digits that read back as the same
    double, the nearest to it of several.  [shortest_at v n k] looks for
    [k] digits [s] such that [s * 10 ^ (n - k)] reads back as [v]: only the two
    multiples of [10 ^ (n - k)] around [v] can. *)
Definition shortest_at (v n k : Z) : option Z :=
  let p := 10 ^ (n - k) in
  let lo := v / p in
  let hi := lo + 1 in
  let reads s :=
    (10 ^ (k - 1) <=? s) && (s <? 10 ^ k) && bool_decide (to_double (s * p) = Finite v) in
  match reads lo, reads hi with
  | true, true =>
      Some (if v - lo * p <? hi * p - v then lo
            else if hi * p - v <? v - lo * p then hi
            else if Z.even lo then lo else hi)
  | true, false => Some lo
  | false, true => Some hi
  | false, false => None
  end.

Fixpoint shortest (v n : Z) (ks : list Z) : option (Z * Z) :=
  match ks with
  | [] => None
  | k :: ks' =>
      match shortest_at v n k with
      | Some s => Some (s, k)
      | None => shortest v n ks'
      end
  end.

(** The digits [s], their number [k] and the position [n] of the decimal
    point for a double [v] above [2 ^ 53]: seventeen digits tell any two
    doubles apart.  (The last case is for an integer that is no double.) *)
Definition decimal (v : Z) : Z * Z * Z :=
  let d := Z.of_nat (String.length (pretty v)) in
  if bool_decide (to_double (10 ^ d) = Finite v) then (1, 1, d + 1)
  else match shortest v d (map Z.of_nat (seq 1 17)) with
       | Some (s, k) => (s, k, d)
       | None => (v, d, d)
       end.

Fixpoint zeros (n : nat) : string :=
  match n with
  | O => ""
  | S n' => String "0" (zeros n')
  end.

(** The digits followed by zeros up to the decimal point, or the exponent
    form from [1e21] on. *)
Definition format_decimal (s k n : Z) : string :=
  if n <=? 21 then pretty s +:+ zeros (Z.to_nat (n - k))
  else
    match pretty s with
    | String c EmptyString => String c ("e+" +:+ pretty (n - 1))
    | String c rest => String c ("." +:+ rest +:+ "e+" +:+ pretty (n - 1))
    | EmptyString => ""
    end.

(** Number::toString.  Up to [2 ^ 53] the digits that read back are the
    decimal digits of the integer. *)
Definition Double_toString (x : Double) : string :=
  match x with
  | NaN => "NaN"
  | Infinite false => "Infinity"
  | Infinite true => "-Infinity"
  | Finite v =>
      if Z.abs v <=? 2 ^ 53 then pretty v
      else
        let '(s, k, n) := decimal (Z.abs v) in
        (if v <? 0 then "-" else "") +:+ format_decimal s k n
  end.

(** The same on an integer value of the program. *)
Definition Number_toString (n : Z) : string := Double_toString (to_double n).

(** *** Conversion to a string

    ToString on an object goes through its [toString] method.  A value made
    by [JSON.parse] or by an object literal inherits the builtin one, unless
    it has a property of that name of its own: this is then no function, the
    builtin [valueOf] returns the object itself, and the conversion throws a
    [TypeError].  The [toString] of an array joins its elements, each
    converted in turn ([undefined] and [null] to the empty string), or is the
    one of objects when the array has a [join] of its own. *)
Fixpoint stringable (v : JsVal) : bool :=
  match v with
  | VArr elems own =>
      match lookup_prop "toString" own, lookup_prop "join" own with
      | Some _, _ => false
      | None, Some _ => true
      | None, None =>
          (fix all (l : list JsVal) : bool :=
             match l with
             | [] => true
             | e :: l' => stringable e && all l'
             end) elems
      end
  | VObj props =>
      match lookup_prop "toString" props with
      | Some _ => false
      | None => true
      end
  | _ => true
  end.

(** The string that the conversion gives when it completes. *)
Fixpoint string_of (v : JsVal) : string :=
  match v with
  | VUndef => "undefined"
  | VNull => "null"
  | VBool true => "true"
  | VBool false => "false"
  | VNum n => Number_toString n
  | VStr s => s
  | VArr elems own =>
      match lookup_prop "join" own with
      | Some _ => "[object Array]"
      | None =>
          (fix join (l : list JsVal) : string :=
             let item e := match e with VUndef | VNull => "" | _ => string_of e end in
             match l with
             | [] => ""
             | [e] => item e
             | e :: l' => item e +:+ "," +:+ join l'
             end) elems
      end
  | VObj _ => "[object Object]"
  | VFun name _ => "function " +:+ name +:+ "() { [native code] }"
  end.

(** ToString, as a template literal and [URLSearchParams] apply it. *)
Definition ToString (v : JsVal) : Completion string :=
  if stringable v then Normal (string_of v)
  else Throw (type_error "Cannot convert object to primitive value").

End Js.
Export Js.

(** ** URLSearchParams *)

Module URLSearchParams.

(** The list of name-value pairs of a [URLSearchParams] object. *)
Abbreviation t := (list (string * string)).

Definition append (name value : string) (params : t) : t :=
  params ++ [(name, value)].

(** [set]: the first pair named [name] takes the value and the other pairs
    of that name are removed; without such a pair, the pair is appended. *)
Fixpoint set (name value : string) (params : t) : t :=
  match params with
  | [] => [(name, value)]
  | (n, v) :: rest =>
      if decide (n = name)
      then (name, value) :: filter (fun p => p.1 ≠ name) rest
      else (n, v) :: set name value rest
  end.

(** [getAll]: the values of the pairs named [name], in order. *)
Definition getAll (name : string) (params : t) : list string :=
  map snd (filter (fun p => p.1 = name) params).

Definition hex_digit (n : N) : ascii :=
  if (n <? 10)%N then ascii_of_N (48 + n) else ascii_of_N (55 + n).

Definition percent_byte (b : N) : string :=
  String "%" (String (hex_digit (b / 16)) (String (hex_digit (b mod 16)) EmptyString)).

(** The bytes the application/x-www-form-urlencoded serializer leaves as
    they are: ASCII letters and digits and [* - . _]. *)
Definition unreserved (n : N) : bool :=
  ((48 <=? n) && (n <=? 57) || (65 <=? n) && (n <=? 90) || (97 <=? n) && (n <=? 122)
   || (n =? 42) || (n =? 45) || (n =? 46) || (n =? 95))%N.

(** One code unit: a space becomes [+], a code unit from 128 on is encoded
    in UTF-8 (two bytes) and each byte percent-encoded. *)
Definition encode_unit (c : ascii) : string :=
  let n := N_of_ascii c in
  if (n =? 32)%N then "+"
  else if unreserved n then String c EmptyString
  else if (n <? 128)%N then percent_byte n
  else percent_byte (192 + n / 64) +:+ percent_byte (128 + n mod 64).

Fixpoint encode (s : string) : string :=
  match s with
  | EmptyString => EmptyString
  | String c s' => encode_unit c +:+ encode s'
  end.

Fixpoint toString (params : t) : string :=
  match params with
  | [] => ""
  | [(n, v)] => encode n +:+ "=" +:+ encode v
  | (n, v) :: rest => encode n +:+ "=" +:+ encode v +:+ "&" +:+ toString rest
  end.

End URLSearchParams.

(** ** The runtime and the world *)

Record Response := mkResponse {
  status : Z;
  (** what [response.json()] settles to *)
  body : Completion JsVal
}.

(** [response.ok]: the status is in the range 200-299. *)
Definition ok (r : Response) : bool := (200 <=? status r) && (status r <=? 299).

(** What [fetch] settles to: a rejection (a network error) or a response. *)
Inductive FetchOutcome :=
| Rejected (e : JsError)
| Resolved (r : Response).

(** The environment of the module. [OPEN_LIBRARY_URL] is imported from
    [../constants]; the other fields are what the JavaScript runtime
    provides: the network ([net n url] is the outcome of the request for [url]
    issued after [n] earlier requests), [Math.random] (the [n]-th draw, as
    the integer numerator of the drawn fraction, which is all the comparison
    of two draws depends on), [JSON.parse], [JSON.stringify], the
    conversion of a string to a number, and the quota of the session storage
    ([Storage_accepts store key value]: the store, holding [store], has room
    for [value] under [key]). *)
Record Runtime := mkRuntime {
  OPEN_LIBRARY_URL : string;
  net : nat -> string -> FetchOutcome;
  Math_random : nat -> Z;
  JSON_parse : string -> Completion JsVal;
  JSON_stringify : JsVal -> string;
  StringToNumber : string -> option Z;
  Storage_accepts : gmap string string -> string -> string -> bool
}.

(** What the module does that can be observed from outside, in order. *)
Inductive Event :=
| Fetch (url : string)
| Sleep (ms : Z)
| SetItem (key value : string)
| GetItem (key : string)
| ConsoleLog (msg : string)
| ConsoleWarn (msg : string) (error : JsError)
| ConsoleError (msg : string).

(** References to the objects that are shared or updated in place. *)
Definition ref := nat.

(** [sessionStorage] is the string-keyed, string-valued store of the tab;
    [heap] holds the current
    state of the objects that are reached through a reference; [fetched] and
    [drawn] count the requests issued and the random numbers drawn. *)
Record World := mkWorld {
  sessionStorage : gmap string string;
  heap : gmap ref JsVal;
  fetched : nat;
  drawn : nat;
  trace : list Event
}.

(** An asynchronous function: every [await] runs to completion before the
    next step, so a call is a function of the world it starts in. *)
Definition M (A : Type) : Type := World -> Completion A * World.

Global Instance M_ret : MRet M := fun A a w => (Normal a, w).
Global Instance M_bind : MBind M := fun A B f m w =>
  match m w with
  | (Normal a, w') => f a w'
  | (Throw e, w') => (Throw e, w')
  end.

Definition throw {A} (e : JsError) : M A := fun w => (Throw e, w).

(** A pure expression that may throw. *)
Definition lift {A} (c : Completion A) : M A := fun w => (c, w).

(** [try { body } catch (error) { handler }] *)
Definition try_catch {A} (body : M A) (handler : JsError -> M A) : M A := fun w =>
  match body w with
  | (Normal a, w') => (Normal a, w')
  | (Throw e, w') => handler e w'
  end.

(** The world once [ev] has happened. *)
Definition record (ev : Event) (w : World) : World :=
  mkWorld (sessionStorage w) (heap w) (fetched w) (drawn w) (trace w ++ [ev]).

Definition emit (ev : Event) : M unit := fun w => (Normal (), record ev w).

Definition console_log (msg : string) : M unit := emit (ConsoleLog msg).
Definition console_warn (msg : string) (error : JsError) : M unit :=
  emit (ConsoleWarn msg error).
Definition console_error (msg : string) : M unit := emit (ConsoleError msg).

(** [const sleep = (ms) => new Promise(resolve => setTimeout(resolve, ms))],
    awaited. *)
Definition sleep (ms : Z) : M unit := emit (Sleep ms).

(** The world once [value] has been stored under [key]. *)
Definition stored (key value : string) (w : World) : World :=
  record (SetItem key value)
    (mkWorld (<[key := value]> (sessionStorage w)) (heap w) (fetched w) (drawn w) (trace w)).

(** [sessionStorage.getItem(key)]; [None] is [null]. *)
Definition getItem (key : string) : M (option string) := fun w =>
  (Normal (sessionStorage w !! key), record (GetItem key) w).

(** The world once the request for [url] has been issued. *)
Definition issued (url : string) (w : World) : World :=
  record (Fetch url)
    (mkWorld (sessionStorage w) (heap w) (S (fetched w)) (drawn w) (trace w)).

(** A new object, at a reference not in use. *)
Definition alloc (v : JsVal) : M ref := fun w =>
  let r := fresh (dom (heap w)) in
  (Normal r,
   mkWorld (sessionStorage w) (<[r := v]> (heap w)) (fetched w) (drawn w) (trace w)).

(** The current state of the object at [r]. *)
Definition load (r : ref) : M JsVal := fun w =>
  (Normal (default VUndef (heap w !! r)), w).

Definition store (r : ref) (v : JsVal) : M unit := fun w =>
  (Normal (),
   mkWorld (sessionStorage w) (<[r := v]> (heap w)) (fetched w) (drawn w) (trace w)).

(** [r.k = x] *)
Definition assign (r : ref) (k : string) (x : JsVal) : M unit :=
  v ← load r;
  v' ← lift (setProp v k x);
  store r v'.

(** [r.k1.k2 = x], where the object [r.k1] is reachable through [r] only. *)
Definition assign_in (r : ref) (k1 k2 : string) (x : JsVal) : M unit :=
  v ← load r;
  inner ← lift (getProp v k1);
  inner' ← lift (setProp inner k2 x);
  v' ← lift (setProp v k1 inner');
  store r v'.

Section WithRuntime.

Variable rt : Runtime.

(** The [DOMException] of a write that the store has no room for. *)
Definition quota_exceeded : JsError :=
  mkError DOMException "QuotaExceededError" "The quota has been exceeded.".

(** [sessionStorage.setItem(key, value)]: the call is an event; it stores
    the value, or throws when the store has no room for it. *)
Definition setItem (key value : string) : M unit := fun w =>
  if Storage_accepts rt (sessionStorage w) key value
  then (Normal (), stored key value w)
  else (Throw quota_exceeded, record (SetItem key value) w).

(** [await fetch(url)] *)
Definition fetch (url : string) : M Response := fun w =>
  match net rt (fetched w) url with
  | Rejected e => (Throw e, issued url w)
  | Resolved r => (Normal r, issued url w)
  end.

(** [await response.json()] *)
Definition json (r : Response) : M JsVal := lift (body r).

(** [Math.random()] *)
Definition random : M JsVal := fun w =>
  (Normal (VNum (Math_random rt (drawn w))),
   mkWorld (sessionStorage w) (heap w) (fetched w) (S (drawn w)) (trace w)).

(** ToNumber; [None] is NaN.  An object is converted to a string first (its
    [valueOf] returns the object itself), which may throw. *)
Definition ToNumber (v : JsVal) : Completion (option Z) :=
  match v with
  | VUndef => Normal None
  | VNull => Normal (Some 0)
  | VBool b => Normal (Some (if b then 1 else 0))
  | VNum n => Normal (Some n)
  | VStr s => Normal (StringToNumber rt s)
  | VArr _ _ | VObj _ | VFun _ _ => s ← ToString v; Normal (StringToNumber rt s)
  end.

(** [v > 0] *)
Definition gt0 (v : JsVal) : Completion bool :=
  n ← ToNumber v;
  Normal match n with
         | Some n => 0 <? n
         | None => false
         end.

(** *** [browseBooks] *)

(** [new FetchError(message)] *)
Definition new_FetchError (message : string) : JsError :=
  mkError FetchError "FetchError" message.

(** [new BookNotFoundError(workId)]: the constructor of [FetchError] runs on
    the message, then the name is overwritten. *)
Definition new_BookNotFoundError (workId : string) : JsError :=
  let super := new_FetchError ("Book with ID " +:+ dquote +:+ workId +:+ dquote +:+ " not found.") in
  mkError BookNotFoundError "BookNotFoundError" (err_message super).

(** The options of a search; [limit] and [page] are doubles with integer
    values. *)
Record BrowseOptions := mkOptions {
  query : option string;
  genres : option (list string);
  year : option string;
  sort : option string;
  limit : option Z;
  page : option Z
}.

(** [const offset = (page - 1) * limit], with the defaults of the
    destructuring: the difference and the product of doubles, each
    rounded. *)
Definition offset (options : BrowseOptions) : Double :=
  let limit := default 40 (limit options) in
  let page := default 1 (page options) in
  Double_mul (Double_sub page 1) limit.

(** The numbers of a page are safe when the limit, the page less one and
    their product are integers that a double holds exactly. *)
Definition safe_page (options : BrowseOptions) : Prop :=
  let limit := default 40 (limit options) in
  let page := default 1 (page options) in
  Z.abs limit <= 2 ^ 53
  /\ Z.abs (page - 1) <= 2 ^ 53
  /\ Z.abs ((page - 1) * limit) <= 2 ^ 53.

(** A string in a condition: [undefined] and the empty string are falsy. *)
Definition truthy_string (s : option string) : bool :=
  match s with
  | Some s => truthy (VStr s)
  | None => false
  end.

Definition searchParams (options : BrowseOptions) : URLSearchParams.t :=
  let limit := default 40 (limit options) in
  let searchParams := [] in
  let searchParams :=
    URLSearchParams.set "q"
      (if truthy_string (query options) then default "" (query options) else "*")
      searchParams in
  let searchParams :=
    match genres options with
    | Some genres =>
        if (0 <? Z.of_nat (List.length genres))
        then fold_left (fun sp genre => URLSearchParams.append "subject" genre sp)
                       genres searchParams
        else searchParams
    | None => searchParams
    end in
  let searchParams :=
    if truthy_string (year options)
    then URLSearchParams.set "publish_year" (default "" (year options)) searchParams
    else searchParams in
  let searchParams :=
    if truthy_string (sort options) && negb (bool_decide (sort options = Some "relevance"))
    then URLSearchParams.set "sort" (default "" (sort options)) searchParams
    else searchParams in
  let searchParams :=
    URLSearchParams.set "offset" (Double_toString (offset options)) searchParams in
  let searchParams := URLSearchParams.set "language" "eng" searchParams in
  let searchParams := URLSearchParams.set "limit" (Number_toString limit) searchParams in
  URLSearchParams.set "fields" "key,title,author_name,cover_i,first_publish_year" searchParams.

Definition requestUrl (options : BrowseOptions) : string :=
  OPEN_LIBRARY_URL rt +:+ "/search.json?" +:+ URLSearchParams.toString (searchParams options).

Definition cacheKey (options : BrowseOptions) : string :=
  "browse_" +:+ requestUrl options.

(** [Array.prototype.filter] on the elements, with a callback that may
    throw. *)
Fixpoint Array_filter (f : JsVal -> Completion bool) (elems : list JsVal)
  : Completion (list JsVal) :=
  match elems with
  | [] => Normal []
  | x :: rest =>
      keep ← f x;
      kept ← Array_filter f rest;
      mret (if keep : bool then x :: kept else kept)
  end.

(** [v.filter(f)]: only an array has the method. *)
Definition call_filter (v : JsVal) (f : JsVal -> Completion bool) : Completion JsVal :=
  match v with
  | VArr elems _ => kept ← Array_filter f elems; mret (VArr kept [])
  | VUndef => Throw (type_error "Cannot read properties of undefined (reading 'filter')")
  | VNull => Throw (type_error "Cannot read properties of null (reading 'filter')")
  | _ => Throw (type_error "data.docs.filter is not a function")
  end.

(** The callback of the filter, [doc => doc.key], and the condition it
    stands for. *)
Definition doc_key (doc : JsVal) : Completion bool :=
  key ← getProp doc "key";
  mret (truthy key).

(** The body of the [try] block of [browseBooks]. *)
Definition browse_network (options : BrowseOptions) : M JsVal :=
  response ← fetch (requestUrl options);
  if negb (ok response)
  then throw (new_FetchError
                ("Network response was not ok, status: "
                 +:+ Number_toString (status response)))
  else
    data ← json response;
    docs ← lift (getProp data "docs");
    filteredBooks ← lift (call_filter docs doc_key);
    numFound ← lift (getProp data "numFound");
    let result := VObj [("books", filteredBooks); ("total", numFound)] in
    setItem (cacheKey options) (JSON_stringify rt result);;
    mret result.

(** The [catch] block of [browseBooks]. *)
Definition browse_fallback (options : BrowseOptions) (error : JsError) : M JsVal :=
  console_warn "Failed to fetch from network, checking cache..." error;;
  cachedData ← getItem (cacheKey options);
  if truthy_string cachedData
  then
    console_log "Serving from cache due to network error.";;
    lift (JSON_parse rt (default "" cachedData))
  else throw error.

Definition browseBooks (options : BrowseOptions) : M JsVal :=
  try_catch (browse_network options) (browse_fallback options).

(** *** [getBookDetails] *)

(** The test [edition.covers && edition.covers.length > 0]. *)
Definition has_cover (edition : JsVal) : Completion bool :=
  covers ← getProp edition "covers";
  if truthy covers
  then covers_length ← getProp covers "length"; gt0 covers_length
  else Normal false.

(** [if (edition.covers && edition.covers.length > 0)
       data.cover_i = edition.covers[0]] *)
Definition edition_cover (edition : JsVal) (data : ref) : M unit :=
  has_cover ← lift (has_cover edition);
  if has_cover : bool
  then
    covers ← lift (getProp edition "covers");
    cover ← lift (getIndex covers 0);
    assign data "cover_i" cover
  else mret ().

(** [if (edition.identifiers) { data.external_links = {}; ... }]: the
    external links, one statement per kind of identifier. *)
Definition edition_links (edition : JsVal) (data : ref) : M unit :=
  identifiers ← lift (getProp edition "identifiers");
  if truthy identifiers then
    assign data "external_links" (VObj []);;
    (first ← (ids ← lift (getProp identifiers "goodreads"); lift (getIndexOpt ids 0));
     if truthy first
     then
       ids ← lift (getProp identifiers "goodreads");
       id ← lift (getIndex ids 0);
       text ← lift (ToString id);
       assign_in data "external_links" "goodreads"
         (VStr ("https://www.goodreads.com/book/show/" +:+ text))
     else mret ());;
    (first ← (ids ← lift (getProp identifiers "amazon"); lift (getIndexOpt ids 0));
     if truthy first
     then
       ids ← lift (getProp identifiers "amazon");
       id ← lift (getIndex ids 0);
       text ← lift (ToString id);
       assign_in data "external_links" "amazon"
         (VStr ("https://www.amazon.com/dp/" +:+ text))
     else mret ());;
    (first ← (ids ← lift (getProp identifiers "google"); lift (getIndexOpt ids 0));
     if truthy first
     then
       ids ← lift (getProp identifiers "google");
       id ← lift (getIndex ids 0);
       text ← lift (ToString id);
       assign_in data "external_links" "google"
         (VStr ("https://books.google.com/books?id=" +:+ text))
     else mret ())
  else mret ().

(** The body of the first [try] block: the first edition of the work, for a
    cover and the external identifiers.  [data] is the object the primary
    request returned, updated in place. *)
Definition enrich_from_edition (workId : string) (data : ref) : M unit :=
  editionsResponse ←
    fetch (OPEN_LIBRARY_URL rt +:+ "/works/" +:+ workId +:+ "/editions.json?limit=1&language=eng");
  if ok editionsResponse then
    editionsData ← json editionsResponse;
    entries ← lift (getProp editionsData "entries");
    entries_length ← lift (getProp entries "length");
    has_entry ← lift (gt0 entries_length);
    if has_entry : bool then
      edition ← lift (getIndex entries 0);
      edition_cover edition data;;
      edition_links edition data
    else mret ()
  else mret ().

(** The body of the second [try] block: the record of the author. *)
Definition enrich_from_author (authorKey : JsVal) (data : ref) : M unit :=
  key ← lift (ToString authorKey);
  authorResponse ← fetch (OPEN_LIBRARY_URL rt +:+ key +:+ ".json");
  if ok authorResponse then
    authorData ← json authorResponse;
    name ← lift (getProp authorData "name");
    assign data "author_name" (VArr [name] []);;
    name ← lift (getProp authorData "name");
    bio ← lift (getProp authorData "bio");
    birth_date ← lift (getProp authorData "birth_date");
    death_date ← lift (getProp authorData "death_date");
    assign data "author_details"
      (VObj [("name", name); ("bio", bio);
             ("birth_date", birth_date); ("death_date", death_date)])
  else mret ().

(** [if (data.authors && data.authors[0].author) { ... try ... catch ... }]:
    the condition is evaluated outside the [try] block. *)
Definition author_enrichment (data : ref) : M unit :=
  current ← load data;
  authors ← lift (getProp current "authors");
  has_author ←
    (if truthy authors
     then
       first ← lift (getIndex authors 0);
       author ← lift (getProp first "author");
       mret (truthy author)
     else mret false);
  if has_author : bool
  then
    first ← lift (getIndex authors 0);
    author ← lift (getProp first "author");
    authorKey ← lift (getProp author "key");
    try_catch (enrich_from_author authorKey data)
      (fun error =>
         key ← lift (ToString authorKey);
         console_warn ("Could not fetch author details for " +:+ key +:+ ":") error)
  else mret ().

Definition getBookDetails (workId : string) : M JsVal :=
  response ← fetch (OPEN_LIBRARY_URL rt +:+ "/works/" +:+ workId +:+ ".json");
  if negb (ok response) then
    if bool_decide (status response = 404)
    then throw (new_BookNotFoundError workId)
    else throw (new_FetchError "Failed to fetch book details from Open Library.")
  else
    parsed ← json response;
    data ← alloc parsed;
    try_catch (enrich_from_edition workId data)
      (fun error =>
         console_warn ("Could not fetch edition details for " +:+ workId +:+ ":") error);;
    author_enrichment data;;
    load data.

(** *** The category fetchers *)

(** The arrays of the module, allocated when it is evaluated: a [const]
    binds the name to the array, which any code holding it could change. *)
Definition TRENDING_FALLBACKS : ref := 0%nat.
Definition TOP_RATED_FALLBACKS : ref := 1%nat.
Definition POPULAR_RANDOM_SUBJECTS : ref := 2%nat.

(** The array literals they are bound to. *)
Definition TRENDING_FALLBACKS_init : list JsVal :=
  [VStr "love"; VStr "fiction"; VStr "thriller"; VStr "adventure"; VStr "fantasy"].
Definition TOP_RATED_FALLBACKS_init : list JsVal :=
  [VStr "history"; VStr "classic_literature"; VStr "biography"; VStr "science"].
Definition POPULAR_RANDOM_SUBJECTS_init : list JsVal :=
  [VStr "adventure"; VStr "fantasy"; VStr "science_fiction"; VStr "romance";
   VStr "thriller"; VStr "mystery"].

(** The heap once the module is evaluated. *)
Definition module_heap : gmap ref JsVal :=
  <[TRENDING_FALLBACKS := VArr TRENDING_FALLBACKS_init []]>
  (<[TOP_RATED_FALLBACKS := VArr TOP_RATED_FALLBACKS_init []]>
  (<[POPULAR_RANDOM_SUBJECTS := VArr POPULAR_RANDOM_SUBJECTS_init []]> ∅)).

(** The world of a tab that has just loaded the module. *)
Definition initial_world : World := mkWorld ∅ module_heap 0 0 [].

(** The elements a [for...of] or a spread visits.  (A loop reads them when
    it starts: nothing in this module changes an array that is being
    iterated.) *)
Definition iterate (v : JsVal) : Completion (list JsVal) :=
  match v with
  | VArr elems _ => Normal elems
  | VStr s => Normal (map (fun c => VStr (String c EmptyString)) (list_ascii_of_string s))
  | _ => Throw (type_error (string_of v +:+ " is not iterable"))
  end.

(** The [try] block of a round of the loop of a category fetcher:
    [Some books] when it returns [books] from the function, [None] when it
    falls through.  The subject goes into the options as the string that
    [URLSearchParams.append] makes of it, the first thing that can fail in
    the browse call. *)
Definition subject_books (limit : Z) (subject : JsVal) : M (option JsVal) :=
  genre ← lift (ToString subject);
  result ← browseBooks
             (mkOptions None (Some [genre]) None (Some "relevance") (Some limit) None);
  books ← lift (getProp result "books");
  non_empty ←
    (if truthy books
     then books_length ← lift (getProp books "length"); lift (gt0 books_length)
     else mret false);
  mret (if non_empty : bool then Some books else None).

(** One round of the loop, with its [catch] block. *)
Definition try_subject (warning : string) (limit : Z) (subject : JsVal)
  : M (option JsVal) :=
  try_catch (subject_books limit subject)
    (fun error =>
       text ← lift (ToString subject);
       console_warn (warning +:+ text) error;;
       sleep 250;;
       mret None).

(** [for (const subject of subjects) { try ... catch ... }] *)
Fixpoint for_each_subject (warning : string) (limit : Z) (subjects : list JsVal)
  : M (option JsVal) :=
  match subjects with
  | [] => mret None
  | subject :: rest =>
      returned ← try_subject warning limit subject;
      match returned with
      | Some books => mret (Some books)
      | None => for_each_subject warning limit rest
      end
  end.

(** The loop and what follows it. *)
Definition first_non_empty (warning failure : string) (limit : Z) (subjects : list JsVal)
  : M JsVal :=
  returned ← for_each_subject warning limit subjects;
  match returned with
  | Some books => mret books
  | None => console_error failure;; mret (VArr [] [])
  end.

Definition getTrendingBooks (limit : option Z) : M JsVal :=
  let limit := default 20 limit in
  fallbacks ← load TRENDING_FALLBACKS;
  subjects ← lift (iterate fallbacks);
  first_non_empty "Trending fallback failed for subject: "
    "All fallback subjects for trending books failed." limit subjects.

Definition getTopRatedBooks (limit : option Z) : M JsVal :=
  let limit := default 20 limit in
  fallbacks ← load TOP_RATED_FALLBACKS;
  subjects ← lift (iterate fallbacks);
  first_non_empty "Top rated fallback failed for subject: "
    "All fallback subjects for top-rated books failed." limit subjects.

(** [Array.prototype.map] on the elements, in index order. *)
Fixpoint Array_map (f : JsVal -> M JsVal) (elems : list JsVal) : M (list JsVal) :=
  match elems with
  | [] => mret []
  | x :: rest =>
      y ← f x;
      ys ← Array_map f rest;
      mret (y :: ys)
  end.

(** [a.map(f)]: a new array. *)
Definition call_map (a : ref) (f : JsVal -> M JsVal) : M ref :=
  v ← load a;
  elems ← lift (iterate v);
  mapped ← Array_map f elems;
  alloc (VArr mapped []).

Definition is_undefined (v : JsVal) : bool :=
  match v with VUndef => true | _ => false end.

(** [x] goes before the first element it does not compare greater than; a
    comparison that is NaN counts as 0. *)
Fixpoint insert_sorted (comparefn : JsVal -> JsVal -> Completion (option Z))
    (x : JsVal) (sorted : list JsVal) : Completion (list JsVal) :=
  match sorted with
  | [] => Normal [x]
  | y :: rest =>
      v ← comparefn x y;
      if default 0 v <=? 0 then Normal (x :: y :: rest)
      else
        rest' ← insert_sorted comparefn x rest;
        mret (y :: rest')
  end.

Fixpoint sort_elems (comparefn : JsVal -> JsVal -> Completion (option Z))
    (elems : list JsVal) : Completion (list JsVal) :=
  match elems with
  | [] => Normal []
  | x :: rest =>
      sorted ← sort_elems comparefn rest;
      insert_sorted comparefn x sorted
  end.

(** [Array.prototype.sort]: a stable sort by [comparefn] of the elements
    that are not [undefined], which go last.  With a consistent comparison
    function, as a difference of numbers is, the resulting order is the same
    whichever algorithm the engine uses. *)
Definition Array_sort (comparefn : JsVal -> JsVal -> Completion (option Z))
    (elems : list JsVal) : Completion (list JsVal) :=
  sorted ← sort_elems comparefn (filter (fun v => is_undefined v = false) elems);
  mret (sorted ++ filter (fun v => is_undefined v = true) elems).

(** [a.sort(comparefn)]: the array is sorted in place, and returned. *)
Definition call_sort (a : ref) (comparefn : JsVal -> JsVal -> Completion (option Z))
  : M ref :=
  v ← load a;
  match v with
  | VArr elems own =>
      sorted ← lift (Array_sort comparefn elems);
      store a (VArr sorted own);;
      mret a
  | _ => throw (type_error "sort is not a function")
  end.

(** [[...a]]: a new array with the elements of [a]. *)
Definition spread (a : ref) : M ref :=
  v ← load a;
  elems ← lift (iterate v);
  alloc (VArr elems []).

(** [x - y]; only the sign of the difference is used. *)
Definition minus (x y : JsVal) : Completion (option Z) :=
  a ← ToNumber x;
  b ← ToNumber y;
  Normal match a, b with
         | Some a, Some b => Some (a - b)
         | _, _ => None
         end.

(** [(a, b) => a.sort - b.sort] *)
Definition by_sort_key (a b : JsVal) : Completion (option Z) :=
  x ← getProp a "sort"; y ← getProp b "sort"; minus x y.

(** The shuffled copy of the subjects that [getRandomBooks] builds. *)
Definition subjectsToTry : M ref :=
  copy ← spread POPULAR_RANDOM_SUBJECTS;
  keyed ← call_map copy (fun value => sort ← random; mret (VObj [("value", value); ("sort", sort)]));
  sorted ← call_sort keyed by_sort_key;
  call_map sorted (fun o => lift (getProp o "value")).

Definition getRandomBooks (limit : option Z) : M JsVal :=
  let limit := default 20 limit in
  subjectsToTry ← subjectsToTry;
  shuffled ← load subjectsToTry;
  subjects ← lift (iterate shuffled);
  first_non_empty "Random books failed for subject: "
    "All random subjects failed to return results." limit subjects.

End WithRuntime.

(** ** Vocabulary of the properties *)

(** The events a call adds to the trace of the world it starts in. *)
Definition new_events {A} (m : M A) (w : World) : list Event :=
  drop (List.length (trace w)) (trace (m w).2).

(** The request for [url], issued after [n] earlier requests, fails with [e]:
    the network rejects it, or the status of the response is not a success
    (the [FetchError] that [browseBooks] throws), or the body cannot be
    parsed, or it is parsed to a value whose [docs] cannot be filtered. *)
Inductive request_fails (rt : Runtime) (url : string) (n : nat) : JsError -> Prop :=
| network_error e :
    net rt n url = Rejected e ->
    request_fails rt url n e
| status_not_ok r :
    net rt n url = Resolved r ->
    ok r = false ->
    request_fails rt url n
      (new_FetchError ("Network response was not ok, status: "
                       +:+ Number_toString (status r)))
| body_unparsable r e :
    net rt n url = Resolved r ->
    ok r = true ->
    body r = Throw e ->
    request_fails rt url n e
| body_malformed r data e :
    net rt n url = Resolved r ->
    ok r = true ->
    body r = Normal data ->
    (docs ← getProp data "docs"; call_filter docs doc_key) = Throw e ->
    request_fails rt url n e.

(** What the request for [url], issued after [n] earlier requests, comes
    to before anything is written: the pair to return, or the error of the
    [try] block. *)
Definition search_outcome (rt : Runtime) (url : string) (n : nat) : Completion JsVal :=
  match net rt n url with
  | Rejected e => Throw e
  | Resolved r =>
      if ok r then
        data ← body r;
        docs ← getProp data "docs";
        books ← call_filter docs doc_key;
        numFound ← getProp data "numFound";
        Normal (VObj [("books", books); ("total", numFound)])
      else
        Throw (new_FetchError ("Network response was not ok, status: "
                               +:+ Number_toString (status r)))
  end.



(** What an event of [browseBooks] may be, given the request URL and the
    cache key: no request for another URL, no access to another key, no
    delay. *)
Definition browse_event (url key : string) (ev : Event) : Prop :=
  match ev with
  | Fetch u => u = url
  | SetItem k _ | GetItem k => k = key
  | Sleep _ => False
  | ConsoleLog _ | ConsoleWarn _ _ | ConsoleError _ => True
  end.

(** The object at [r] has property [k] with value [x] ([None]: it has no
    such property). *)
Definition prop_is (r : ref) (k : string) (x : option JsVal) (w : World) : Prop :=
  exists props, heap w !! r = Some (VObj props) /\ lookup_prop k props = x.

(** The object at [r] is [v]. *)
Definition cell_is (r : ref) (v : JsVal) (w : World) : Prop :=
  heap w !! r = Some v.

(** [m] preserves the invariant [I] of the world, however it ends. *)
Definition preserves {A} (I : World -> Prop) (m : M A) : Prop :=
  forall w, I w -> I (m w).2.

(** The URL of the primary request of [getBookDetails]. *)
Definition workUrl (rt : Runtime) (workId : string) : string :=
  OPEN_LIBRARY_URL rt +:+ "/works/" +:+ workId +:+ ".json".

(** The URL of its request for the first edition. *)
Definition editionsUrl (rt : Runtime) (workId : string) : string :=
  OPEN_LIBRARY_URL rt +:+ "/works/" +:+ workId +:+ "/editions.json?limit=1&language=eng".

Definition is_SetItem (ev : Event) : Prop :=
  match ev with SetItem _ _ => True | _ => False end.

(** What the request for the first edition of a work, issued after [n]
    earlier requests, comes to: the first entry of the list, or nothing when
    the request fails, the status is not a success, the body cannot be parsed
    or the list is empty. *)
Inductive edition_lookup (rt : Runtime) (workId : string) (n : nat)
  : option JsVal -> Prop :=
| edition_found r editionsData edition more own :
    net rt n (editionsUrl rt workId) = Resolved r ->
    ok r = true ->
    body r = Normal editionsData ->
    getProp editionsData "entries" = Normal (VArr (edition :: more) own) ->
    edition_lookup rt workId n (Some edition)
| edition_request_rejected e :
    net rt n (editionsUrl rt workId) = Rejected e ->
    edition_lookup rt workId n None
| edition_status_not_ok r :
    net rt n (editionsUrl rt workId) = Resolved r ->
    ok r = false ->
    edition_lookup rt workId n None
| edition_body_unparsable r e :
    net rt n (editionsUrl rt workId) = Resolved r ->
    ok r = true ->
    body r = Throw e ->
    edition_lookup rt workId n None
| edition_no_entry r editionsData own :
    net rt n (editionsUrl rt workId) = Resolved r ->
    ok r = true ->
    body r = Normal editionsData ->
    getProp editionsData "entries" = Normal (VArr [] own) ->
    edition_lookup rt workId n None.

(** The canonical URL of an identifier of each of the three kinds. *)
Definition link_prefix (kind : string) : string :=
  if decide (kind = "goodreads") then "https://www.goodreads.com/book/show/"
  else if decide (kind = "amazon") then "https://www.amazon.com/dp/"
  else "https://books.google.com/books?id=".

(** The first identifier of a kind in the identifiers of an edition,
    [identifiers.kind?.[0]]; [undefined] when there is none. *)
Definition first_identifier (identifiers : JsVal) (kind : string) : JsVal :=
  match (ids ← getProp identifiers kind; getIndexOpt ids 0) with
  | Normal id => id
  | Throw _ => VUndef
  end.

(** The links for some kinds, in order: one link per kind that has a first
    identifier, up to the first such identifier that cannot be converted to
    a string, at which the block is left. *)
Fixpoint links_from (identifiers : JsVal) (kinds : list string) : list (string * JsVal) :=
  match kinds with
  | [] => []
  | kind :: rest =>
      let id := first_identifier identifiers kind in
      if truthy id then
        if stringable id
        then (kind, VStr (link_prefix kind +:+ string_of id)) :: links_from identifiers rest
        else []
      else links_from identifiers rest
  end.

(** The mapping of external links for the identifiers of an edition. *)
Definition external_links_of (identifiers : JsVal) : list (string * JsVal) :=
  links_from identifiers ["goodreads"; "amazon"; "google"].

(** The module has been evaluated: its three arrays are in the heap. *)
Definition loaded (w : World) : Prop :=
  heap w !! TRENDING_FALLBACKS = Some (VArr TRENDING_FALLBACKS_init [])
  /\ heap w !! TOP_RATED_FALLBACKS = Some (VArr TOP_RATED_FALLBACKS_init [])
  /\ heap w !! POPULAR_RANDOM_SUBJECTS = Some (VArr POPULAR_RANDOM_SUBJECTS_init []).

(** The options of the browse call of a round. *)
Definition subject_options (limit : Z) (subject : JsVal) : BrowseOptions :=
  mkOptions None (Some [string_of subject]) None (Some "relevance") (Some limit) None.

(** How the [try] block of a round ends: it throws, it finds no book, or it
    returns a non-empty sequence of books. *)
Inductive Attempt :=
| Threw (e : JsError)
| Empty
| NonEmpty (books : JsVal).

(** What the browse call for a subject decides of the round, for a subject
    that has a string form: the round throws when the call does or when
    [books] cannot be read off its result; it is empty when [books] is falsy
    or its length is not above 0. *)
Definition attempt (rt : Runtime) (limit : Z) (subject : JsVal) (w : World) : Attempt :=
  match (browseBooks rt (subject_options limit subject) w).1 with
  | Throw e => Threw e
  | Normal result =>
      match getProp result "books" with
      | Throw e => Threw e
      | Normal books =>
          if truthy books then
            match (books_length ← getProp books "length"; gt0 rt books_length) with
            | Throw e => Threw e
            | Normal true => NonEmpty books
            | Normal false => Empty
            end
          else Empty
      end
  end.

(** The world after the round: the one the browse call leaves, with the
    warning and the delay when the round threw. *)
Definition after_round (rt : Runtime) (warning : string) (limit : Z) (subject : JsVal)
    (w : World) : World :=
  let w' := (browseBooks rt (subject_options limit subject) w).2 in
  match attempt rt limit subject w with
  | Threw e =>
      record (Sleep 250) (record (ConsoleWarn (warning +:+ string_of subject) e) w')
  | _ => w'
  end.

(** The rounds that take place when the loop runs over [subjects] from the
    world [w], each with the way its [try] block ends. *)
Fixpoint rounds (rt : Runtime) (warning : string) (limit : Z)
    (subjects : list JsVal) (w : World) : list (JsVal * Attempt) :=
  match subjects with
  | [] => []
  | subject :: rest =>
      let a := attempt rt limit subject w in
      (subject, a) ::
      match a with
      | NonEmpty _ => []
      | _ => rounds rt warning limit rest (after_round rt warning limit subject w)
      end
  end.

Definition is_hit (a : Attempt) : bool :=
  match a with NonEmpty _ => true | _ => false end.

(** The requests and the delays that a sequence of rounds is to show, in
    order: one request per round, and a delay of 250 ms after a round that
    threw. *)
Definition round_events (rt : Runtime) (limit : Z) (r : JsVal * Attempt) : list Event :=
  Fetch (requestUrl rt (subject_options limit r.1))
  :: match r.2 with
     | Threw _ => [Sleep 250]
     | _ => []
     end.

Definition fetch_or_sleep (ev : Event) : bool :=
  match ev with
  | Fetch _ | Sleep _ => true
  | _ => false
  end.

(** What the fetcher returns after these rounds. *)
Definition rounds_result (rs : list (JsVal * Attempt)) : JsVal :=
  match last rs with
  | Some (_, NonEmpty books) => books
  | _ => VArr [] []
  end.

(** The object that the first [map] of the shuffle builds for a subject and
    its random key. *)
Definition keyed (p : JsVal * Z) : JsVal :=
  VObj [("value", p.1); ("sort", VNum p.2)].

(** [w'] differs from [w] in the heap and the number of random draws at
    most. *)
Definition same_outside (w w' : World) : Prop :=
  sessionStorage w' = sessionStorage w
  /\ fetched w' = fetched w
  /\ trace w' = trace w.

(** Every object of [w] is in [w'], unchanged. *)
Definition heap_extends (w w' : World) : Prop :=
  forall r v, heap w !! r = Some v -> heap w' !! r = Some v.


(** ** Examples *)

Module Demo.

(** A serialization of the values of the examples, which contain no
    [undefined] and no character to escape. *)
Fixpoint stringify (v : JsVal) : string :=
  match v with
  | VUndef | VNull | VFun _ _ => "null"
  | VBool true => "true"
  | VBool false => "false"
  | VNum n => Number_toString n
  | VStr s => dquote +:+ s +:+ dquote
  | VArr elems _ =>
      "[" +:+
      (fix items (l : list JsVal) : string :=
         match l with
         | [] => ""
         | [e] => stringify e
         | e :: l' => stringify e +:+ "," +:+ items l'
         end) elems
      +:+ "]"
  | VObj props =>
      "{" +:+
      (fix members (l : list (string * JsVal)) : string :=
         match l with
         | [] => ""
         | [(k, e)] => dquote +:+ k +:+ dquote +:+ ":" +:+ stringify e
         | (k, e) :: l' => dquote +:+ k +:+ dquote +:+ ":" +:+ stringify e +:+ "," +:+ members l'
         end) props
      +:+ "}"
  end.

(** A pair that an earlier call has cached. *)
Definition cached_result : JsVal :=
  VObj [("books", VArr [VObj [("key", VStr "/works/OL893415W"); ("title", VStr "Dune")]] []);
        ("total", VNum 1)].

(** [JSON.parse] on the one text the examples read back. *)
Definition parse (s : string) : Completion JsVal :=
  if decide (s = stringify cached_result) then Normal cached_result
  else Throw (mkError SyntaxError "SyntaxError" "Unexpected token").

(** A runtime with the network [network]. *)
Definition runtime (network : nat -> string -> FetchOutcome) : Runtime :=
  mkRuntime "https://openlibrary.org" network
    (fun n => Z.of_nat ((n * 7 + 3) mod 11)) parse stringify (fun _ => None)
    (fun _ _ _ => true).

(** Every request fails. *)
Definition offline : Runtime :=
  runtime (fun _ _ => Rejected (type_error "Failed to fetch")).

(** Every request gets the status 404. *)
Definition missing : Runtime :=
  runtime (fun _ _ => Resolved (mkResponse 404 (Normal (VObj [("error", VStr "notfound")])))).

Definition search_body : JsVal :=
  VObj [("numFound", VNum 3);
        ("docs",
         VArr [VObj [("key", VStr "/works/OL893415W"); ("title", VStr "Dune")];
               VObj [("title", VStr "Dune Messiah")];
               VObj [("key", VStr ""); ("title", VStr "Children of Dune")]] [])].

(** Every request gets the search result [search_body]. *)
Definition searching : Runtime :=
  runtime (fun _ _ => Resolved (mkResponse 200 (Normal search_body))).

(** The first request fails, the second finds nothing, the later ones get
    [search_body]. *)
Definition flaky : Runtime :=
  runtime (fun n _ =>
             match n with
             | O => Rejected (type_error "Failed to fetch")
             | S O => Resolved (mkResponse 200
                                  (Normal (VObj [("numFound", VNum 0); ("docs", VArr [] [])])))
             | _ => Resolved (mkResponse 200 (Normal search_body))
             end).

Definition dune : BrowseOptions :=
  mkOptions (Some "dune") None None None (Some 10) (Some 1).

(** A world whose cache holds [cached_result] for the options [dune]. *)
Definition cached_world : World :=
  mkWorld {[cacheKey offline dune := stringify cached_result]} module_heap 0 0 [].


(** A work whose list of authors is empty. *)
Definition work_without_authors : list (string * JsVal) :=
  [("key", VStr "/works/OL893415W"); ("title", VStr "Dune"); ("authors", VArr [] [])].

Definition anonymous : Runtime :=
  runtime (fun n _ =>
             match n with
             | O => Resolved (mkResponse 200 (Normal (VObj work_without_authors)))
             | _ => Rejected (type_error "Failed to fetch")
             end).

(** A work without authors and its first edition. *)
Definition work : list (string * JsVal) :=
  [("key", VStr "/works/OL893415W"); ("title", VStr "Dune")].

Definition edition : list (string * JsVal) :=
  [("covers", VArr [VNum 9255566] []);
   ("identifiers",
    VObj [("goodreads", VArr [VStr "234225"] []); ("librarything", VArr [VStr "8717"] [])])].

Definition catalog : Runtime :=
  runtime (fun n _ =>
             match n with
             | O => Resolved (mkResponse 200 (Normal (VObj work)))
             | _ => Resolved (mkResponse 200
                                (Normal (VObj [("entries", VArr [VObj edition] [])])))
             end).


(** A page far out, of the largest size that is a safe integer. *)
Definition far_page : BrowseOptions :=
  mkOptions None None None None (Some (2 ^ 53 - 1)) (Some 4).



End Demo.

(** ** Vocabulary of the further properties *)

(** The text searched for: the wildcard when the query is absent or empty. *)
Definition effective_query (options : BrowseOptions) : string :=
  match query options with
  | Some q => if bool_decide (q = "") then "*" else q
  | None => "*"
  end.

(** The publish year asked for, if any: an empty year is none. *)
Definition effective_year (options : BrowseOptions) : option string :=
  match year options with
  | Some y => if bool_decide (y = "") then None else Some y
  | None => None
  end.

(** The sort order asked for, if it is not the order of the server. *)
Definition effective_sort (options : BrowseOptions) : option string :=
  match sort options with
  | Some s => if bool_decide (s = "") || bool_decide (s = "relevance") then None else Some s
  | None => None
  end.

(** The pairs of the query string, in order. *)
Definition expected_params (options : BrowseOptions) : list (string * string) :=
  [("q", effective_query options)]
  ++ map (pair "subject") (default [] (genres options))
  ++ match effective_year options with Some y => [("publish_year", y)] | None => [] end
  ++ match effective_sort options with Some s => [("sort", s)] | None => [] end
  ++ [("offset", Double_toString (offset options));
      ("language", "eng");
      ("limit", Number_toString (default 40 (limit options)));
      ("fields", "key,title,author_name,cover_i,first_publish_year")].

(** The value of a hexadecimal digit. *)
Definition hex_value (c : ascii) : N :=
  let n := N_of_ascii c in
  if (n <? 58)%N then (n - 48)%N else (n - 55)%N.

(** The decoding that a reader of the query string applies to a name or a
    value: [+] is a space and [%XX] a byte, two bytes from 192 on making one
    code unit. *)
Fixpoint urldecode (s : string) : string :=
  match s with
  | EmptyString => EmptyString
  | String c r =>
      if (c =? "+")%char then String " " (urldecode r)
      else if (c =? "%")%char then
        match r with
        | String h (String l r1) =>
            let b := (16 * hex_value h + hex_value l)%N in
            if (b <? 128)%N then String (ascii_of_N b) (urldecode r1)
            else
              match r1 with
              | String _ (String h' (String l' r2)) =>
                  let b' := (16 * hex_value h' + hex_value l')%N in
                  String (ascii_of_N ((b - 192) * 64 + (b' - 128))) (urldecode r2)
              | _ => EmptyString
              end
        | _ => EmptyString
        end
      else String c (urldecode r)
  end.

(** [c] occurs in [s]. *)
Fixpoint has_char (c : ascii) (s : string) : bool :=
  match s with
  | EmptyString => false
  | String c' r => (c' =? c)%char || has_char c r
  end.

(** The text of one pair of the query string. *)
Definition item (p : string * string) : string :=
  URLSearchParams.encode p.1 +:+ String "=" (URLSearchParams.encode p.2).

(** ** Further examples *)

Module Outage.

(** The pair that the search for [Demo.search_body] returns. *)
Definition found : JsVal :=
  VObj [("books", VArr [VObj [("key", VStr "/works/OL893415W"); ("title", VStr "Dune")]] []);
        ("total", VNum 3)].

(** [JSON.parse] on the text of that pair. *)
Definition parse (s : string) : Completion JsVal :=
  if decide (s = Demo.stringify found) then Normal found
  else Throw (mkError SyntaxError "SyntaxError" "Unexpected token").

(** The catalog answers the first request and cannot be reached
    afterwards. *)
Definition runtime : Runtime :=
  mkRuntime "https://openlibrary.org"
    (fun n _ =>
       match n with
       | O => Resolved (mkResponse 200 (Normal Demo.search_body))
       | _ => Rejected (type_error "Failed to fetch")
       end)
    (fun _ => 0) parse Demo.stringify (fun _ => None) (fun _ _ _ => true).

End Outage.

(** The requests among some events, in order. *)
Definition requests (evs : list Event) : list string :=
  omap (fun ev => match ev with Fetch url => Some url | _ => None end) evs.

(** The delays among some events, in order. *)
Definition delays (evs : list Event) : list Z :=
  omap (fun ev => match ev with Sleep ms => Some ms | _ => None end) evs.

(** What an event of the enrichment of [getBookDetails] may be: a request
    for a URL of the catalog, or a warning. *)
Definition details_event (rt : Runtime) (ev : Event) : Prop :=
  match ev with
  | Fetch url => exists path, url = OPEN_LIBRARY_URL rt +:+ path
  | ConsoleWarn _ _ => True
  | _ => False
  end.

(** [w'] comes from [w] by such events only, at most [n] requests among
    them, each counted: the session storage and the random source are as in
    [w]. *)
Definition requests_within (rt : Runtime) (n : nat) (w w' : World) : Prop :=
  sessionStorage w' = sessionStorage w
  /\ drawn w' = drawn w
  /\ exists evs,
       trace w' = trace w ++ evs
       /\ Forall (details_event rt) evs
       /\ fetched w' = (fetched w + List.length (requests evs))%nat
       /\ (List.length (requests evs) <= n)%nat.

(** [m] does so from every world, however it ends. *)
Definition calls_catalog (rt : Runtime) (n : nat) {A} (m : M A) : Prop :=
  forall w, requests_within rt n w (m w).2.

(** The test [data.authors && data.authors[0].author] reads a property of
    [undefined] or [null]: the record has a truthy [authors] whose element 0
    is one of them. *)
Definition first_author_missing (props : list (string * JsVal)) : bool :=
  let authors := default VUndef (lookup_prop "authors" props) in
  truthy authors &&
  match getIndex authors 0 with
  | Normal VUndef | Normal VNull => true
  | _ => false
  end.

(** The key of the author that the test [data.authors &&
    data.authors[0].author] finds in the record, if it finds one. *)
Definition first_author_key (props : list (string * JsVal)) : option JsVal :=
  let authors := default VUndef (lookup_prop "authors" props) in
  if truthy authors
  then match getIndex authors 0 with
       | Normal first =>
           match getProp first "author" with
           | Normal author =>
               if truthy author
               then match getProp author "key" with
                    | Normal key => Some key
                    | Throw _ => None
                    end
               else None
           | Throw _ => None
           end
       | Throw _ => None
       end
  else None.

(** The test finds an author whose key has no string form: the template
    literals of the author block, in the [try] block and in its handler,
    throw. *)
Definition author_key_unprintable (props : list (string * JsVal)) : bool :=
  match first_author_key props with
  | Some key => negb (stringable key)
  | None => false
  end.

(** The properties of the record that the enrichment assigns. *)
Definition enriched_fields : list string :=
  ["cover_i"; "external_links"; "author_name"; "author_details"].

(** What the edition block, with its handler, leaves in [cover_i] of the
    record, for an edition whose [covers], when it has one, is an array:
    [Some x] when it is [x] ([None] inside: no such property). *)
Definition cover_after (props : list (string * JsVal)) (found : option JsVal)
  : option (option JsVal) :=
  match found with
  | None => Some (lookup_prop "cover_i" props)
  | Some (VObj eprops) =>
      match lookup_prop "covers" eprops with
      | Some (VArr (cover :: _) _) => Some (Some cover)
      | Some (VArr [] _) | None => Some (lookup_prop "cover_i" props)
      | Some _ => None
      end
  | Some _ => None
  end.

(** The URL of the request for the record of an author. *)
Definition authorUrl (rt : Runtime) (authorKey : JsVal) : string :=
  OPEN_LIBRARY_URL rt +:+ string_of authorKey +:+ ".json".

(** What the request for the record of an author, issued after [n] earlier
    requests, comes to: the record, when it is an object, or nothing when the
    request fails, the status is not a success or the body cannot be
    parsed. *)
Inductive author_lookup (rt : Runtime) (authorKey : JsVal) (n : nat)
  : option (list (string * JsVal)) -> Prop :=
| author_found r authorData :
    net rt n (authorUrl rt authorKey) = Resolved r ->
    ok r = true ->
    body r = Normal (VObj authorData) ->
    author_lookup rt authorKey n (Some authorData)
| author_request_rejected e :
    net rt n (authorUrl rt authorKey) = Rejected e ->
    author_lookup rt authorKey n None
| author_status_not_ok r :
    net rt n (authorUrl rt authorKey) = Resolved r ->
    ok r = false ->
    author_lookup rt authorKey n None
| author_body_unparsable r e :
    net rt n (authorUrl rt authorKey) = Resolved r ->
    ok r = true ->
    body r = Throw e ->
    author_lookup rt authorKey n None.

(** The details that the author step keeps of the record of an author. *)
Definition author_details_of (authorData : list (string * JsVal)) : JsVal :=
  let field k := default VUndef (lookup_prop k authorData) in
  VObj [("name", field "name"); ("bio", field "bio");
        ("birth_date", field "birth_date"); ("death_date", field "death_date")].

Module Library.

(** A work with its author, its first edition and the record of the
    author. *)
Definition work : list (string * JsVal) :=
  [("key", VStr "/works/OL893415W"); ("title", VStr "Dune");
   ("authors", VArr [VObj [("author", VObj [("key", VStr "/authors/OL79034A")])]] [])].

Definition author : list (string * JsVal) :=
  [("name", VStr "Frank Herbert"); ("birth_date", VStr "8 October 1920")].

Definition runtime : Runtime :=
  Demo.runtime (fun n _ =>
                  match n with
                  | O => Resolved (mkResponse 200 (Normal (VObj work)))
                  | S O => Resolved (mkResponse 200
                                       (Normal (VObj [("entries", VArr [VObj Demo.edition] [])])))
                  | _ => Resolved (mkResponse 200 (Normal (VObj author)))
                  end).

End Library.

(** The events of a fetcher that has at most [n] subjects to try: between
    one and [n] requests, and delays of 250 ms, no more of them than
    requests. *)
Definition bounded_run (n : nat) (evs : list Event) : Prop :=
  (1 <= List.length (requests evs) <= n)%nat
  /\ Forall (fun ms => ms = 250) (delays evs)
  /\ (List.length (delays evs) <= List.length (requests evs))%nat.

(** The subjects with the random keys that a shuffle started in [w] draws
    for them: the subject at index [i] gets the [i]-th draw from there. *)
Definition drawn_keys (rt : Runtime) (subjects : list JsVal) (w : World)
  : list (JsVal * Z) :=
  zip subjects (map (Math_random rt) (seq (drawn w) (List.length subjects))).

(** The order of the keys. *)
Definition key_le (p q : JsVal * Z) : Prop := p.2 <= q.2.

Module Home.

(** A world whose cache holds [Demo.cached_result] for the first search of
    [getTrendingBooks]. *)
Definition cached_world : World :=
  mkWorld {[cacheKey Demo.offline (subject_options 20 (VStr "love"))
            := Demo.stringify Demo.cached_result]}
          module_heap 0 0 [].

End Home.

(** * Properties *)

(** ** The query parameters *)

Module URLSearchParamsFacts.
Import URLSearchParams.

Lemma set_cons name value n v (rest : t) :
  set name value ((n, v) :: rest) =
  if decide (n = name)
  then (name, value) :: filter (fun p => p.1 ≠ name) rest
  else (n, v) :: set name value rest.
Proof. reflexivity. Qed.

Lemma getAll_cons name n v (rest : t) :
  getAll name ((n, v) :: rest) =
  if decide (n = name) then v :: getAll name rest else getAll name rest.
Proof. unfold getAll. rewrite filter_cons. simpl. by case_decide. Qed.

Lemma getAll_without name (params : t) :
  getAll name (filter (fun p => p.1 ≠ name) params) = [].
Proof.
  induction params as [|[n v] rest IH]; [done|].
  rewrite filter_cons. simpl. case_decide as Hn; [|exact IH].
  rewrite getAll_cons. by case_decide.
Qed.

Lemma getAll_without_other name other (params : t) :
  other ≠ name ->
  getAll other (filter (fun p => p.1 ≠ name) params) = getAll other params.
Proof.
  intros Hne. induction params as [|[n v] rest IH]; [done|].
  rewrite filter_cons. simpl. rewrite !getAll_cons.
  case_decide as Hn.
  - rewrite getAll_cons, IH. done.
  - case_decide; [congruence|done].
Qed.

Lemma getAll_set_eq name value (params : t) :
  getAll name (set name value params) = [value].
Proof.
  induction params as [|[n v] rest IH].
  - simpl. rewrite getAll_cons. by case_decide.
  - rewrite set_cons. case_decide as Hn.
    + rewrite getAll_cons. case_decide; [|done]. by rewrite getAll_without.
    + rewrite getAll_cons. by case_decide.
Qed.

Lemma getAll_set_ne name other value (params : t) :
  other ≠ name ->
  getAll other (set name value params) = getAll other params.
Proof.
  intros Hne. induction params as [|[n v] rest IH].
  - simpl. rewrite getAll_cons. case_decide; [congruence|done].
  - rewrite set_cons. case_decide as Hn.
    + subst n. rewrite !getAll_cons.
      case_decide; [congruence|]. by apply getAll_without_other.
    + rewrite !getAll_cons. by rewrite IH.
Qed.

End URLSearchParamsFacts.

(** Integers up to [2 ^ 53] are doubles, written with their decimal
    digits. *)
Lemma to_double_safe (z : Z) : Z.abs z <= 2 ^ 53 -> to_double z = Finite z.
Proof. intros Hz. unfold to_double. by rewrite (proj2 (Z.leb_le _ _) Hz). Qed.

Lemma Double_toString_safe (z : Z) :
  Z.abs z <= 2 ^ 53 -> Double_toString (Finite z) = pretty z.
Proof. intros Hz. unfold Double_toString. by rewrite (proj2 (Z.leb_le _ _) Hz). Qed.

Lemma Number_toString_safe (z : Z) : Z.abs z <= 2 ^ 53 -> Number_toString z = pretty z.
Proof.
  intros Hz. unfold Number_toString. rewrite to_double_safe by done.
  by apply Double_toString_safe.
Qed.

(** The offset of a page whose exact offset is a safe integer. *)
Lemma offset_safe (options : BrowseOptions) :
  let L := default 40 (limit options) in
  let p := default 1 (page options) in
  Z.abs (p - 1) <= 2 ^ 53 -> Z.abs ((p - 1) * L) <= 2 ^ 53 ->
  offset options = Finite ((p - 1) * L).
Proof.
  intros L p Hp HpL. unfold offset, Double_sub. fold L p.
  rewrite (to_double_safe (p - 1)) by done. unfold Double_mul.
  by apply to_double_safe.
Qed.

(** The request carries exactly one [offset] parameter. *)
Lemma offset_param (options : BrowseOptions) :
  URLSearchParams.getAll "offset" (searchParams options)
  = [Double_toString (offset options)].
Proof.
  unfold searchParams.
  rewrite !URLSearchParamsFacts.getAll_set_ne by discriminate.
  apply URLSearchParamsFacts.getAll_set_eq.
Qed.

(** C7 (amended). For a page number [p >= 1] and a page size [L >= 1] given
    in the options (whatever the other options are) whose product
    [(p - 1) * L] is at most [2 ^ 53], the request carries exactly one
    [offset] parameter and its value is the decimal form of [(p - 1) * L];
    when neither is given (page 1, limit 40), the offset is 0. *)
Theorem offset_parameter (q : option string) (g : option (list string))
    (y s : option string) (p L : Z) :
  1 <= p -> 1 <= L -> (p - 1) * L <= 2 ^ 53 ->
  offset (mkOptions q g y s (Some L) (Some p)) = Finite ((p - 1) * L)
  /\ URLSearchParams.getAll "offset" (searchParams (mkOptions q g y s (Some L) (Some p)))
     = [pretty ((p - 1) * L)]
  /\ offset (mkOptions q g y s None None) = Finite 0
  /\ URLSearchParams.getAll "offset" (searchParams (mkOptions q g y s None None)) = ["0"].
Proof.
  intros Hp HL Hproduct.
  assert (Hoffset : offset (mkOptions q g y s (Some L) (Some p)) = Finite ((p - 1) * L)).
  { apply offset_safe; cbn [limit page default id from_option]; nia. }
  split; [exact Hoffset|]. split.
  - rewrite offset_param, Hoffset. f_equal. apply Double_toString_safe. nia.
  - split; [reflexivity|]. by rewrite offset_param.
Qed.

(** ** [browseBooks] *)

Section BrowseBooks.

Variable rt : Runtime.
Implicit Types (options : BrowseOptions) (w : World) (e : JsError).

Lemma new_events_app {A} (m : M A) w evs :
  trace (m w).2 = trace w ++ evs -> new_events m w = evs.
Proof.
  intros H. unfold new_events. rewrite H. by rewrite drop_app_length.
Qed.

(** The request fails exactly when it comes to an error. *)
Lemma search_outcome_fails url n e :
  request_fails rt url n e <-> search_outcome rt url n = Throw e.
Proof.
  unfold search_outcome. split.
  - intros [e' Hnet | r Hnet Hok | r e' Hnet Hok Hbody | r data e' Hnet Hok Hbody Hdocs];
      rewrite Hnet; try rewrite Hok; try rewrite Hbody; try done.
    cbn [mbind Completion_bind] in *.
    destruct (getProp data "docs") as [docs|e0]; [|done].
    cbn [mbind Completion_bind] in *. by rewrite Hdocs.
  - destruct (net rt n url) as [e'|r] eqn:Hnet.
    { intros [= ->]. by apply network_error. }
    destruct (ok r) eqn:Hok.
    2: { intros [= <-]. by apply status_not_ok. }
    destruct (body r) as [data|e'] eqn:Hbody.
    2: { intros [= ->]. by eapply body_unparsable. }
    cbn [mbind Completion_bind].
    destruct (getProp data "docs") as [docs|e'] eqn:Hdocs.
    2: { intros [= ->]. eapply body_malformed; [done..|]. by rewrite Hdocs. }
    cbn [mbind Completion_bind].
    destruct (call_filter docs doc_key) as [books|e'] eqn:Hfilter.
    2: { intros [= ->]. eapply body_malformed; [done..|]. by rewrite Hdocs. }
    cbn [mbind Completion_bind].
    destruct data; try discriminate Hdocs; by intros [=].
Qed.

(** The [try] block: the request, then the write of what it comes to. *)
Lemma browse_network_run options w :
  browse_network rt options w =
  let url := requestUrl rt options in
  match search_outcome rt url (fetched w) with
  | Throw e => (Throw e, issued url w)
  | Normal result =>
      if Storage_accepts rt (sessionStorage w) (cacheKey rt options)
                         (JSON_stringify rt result)
      then (Normal result,
            stored (cacheKey rt options) (JSON_stringify rt result) (issued url w))
      else (Throw quota_exceeded,
            record (SetItem (cacheKey rt options) (JSON_stringify rt result))
                   (issued url w))
  end.
Proof.
  unfold browse_network, search_outcome, mbind at 1, M_bind at 1, fetch. cbv zeta.
  destruct (net rt (fetched w) (requestUrl rt options)) as [e|r]; [done|].
  destruct (ok r); cbn [negb]; [|done].
  unfold json, lift, mbind at 1, M_bind at 1.
  destruct (body r) as [data|e]; [|done]. cbn [mbind Completion_bind].
  unfold mbind at 1, M_bind at 1.
  destruct (getProp data "docs") as [docs|e]; [|done]. cbn [mbind Completion_bind].
  unfold mbind at 1, M_bind at 1.
  destruct (call_filter docs doc_key) as [books|e]; [|done]. cbn [mbind Completion_bind].
  unfold mbind at 1, M_bind at 1.
  destruct (getProp data "numFound") as [numFound|e]; [|done].
  cbn [mbind Completion_bind]. unfold mbind, M_bind, setItem.
  cbn [sessionStorage issued record].
  by destruct (Storage_accepts rt _ _ _).
Qed.

Lemma browse_network_fails options w e :
  request_fails rt (requestUrl rt options) (fetched w) e ->
  browse_network rt options w = (Throw e, issued (requestUrl rt options) w).
Proof.
  intros Hfail%search_outcome_fails. rewrite browse_network_run. cbv zeta.
  by rewrite Hfail.
Qed.

(** The [try] block ends in one of three ways: the request fails; or it
    comes to a pair that is written to the cache; or it comes to a pair that
    the store has no room for. *)
Lemma browse_network_cases options w :
  let url := requestUrl rt options in
  let key := cacheKey rt options in
  (exists e,
      request_fails rt url (fetched w) e
      /\ browse_network rt options w = (Throw e, issued url w))
  \/ (exists result,
        search_outcome rt url (fetched w) = Normal result
        /\ Storage_accepts rt (sessionStorage w) key (JSON_stringify rt result) = true
        /\ browse_network rt options w
           = (Normal result, stored key (JSON_stringify rt result) (issued url w)))
  \/ (exists result,
        search_outcome rt url (fetched w) = Normal result
        /\ Storage_accepts rt (sessionStorage w) key (JSON_stringify rt result) = false
        /\ browse_network rt options w
           = (Throw quota_exceeded,
              record (SetItem key (JSON_stringify rt result)) (issued url w))).
Proof.
  cbv zeta. rewrite browse_network_run. cbv zeta.
  destruct (search_outcome rt _ _) as [result|e] eqn:Hout.
  - destruct (Storage_accepts rt _ _ _) eqn:Hroom.
    + right. left. by exists result.
    + right. right. by exists result.
  - left. exists e. split; [by apply search_outcome_fails|done].
Qed.

(** The [catch] block. *)
Lemma browse_fallback_hit options w e s :
  sessionStorage w !! cacheKey rt options = Some s ->
  s ≠ "" ->
  browse_fallback rt options e w =
  (JSON_parse rt s,
   record (ConsoleLog "Serving from cache due to network error.")
     (record (GetItem (cacheKey rt options))
        (record (ConsoleWarn "Failed to fetch from network, checking cache..." e) w))).
Proof.
  intros Hs Hne. unfold browse_fallback, mbind, M_bind. simpl.
  rewrite Hs. simpl. rewrite bool_decide_eq_false_2 by done. simpl.
  unfold lift. by destruct (JSON_parse rt s).
Qed.

Lemma browse_fallback_miss options w e :
  sessionStorage w !! cacheKey rt options = None
  \/ sessionStorage w !! cacheKey rt options = Some "" ->
  browse_fallback rt options e w =
  (Throw e,
   record (GetItem (cacheKey rt options))
     (record (ConsoleWarn "Failed to fetch from network, checking cache..." e) w)).
Proof.
  intros Hs. unfold browse_fallback, mbind, M_bind. simpl.
  destruct Hs as [-> | ->]; reflexivity.
Qed.


End BrowseBooks.

Section BrowseBooksRun.

Variable rt : Runtime.
Implicit Types (options : BrowseOptions) (w : World) (e : JsError).


(** The world that the [catch] block leaves. *)
Lemma browse_fallback_cases options w e :
  let w1 := record (GetItem (cacheKey rt options))
              (record (ConsoleWarn "Failed to fetch from network, checking cache..." e) w) in
  (browse_fallback rt options e w).2 = w1
  \/ (browse_fallback rt options e w).2
     = record (ConsoleLog "Serving from cache due to network error.") w1.
Proof.
  destruct (sessionStorage w !! cacheKey rt options) as [s|] eqn:Hs.
  - destruct (decide (s = "")) as [->|Hne].
    + left. by rewrite browse_fallback_miss by (by right).
    + right. by rewrite (browse_fallback_hit _ _ _ _ s).
  - left. by rewrite browse_fallback_miss by (by left).
Qed.

(** What a call of [browseBooks] does to the world: one request, for the
    URL of the options, then accesses to the cache under the key of that URL
    only; the heap and the random source are not touched. *)
Lemma browseBooks_run options w :
  let w' := (browseBooks rt options w).2 in
  (exists evs,
      trace w' = trace w ++ Fetch (requestUrl rt options) :: evs
      /\ Forall (fun ev => match ev with Fetch _ => False | _ => True end) evs
      /\ Forall (browse_event (requestUrl rt options) (cacheKey rt options)) evs)
  /\ fetched w' = S (fetched w)
  /\ heap w' = heap w
  /\ drawn w' = drawn w
  /\ (forall k, k ≠ cacheKey rt options -> sessionStorage w' !! k = sessionStorage w !! k).
Proof.
  unfold browseBooks, try_catch.
  destruct (browse_network_cases rt options w)
    as [(e & _ & ->) | [(result & _ & _ & ->) | (result & _ & _ & ->)]].
  - destruct (browse_fallback_cases options (issued (requestUrl rt options) w) e)
      as [-> | ->]; simpl.
    + split; [|done]. eexists. split; [by rewrite <- !app_assoc|].
      split; repeat constructor.
    + split; [|done]. eexists. split; [by rewrite <- !app_assoc|].
      split; repeat constructor.
  - simpl. split.
    + eexists. split; [by rewrite <- !app_assoc|]. split; repeat constructor.
    + repeat split. intros k Hk. by rewrite lookup_insert_ne.
  - destruct (browse_fallback_cases options
                (record (SetItem (cacheKey rt options) (JSON_stringify rt result))
                        (issued (requestUrl rt options) w)) quota_exceeded)
      as [-> | ->]; simpl.
    + split; [|done]. eexists. split; [by rewrite <- !app_assoc|].
      split; repeat constructor.
    + split; [|done]. eexists. split; [by rewrite <- !app_assoc|].
      split; repeat constructor.
Qed.



(** C9. The request URL and the cache key are functions of the options (and
    of the constant base URL): whatever the worlds two calls with the same
    options start in, every request either of them issues is for the same
    URL, and every read or write of the cache either of them makes is under
    the same key, the URL prefixed by [browse_]; so what a fallback reads is
    what a successful call with these options writes.  No entry under another
    key is changed. *)
Theorem browse_key_deterministic options w1 w2 :
  cacheKey rt options = "browse_" +:+ requestUrl rt options
  /\ Forall (browse_event (requestUrl rt options) (cacheKey rt options))
       (new_events (browseBooks rt options) w1 ++ new_events (browseBooks rt options) w2)
  /\ (forall k, k ≠ cacheKey rt options ->
        sessionStorage (browseBooks rt options w1).2 !! k = sessionStorage w1 !! k).
Proof.
  split; [done|]. split.
  - apply Forall_app. split.
    + destruct (browseBooks_run options w1) as [(evs & Htr & _ & Hevs) _].
      rewrite (new_events_app _ _ _ Htr). by constructor.
    + destruct (browseBooks_run options w2) as [(evs & Htr & _ & Hevs) _].
      rewrite (new_events_app _ _ _ Htr). by constructor.
  - by apply browseBooks_run.
Qed.

End BrowseBooksRun.

(** ** Stepping through a call *)

Section Steps.

Context {A B : Type}.
Implicit Types (m : M A) (f : A -> M B) (w : World).

Lemma run_bind m f w :
  (m ≫= f) w =
  match m w with
  | (Normal a, w') => f a w'
  | (Throw e, w') => (Throw e, w')
  end.
Proof. reflexivity. Qed.

Lemma run_bind_normal m f w a w' :
  m w = (Normal a, w') -> (m ≫= f) w = f a w'.
Proof. intros H. by rewrite run_bind, H. Qed.


Lemma run_lift_normal (c : Completion A) f w a :
  c = Normal a -> (lift c ≫= f) w = f a w.
Proof. by intros ->. Qed.

Lemma run_lift_throw (c : Completion A) f w e :
  c = Throw e -> (lift c ≫= f) w = (Throw e, w).
Proof. by intros ->. Qed.

Lemma preserves_bind (I : World -> Prop) m f :
  preserves I m -> (forall a, preserves I (f a)) -> preserves I (m ≫= f).
Proof.
  intros Hm Hf w HI. rewrite run_bind. specialize (Hm w HI).
  destruct (m w) as [[a|e] w']; [by apply Hf|done].
Qed.

Lemma preserves_try_catch (I : World -> Prop) m (h : JsError -> M A) :
  preserves I m -> (forall e, preserves I (h e)) -> preserves I (try_catch m h).
Proof.
  intros Hm Hh w HI. unfold try_catch. specialize (Hm w HI).
  destruct (m w) as [[a|e] w']; [done|by apply Hh].
Qed.

Lemma preserves_ret (I : World -> Prop) (a : A) : preserves I (mret a : M A).
Proof. by intros w. Qed.

Lemma preserves_throw (I : World -> Prop) e : preserves I (throw e : M A).
Proof. by intros w. Qed.

Lemma preserves_lift (I : World -> Prop) (c : Completion A) : preserves I (lift c).
Proof. by intros w. Qed.

End Steps.

Lemma load_at w r v : heap w !! r = Some v -> load r w = (Normal v, w).
Proof. intros H. unfold load. by rewrite H. Qed.

Lemma getProp_object props k :
  getProp (VObj props) k = Normal (default VUndef (lookup_prop k props)).
Proof. reflexivity. Qed.

(** A handler that only warns makes a block of statements complete. *)
Lemma try_catch_warn_completes (m : M unit) (msg : JsError -> string) w :
  exists w', try_catch m (fun error => console_warn (msg error) error) w = (Normal (), w').
Proof.
  unfold try_catch. destruct (m w) as [[[]|e] w']; eexists; reflexivity.
Qed.

(** Invariants about one property of one object of the heap. *)
Section PropertyInvariant.

Variables (rt : Runtime) (r : ref) (k : string) (x : option JsVal).

Lemma lookup_assign_prop_ne k' v props :
  k' ≠ k -> lookup_prop k (assign_prop k' v props) = lookup_prop k props.
Proof.
  intros Hne. induction props as [|[n y] props IH]; simpl.
  - by rewrite decide_False.
  - destruct (decide (n = k')) as [->|Hn]; simpl.
    + by rewrite !decide_False.
    + by rewrite IH.
Qed.

Lemma prop_is_heap w w' : heap w' = heap w -> prop_is r k x w -> prop_is r k x w'.
Proof. unfold prop_is. by intros ->. Qed.

Lemma preserves_emit ev : preserves (prop_is r k x) (emit ev).
Proof. intros w. by apply prop_is_heap. Qed.

Lemma preserves_fetch url : preserves (prop_is r k x) (fetch rt url).
Proof.
  intros w. unfold fetch.
  destruct (net rt (fetched w) url); by apply prop_is_heap.
Qed.

Lemma preserves_load r' : preserves (prop_is r k x) (load r').
Proof. by intros w. Qed.

Lemma preserves_assign k' v :
  k' ≠ k -> preserves (prop_is r k x) (assign r k' v).
Proof.
  intros Hne w (props & Hr & Hk). unfold assign, load, store, lift.
  rewrite !run_bind, Hr. simpl.
  exists (assign_prop k' v props). cbn [heap].
  split; [by rewrite lookup_insert_eq|]. by rewrite lookup_assign_prop_ne.
Qed.

Lemma preserves_assign_in k1 k2 v :
  k1 ≠ k -> preserves (prop_is r k x) (assign_in r k1 k2 v).
Proof.
  intros Hne w (props & Hr & Hk). unfold assign_in, load, store, lift.
  rewrite !run_bind, Hr. simpl.
  destruct (setProp _ k2 v) as [inner'|e]; simpl.
  - eexists. cbn [heap]. split; [by rewrite lookup_insert_eq|].
    by rewrite lookup_assign_prop_ne.
  - by exists props.
Qed.

End PropertyInvariant.

(** Invariants about the objects other than the one that is assigned to. *)
Section CellInvariant.

Variables (rt : Runtime) (r : ref) (v : JsVal).

Lemma cell_is_heap w w' : heap w' = heap w -> cell_is r v w -> cell_is r v w'.
Proof. unfold cell_is. by intros ->. Qed.

Lemma cell_emit ev : preserves (cell_is r v) (emit ev).
Proof. intros w. by apply cell_is_heap. Qed.

Lemma cell_fetch url : preserves (cell_is r v) (fetch rt url).
Proof.
  intros w. unfold fetch.
  destruct (net rt (fetched w) url); by apply cell_is_heap.
Qed.

Lemma cell_load r' : preserves (cell_is r v) (load r').
Proof. by intros w. Qed.

Lemma cell_assign r' k x :
  r' ≠ r -> preserves (cell_is r v) (assign r' k x).
Proof.
  intros Hne w Hr. unfold assign, mbind, M_bind, load, store, lift.
  destruct (setProp _ k x); [|done].
  unfold cell_is. cbn [heap snd]. by rewrite lookup_insert_ne.
Qed.

Lemma cell_assign_in r' k1 k2 x :
  r' ≠ r -> preserves (cell_is r v) (assign_in r' k1 k2 x).
Proof.
  intros Hne w Hr. unfold assign_in, mbind, M_bind, load, store, lift.
  destruct (getProp _ k1) as [inner|]; [|done].
  destruct (setProp inner k2 x) as [inner'|]; [|done].
  destruct (setProp _ k1 inner'); [|done].
  unfold cell_is. cbn [heap snd]. by rewrite lookup_insert_ne.
Qed.

End CellInvariant.

(** Splits a goal [preserves I m] along the structure of [m]. *)
Ltac preserve_step :=
  lazymatch goal with
  | |- preserves _ (_ ≫= _) => apply preserves_bind; [|intros ?]
  | |- preserves _ (try_catch _ _) => apply preserves_try_catch; [|intros ?]
  | |- preserves _ (if ?b then _ else _) => destruct b
  | |- preserves _ (mret _) => apply preserves_ret
  | |- preserves _ (lift _) => apply preserves_lift
  | |- preserves _ (throw _) => apply preserves_throw
  | |- preserves _ (json _) => apply preserves_lift
  | |- preserves _ (fetch _ _) => first [apply preserves_fetch | apply cell_fetch]
  | |- preserves _ (load _) => first [apply preserves_load | apply cell_load]
  | |- preserves _ (console_warn _ _) => first [apply preserves_emit | apply cell_emit]
  | |- preserves _ (assign _ _ _) =>
      first [apply preserves_assign; congruence | apply cell_assign; congruence]
  | |- preserves _ (assign_in _ _ _ _) =>
      first [apply preserves_assign_in; congruence | apply cell_assign_in; congruence]
  | |- preserves _ (enrich_from_edition _ _ _) => unfold enrich_from_edition
  | |- preserves _ (author_enrichment _ _) => unfold author_enrichment
  | |- preserves _ (edition_cover _ _ _) => unfold edition_cover
  | |- preserves _ (edition_links _ _) => unfold edition_links
  | |- preserves _ (enrich_from_author _ _ _) => unfold enrich_from_author
  end.

(** ** [getBookDetails] *)

Section BookDetails.

Variable rt : Runtime.
Implicit Types (workId : string) (w : World).

(** The edition step leaves every property but [cover_i] and
    [external_links] as it was. *)
Lemma enrich_from_edition_preserves workId data k x :
  k ≠ "cover_i" -> k ≠ "external_links" ->
  preserves (prop_is data k x) (enrich_from_edition rt workId data).
Proof.
  intros Hc Hl. unfold enrich_from_edition.
  repeat preserve_step.
Qed.

(** The author step leaves every property but [author_name] and
    [author_details] as it was. *)
Lemma enrich_from_author_preserves authorKey data k x :
  k ≠ "author_name" -> k ≠ "author_details" ->
  preserves (prop_is data k x) (enrich_from_author rt authorKey data).
Proof.
  intros Hn Hd. unfold enrich_from_author.
  repeat preserve_step.
Qed.

(** The world in which the enrichment starts: the primary request has been
    issued and the record it returned is a new object. *)
Lemma getBookDetails_primary workId w r parsed :
  net rt (fetched w) (workUrl rt workId) = Resolved r ->
  ok r = true ->
  body r = Normal parsed ->
  getBookDetails rt workId w =
  (data ← alloc parsed;
   try_catch (enrich_from_edition rt workId data)
     (fun error =>
        console_warn ("Could not fetch edition details for " +:+ workId +:+ ":") error);;
   author_enrichment rt data;;
   load data) (issued (workUrl rt workId) w).
Proof.
  intros Hnet Hok Hbody. unfold getBookDetails.
  rewrite run_bind. unfold fetch. fold (workUrl rt workId). rewrite Hnet, Hok. cbn [negb].
  rewrite run_bind. unfold json, lift. rewrite Hbody. reflexivity.
Qed.

(** C3. When the primary request gets the status 404, [getBookDetails]
    throws a [BookNotFoundError] made from the identifier, whose message
    quotes it; the class extends [FetchError], so the error is also an
    instance of [FetchError].  For any other status outside 200-299 it throws
    a [FetchError] proper, which is no [BookNotFoundError].  In both cases the session storage is as before
    and the call has made no write to it. *)
Theorem details_primary_failure workId w r :
  net rt (fetched w) (workUrl rt workId) = Resolved r ->
  (status r = 404 ->
     (getBookDetails rt workId w).1 = Throw (new_BookNotFoundError workId))
  /\ (ok r = false -> status r ≠ 404 ->
      (getBookDetails rt workId w).1
      = Throw (new_FetchError "Failed to fetch book details from Open Library."))
  /\ (ok r = false ->
      sessionStorage (getBookDetails rt workId w).2 = sessionStorage w
      /\ Forall (fun ev => ~ is_SetItem ev) (new_events (getBookDetails rt workId) w))
  /\ (forall message,
        err_class (new_FetchError message) = FetchError
        /\ instanceof (new_FetchError message) BookNotFoundError = false)
  /\ err_class (new_BookNotFoundError workId) = BookNotFoundError
  /\ extends BookNotFoundError = Some FetchError
  /\ instanceof (new_BookNotFoundError workId) FetchError = true
  /\ err_message (new_BookNotFoundError workId)
     = "Book with ID " +:+ dquote +:+ workId +:+ dquote +:+ " not found.".
Proof.
  intros Hnet.
  assert (Hrun : ok r = false ->
            getBookDetails rt workId w =
            (Throw (if bool_decide (status r = 404)
                    then new_BookNotFoundError workId
                    else new_FetchError "Failed to fetch book details from Open Library."),
             issued (workUrl rt workId) w)).
  { intros Hok. unfold getBookDetails. rewrite run_bind. unfold fetch.
    fold (workUrl rt workId). rewrite Hnet, Hok. cbn [negb].
    by destruct (bool_decide (status r = 404)). }
  split; [|split; [|split; [|split]]].
  - intros H404. rewrite Hrun by (unfold ok; rewrite H404; reflexivity).
    by rewrite bool_decide_eq_true_2.
  - intros Hok Hne. by rewrite (Hrun Hok), bool_decide_eq_false_2.
  - intros Hok. split; [by rewrite (Hrun Hok)|].
    erewrite new_events_app; [|by rewrite (Hrun Hok)].
    repeat constructor. by intros [].
  - done.
  - done.
Qed.

(** C2 (the code departs from it). When the record of the primary request
    has an empty list of authors, the test [data.authors[0].author] that
    precedes the author step reads a property of [undefined]: the call throws
    a [TypeError], whatever the edition request does, although the primary
    request has succeeded. *)
Theorem details_empty_authors_throws workId w r props :
  net rt (fetched w) (workUrl rt workId) = Resolved r ->
  ok r = true ->
  body r = Normal (VObj props) ->
  lookup_prop "authors" props = Some (VArr [] []) ->
  exists e, (getBookDetails rt workId w).1 = Throw e /\ err_class e = TypeError.
Proof.
  intros Hnet Hok Hbody Hauthors.
  rewrite (getBookDetails_primary workId w r _ Hnet Hok Hbody).
  rewrite run_bind. unfold alloc at 1.
  set (w1 := mkWorld _ _ _ _ _). set (data := fresh _).
  assert (H1 : prop_is data "authors" (Some (VArr [] [])) w1).
  { exists props. split; [apply lookup_insert_eq|done]. }
  rewrite run_bind.
  destruct (try_catch_warn_completes (enrich_from_edition rt workId data)
              (fun _ => "Could not fetch edition details for " +:+ workId +:+ ":") w1)
    as [w2 Hw2].
  assert (H2 : prop_is data "authors" (Some (VArr [] [])) w2).
  { change w2 with (Normal (), w2).2. rewrite <- Hw2.
    apply preserves_try_catch; [|intros ?; apply preserves_emit|done].
    by apply enrich_from_edition_preserves. }
  rewrite Hw2. destruct H2 as (props2 & Hdata & Hprop).
  rewrite run_bind. unfold author_enrichment.
  rewrite (run_bind_normal _ _ _ _ _ (load_at _ _ _ Hdata)).
  rewrite run_bind. unfold lift at 1. rewrite getProp_object, Hprop.
  eexists. split; reflexivity.
Qed.

(** The author block leaves every property but [author_name] and
    [author_details] as it was. *)
Lemma author_enrichment_preserves data k x :
  k ≠ "author_name" -> k ≠ "author_details" ->
  preserves (prop_is data k x) (author_enrichment rt data).
Proof.
  intros Hn Hd. unfold author_enrichment.
  repeat preserve_step.
Qed.

End BookDetails.

(** ** The external links *)

Section ExternalLinks.

Variable rt : Runtime.
Implicit Types (workId : string) (w : World) (data : ref).

Lemma truthy_getProp c k : truthy c = true -> exists v, getProp c k = Normal v.
Proof. destruct c; try discriminate; intros _; eexists; reflexivity. Qed.

Lemma truthy_getIndex c i : truthy c = true -> exists v, getIndex c i = Normal v.
Proof. destruct c; try discriminate; intros _; eexists; reflexivity. Qed.


Lemma lookup_assign_prop_eq k v props :
  lookup_prop k (assign_prop k v props) = Some v.
Proof.
  induction props as [|[n y] props IH]; simpl.
  - by rewrite decide_True.
  - destruct (decide (n = k)) as [->|Hn]; simpl.
    + by rewrite decide_True.
    + by rewrite decide_False.
Qed.


Lemma assign_object data k v props w :
  heap w !! data = Some (VObj props) ->
  exists w', assign data k v w = (Normal (), w')
             /\ heap w' !! data = Some (VObj (assign_prop k v props)).
Proof.
  intros Hd. unfold assign.
  rewrite (run_bind_normal _ _ _ _ _ (load_at _ _ _ Hd)).
  eexists. split; [reflexivity|]. apply lookup_insert_eq.
Qed.







(** A property that the author block does not assign is, in the record
    returned, as the edition block left it. *)
Lemma returned_property data k x result w w' :
  k ≠ "author_name" -> k ≠ "author_details" ->
  prop_is data k x w ->
  (author_enrichment rt data;; load data) w = (Normal result, w') ->
  getProp result k = Normal (default VUndef x).
Proof.
  intros Hn Hd Hk. rewrite run_bind.
  pose proof (author_enrichment_preserves rt data k x Hn Hd w Hk) as Hk'.
  destruct (author_enrichment rt data w) as [[[]|e] w1]; [|discriminate].
  destruct Hk' as (props & Hdata & Hprop). simpl in Hdata.
  rewrite (load_at _ _ _ Hdata). intros [= <- <-].
  by rewrite getProp_object, Hprop.
Qed.





(** The author block completes when the key of the author has a string
    form, and throws when it has none. *)
Lemma author_block_ends authorKey data w :
  let block :=
    try_catch (enrich_from_author rt authorKey data)
      (fun error =>
         key ← lift (ToString authorKey);
         console_warn ("Could not fetch author details for " +:+ key +:+ ":") error) in
  if stringable authorKey
  then exists w', block w = (Normal (), w')
  else exists e, block w = (Throw e, w) /\ err_class e = TypeError.
Proof.
  cbv zeta. unfold try_catch, enrich_from_author, ToString.
  destruct (stringable authorKey).
  - rewrite (run_lift_normal _ _ _ (string_of authorKey)) by done.
    match goal with
    | |- context [match ?m with _ => _ end] => destruct m as [[[]|e] w1]
    end.
    + by eexists.
    + rewrite (run_lift_normal _ _ _ (string_of authorKey)) by done. by eexists.
  - rewrite (run_lift_throw _ _ _ (type_error "Cannot convert object to primitive value"))
      by done.
    rewrite (run_lift_throw _ _ _ (type_error "Cannot convert object to primitive value"))
      by done.
    by eexists.
Qed.

(** The enrichment is absorbed when the record has no list of authors, or a
    list whose first entry is an object whose author, if any, has a key with
    a string form: the call returns. *)
Lemma details_enrichment_absorbed workId w r props :
  net rt (fetched w) (workUrl rt workId) = Resolved r ->
  ok r = true ->
  body r = Normal (VObj props) ->
  lookup_prop "authors" props = None
  \/ (exists first more own,
        lookup_prop "authors" props = Some (VArr (VObj first :: more) own)
        /\ forall key,
             getProp (default VUndef (lookup_prop "author" first)) "key" = Normal key ->
             stringable key = true) ->
  exists result w', getBookDetails rt workId w = (Normal result, w').
Proof.
  intros Hnet Hok Hbody Hauthors.
  rewrite (getBookDetails_primary rt workId w r _ Hnet Hok Hbody).
  rewrite run_bind. unfold alloc at 1.
  set (w1 := mkWorld _ _ _ _ _). set (data := fresh _).
  assert (H1 : prop_is data "authors" (lookup_prop "authors" props) w1).
  { exists props. split; [apply lookup_insert_eq|done]. }
  rewrite run_bind.
  destruct (try_catch_warn_completes (enrich_from_edition rt workId data)
              (fun _ => "Could not fetch edition details for " +:+ workId +:+ ":") w1)
    as [w2 Hw2].
  assert (H2 : prop_is data "authors" (lookup_prop "authors" props) w2).
  { change w2 with (Normal (), w2).2. rewrite <- Hw2.
    apply preserves_try_catch; [|intros ?; apply preserves_emit|done].
    by apply enrich_from_edition_preserves. }
  rewrite Hw2. destruct H2 as (props2 & Hdata & Hprop).
  assert (Hauthor : exists w3, author_enrichment rt data w2 = (Normal (), w3)).
  { unfold author_enrichment.
    rewrite (run_bind_normal _ _ _ _ _ (load_at _ _ _ Hdata)).
    rewrite (run_lift_normal _ _ _ _ (getProp_object _ _)). rewrite Hprop.
    destruct Hauthors as [-> | (first & more & own & -> & Hkey)].
    - by exists w2.
    - cbn [default id from_option truthy].
      rewrite run_bind.
      rewrite (run_lift_normal _ _ _ (VObj first)) by done.
      rewrite (run_lift_normal _ _ _ _ (getProp_object _ _)).
      cbn [mret M_ret].
      destruct (truthy (default VUndef (lookup_prop "author" first))) eqn:Hauthor;
        [|by exists w2].
      rewrite (run_lift_normal _ _ _ (VObj first)) by done.
      rewrite (run_lift_normal _ _ _ _ (getProp_object _ _)).
      destruct (truthy_getProp _ "key" Hauthor) as [authorKey HauthorKey].
      rewrite (run_lift_normal _ _ _ _ HauthorKey).
      pose proof (author_block_ends authorKey data w2) as Hends. cbv zeta in Hends.
      by rewrite (Hkey authorKey HauthorKey) in Hends. }
  destruct Hauthor as [w3 Hauthor].
  rewrite (run_bind_normal _ _ _ _ _ Hauthor).
  eexists _, _. reflexivity.
Qed.

End ExternalLinks.

(** ** The loop of the category fetchers *)

Section CategoryLoop.

Variable rt : Runtime.
Implicit Types (limit : Z) (subject : JsVal) (subjects : list JsVal) (w : World).

(** The [try] block of a round, for a subject that has a string form: the
    browse call, then what [attempt] makes of its result. *)
Lemma subject_books_run limit subject w :
  stringable subject = true ->
  subject_books rt limit subject w =
  (match attempt rt limit subject w with
   | Threw e => Throw e
   | Empty => Normal None
   | NonEmpty books => Normal (Some books)
   end,
   (browseBooks rt (subject_options limit subject) w).2).
Proof.
  intros Hs. unfold subject_books, attempt, ToString. rewrite Hs.
  rewrite (run_lift_normal _ _ _ (string_of subject)) by done.
  fold (subject_options limit subject). rewrite run_bind.
  destruct (browseBooks rt (subject_options limit subject) w) as [[result|e] w1];
    cbn [fst snd]; [|done].
  rewrite run_bind. unfold lift at 1.
  destruct (getProp result "books") as [books|e]; [|done].
  rewrite run_bind.
  destruct (truthy books); [|done].
  rewrite run_bind. unfold lift at 1.
  destruct (getProp books "length") as [len|e]; [|done].
  cbn [mbind Completion_bind]. unfold lift.
  by destruct (gt0 rt len) as [[]|e].
Qed.

(** A round ends with a non-empty result exactly when its browse call
    returns a value whose [books] is truthy and has a length above 0. *)
Lemma attempt_non_empty limit subject w books :
  attempt rt limit subject w = NonEmpty books <->
  exists result len,
    (browseBooks rt (subject_options limit subject) w).1 = Normal result
    /\ getProp result "books" = Normal books
    /\ truthy books = true
    /\ getProp books "length" = Normal len
    /\ gt0 rt len = Normal true.
Proof.
  unfold attempt.
  destruct (browseBooks rt (subject_options limit subject) w) as [[result|e] w1];
    cbn [fst]; [|by split; [|intros (? & ? & [=] & _)]].
  destruct (getProp result "books") as [books'|e] eqn:Hbooks.
  2: { split; [done|]. intros (? & ? & [= <-] & ? & _). congruence. }
  destruct (truthy books') eqn:Htruthy.
  2: { split; [done|]. intros (? & ? & [= <-] & ? & ? & _). congruence. }
  destruct (getProp books' "length") as [len|e] eqn:Hlen; cbn [mbind Completion_bind].
  2: { split; [done|]. intros (? & ? & [= <-] & ? & _ & ? & _). congruence. }
  destruct (gt0 rt len) as [[]|e] eqn:Hgt.
  - split.
    + intros [= <-]. by exists result, len.
    + intros (? & ? & [= <-] & ? & _). congruence.
  - split; [done|].
    intros (? & ? & [= <-] & ? & _ & ? & ?). congruence.
  - split; [done|].
    intros (? & ? & [= <-] & ? & _ & ? & ?). congruence.
Qed.

Lemma filter_browse_events url key evs :
  Forall (fun ev => match ev with Fetch _ => False | _ => True end) evs ->
  Forall (browse_event url key) evs ->
  List.filter fetch_or_sleep evs = [].
Proof.
  induction 1 as [|ev evs Hev _ IH]; [done|].
  intros Hb. apply Forall_cons in Hb as [Hb1 Hb2].
  destruct ev; simpl in *; try done; by apply IH.
Qed.

(** One round: its result, the world and the events it adds, and what it
    leaves alone. *)
Lemma try_subject_run warning limit subject w :
  stringable subject = true ->
  let a := attempt rt limit subject w in
  let w' := (try_subject rt warning limit subject w).2 in
  (try_subject rt warning limit subject w).1
  = Normal (match a with NonEmpty books => Some books | _ => None end)
  /\ w' = after_round rt warning limit subject w
  /\ (exists evs,
        trace w' = trace w ++ evs
        /\ List.filter fetch_or_sleep evs = round_events rt limit (subject, a))
  /\ heap w' = heap w.
Proof.
  intros Hs. cbv zeta. unfold try_subject, try_catch, after_round.
  rewrite (subject_books_run limit subject w Hs).
  destruct (browseBooks_run rt (subject_options limit subject) w)
    as ((evs & Htrace & Hnofetch & Hevs) & _ & Hheap & _).
  pose proof (filter_browse_events _ _ _ Hnofetch Hevs) as Hfilter.
  destruct (attempt rt limit subject w) as [e| |books]; cbn [fst snd].
  - unfold ToString. rewrite Hs.
    rewrite (run_lift_normal _ _ _ (string_of subject)) by done.
    split; [done|]. split; [done|]. split; [|done].
    exists (Fetch (requestUrl rt (subject_options limit subject)) :: evs
            ++ [ConsoleWarn (warning +:+ string_of subject) e; Sleep 250]).
    split.
    + simpl. rewrite Htrace. by rewrite <- !app_assoc.
    + unfold round_events. simpl. rewrite List.filter_app, Hfilter. done.
  - split; [done|]. split; [done|]. split; [|done].
    eexists. split; [exact Htrace|]. unfold round_events. simpl. by rewrite Hfilter.
  - split; [done|]. split; [done|]. split; [|done].
    eexists. split; [exact Htrace|]. unfold round_events. simpl. by rewrite Hfilter.
Qed.

Lemma rounds_cons warning limit subject subjects w :
  rounds rt warning limit (subject :: subjects) w =
  (subject, attempt rt limit subject w) ::
  (if is_hit (attempt rt limit subject w) then []
   else rounds rt warning limit subjects (after_round rt warning limit subject w)).
Proof. simpl. by destruct (attempt rt limit subject w). Qed.

(** The loop: its result, the requests and delays it adds, in terms of the
    rounds. *)
Lemma for_each_subject_run warning limit subjects w :
  Forall (fun subject => stringable subject = true) subjects ->
  let rs := rounds rt warning limit subjects w in
  let w' := (for_each_subject rt warning limit subjects w).2 in
  (for_each_subject rt warning limit subjects w).1
  = Normal (match last rs with Some (_, NonEmpty books) => Some books | _ => None end)
  /\ (exists evs,
        trace w' = trace w ++ evs
        /\ List.filter fetch_or_sleep evs = flat_map (round_events rt limit) rs)
  /\ heap w' = heap w.
Proof.
  intros Hall. revert w. induction Hall as [|subject subjects Hs _ IH]; intros w.
  - simpl. split; [done|]. split; [|done]. exists []. by rewrite app_nil_r.
  - cbn zeta. rewrite rounds_cons.
    destruct (try_subject_run warning limit subject w Hs)
      as (Hres & Hafter & (evs & Htr & Hevs) & Hheap).
    rewrite <- Hafter.
    cbn [for_each_subject]. rewrite run_bind.
    destruct (try_subject rt warning limit subject w) as [c w1].
    cbn [fst snd] in *. subst c.
    destruct (attempt rt limit subject w) as [e| |books]; cbn [is_hit].
    + destruct (IH w1) as (IHres & (evs' & Htr' & Hevs') & IHheap).
      split; [|split].
      * rewrite IHres. rewrite last_cons.
        by destruct (last (rounds rt warning limit subjects w1)) as [[? []]|].
      * exists (evs ++ evs'). split; [by rewrite Htr', Htr, app_assoc|].
        rewrite List.filter_app, Hevs, Hevs'. done.
      * by rewrite IHheap.
    + destruct (IH w1) as (IHres & (evs' & Htr' & Hevs') & IHheap).
      split; [|split].
      * rewrite IHres. rewrite last_cons.
        by destruct (last (rounds rt warning limit subjects w1)) as [[? []]|].
      * exists (evs ++ evs'). split; [by rewrite Htr', Htr, app_assoc|].
        rewrite List.filter_app, Hevs, Hevs'. done.
      * by rewrite IHheap.
    + split; [done|]. split; [|done].
      exists evs. split; [done|]. cbn [flat_map]. by rewrite app_nil_r.
Qed.

(** The rounds go through the subjects in order and stop early only on a
    non-empty result, which can only be the last round. *)
Lemma rounds_prefix warning limit subjects w :
  exists skipped,
    subjects = map fst (rounds rt warning limit subjects w) ++ skipped
    /\ (skipped ≠ [] ->
        exists subject books,
          last (rounds rt warning limit subjects w) = Some (subject, NonEmpty books)).
Proof.
  revert w. induction subjects as [|subject subjects IH]; intros w.
  - by exists [].
  - rewrite rounds_cons.
    destruct (attempt rt limit subject w) as [e| |books] eqn:Ha; cbn [is_hit].
    + destruct (IH (after_round rt warning limit subject w)) as (skipped & Heq & Hlast).
      exists skipped. split; [simpl; by f_equal|].
      intros Hne. destruct (Hlast Hne) as (s & b & Hl).
      exists s, b. by rewrite last_cons, Hl.
    + destruct (IH (after_round rt warning limit subject w)) as (skipped & Heq & Hlast).
      exists skipped. split; [simpl; by f_equal|].
      intros Hne. destruct (Hlast Hne) as (s & b & Hl).
      exists s, b. by rewrite last_cons, Hl.
    + exists subjects. split; [done|]. intros _. by exists subject, books.
Qed.

Lemma rounds_hit_is_last warning limit subjects w i subject books :
  rounds rt warning limit subjects w !! i = Some (subject, NonEmpty books) ->
  S i = List.length (rounds rt warning limit subjects w).
Proof.
  revert w i. induction subjects as [|s subjects IH]; intros w i; [done|].
  rewrite rounds_cons.
  destruct (attempt rt limit s w) as [e| |b] eqn:Ha; cbn [is_hit].
  - destruct i as [|i]; [done|]. simpl. intros H. f_equal. by apply IH.
  - destruct i as [|i]; [done|]. simpl. intros H. f_equal. by apply IH.
  - destruct i as [|i]; [done|]. done.
Qed.

End CategoryLoop.

(** ** The shuffle of [getRandomBooks] *)

Section Shuffle.

Variable rt : Runtime.
Implicit Types (w : World) (ps : list (JsVal * Z)).

Lemma same_outside_refl w : same_outside w w.
Proof. done. Qed.

Lemma same_outside_trans w1 w2 w3 :
  same_outside w1 w2 -> same_outside w2 w3 -> same_outside w1 w3.
Proof. unfold same_outside. intros (-> & -> & ->) (-> & -> & ->). done. Qed.

Lemma heap_extends_refl w : heap_extends w w.
Proof. by intros r v. Qed.

Lemma heap_extends_trans w1 w2 w3 :
  heap_extends w1 w2 -> heap_extends w2 w3 -> heap_extends w1 w3.
Proof. intros H1 H2 r v Hr. by apply H2, H1. Qed.

Lemma fresh_ne w r v : heap w !! r = Some v -> fresh (dom (heap w)) ≠ r.
Proof.
  intros Hr Heq. apply (is_fresh (dom (heap w))).
  rewrite Heq. apply elem_of_dom. by exists v.
Qed.

(** A new object does not take the place of an old one. *)
Lemma alloc_spec v w :
  exists r w',
    alloc v w = (Normal r, w')
    /\ heap w !! r = None
    /\ heap w' = <[r := v]> (heap w)
    /\ same_outside w w'.
Proof.
  eexists _, _. split; [reflexivity|]. split; [|done].
  apply not_elem_of_dom, is_fresh.
Qed.

Lemma alloc_extends v w r w' :
  heap w !! r = None -> heap w' = <[r := v]> (heap w) -> heap_extends w w'.
Proof.
  intros Hnone Hheap r' v' Hr'. rewrite Hheap.
  rewrite lookup_insert_ne; [done|]. intros <-. congruence.
Qed.

(** The first [map]: one random draw per subject, in order. *)
Lemma Array_map_keys elems w :
  exists ps w',
    Array_map
      (fun value => sort ← random rt; mret (VObj [("value", value); ("sort", sort)]))
      elems w = (Normal (map keyed ps), w')
    /\ map fst ps = elems
    /\ heap w' = heap w
    /\ same_outside w w'.
Proof.
  revert w. induction elems as [|x elems IH]; intros w.
  - by exists [], w.
  - cbn [Array_map]. rewrite run_bind.
    set (w1 := mkWorld (sessionStorage w) (heap w) (fetched w) (S (drawn w)) (trace w)).
    change ((sort ← random rt; mret (VObj [("value", x); ("sort", sort)])) w)
      with (@Normal JsVal (keyed (x, Math_random rt (drawn w))), w1).
    destruct (IH w1) as (ps & w' & Hrun & Hfst & Hheap & Hout).
    rewrite (run_bind_normal _ _ _ _ _ Hrun).
    exists ((x, Math_random rt (drawn w)) :: ps), w'.
    split; [done|]. split; [simpl; by f_equal|]. done.
Qed.

(** The comparison function on two of these objects. *)
Lemma by_sort_key_keyed p q :
  by_sort_key rt (keyed p) (keyed q) = Normal (Some (p.2 - q.2)).
Proof. reflexivity. Qed.

Lemma insert_sorted_keyed p ps :
  exists ps',
    insert_sorted (by_sort_key rt) (keyed p) (map keyed ps) = Normal (map keyed ps')
    /\ ps' ≡ₚ p :: ps.
Proof.
  induction ps as [|q ps IH].
  - by exists [p].
  - cbn [map insert_sorted]. rewrite by_sort_key_keyed.
    cbn [mbind Completion_bind default id from_option].
    destruct (p.2 - q.2 <=? 0).
    + by exists (p :: q :: ps).
    + destruct IH as (ps' & -> & Hperm).
      exists (q :: ps'). split; [done|].
      rewrite Hperm. apply Permutation_swap.
Qed.

Lemma sort_elems_keyed ps :
  exists ps',
    sort_elems (by_sort_key rt) (map keyed ps) = Normal (map keyed ps')
    /\ ps' ≡ₚ ps.
Proof.
  induction ps as [|p ps IH].
  - by exists [].
  - cbn [map sort_elems]. destruct IH as (ps1 & -> & Hperm1).
    cbn [mbind Completion_bind].
    destruct (insert_sorted_keyed p ps1) as (ps' & -> & Hperm).
    exists ps'. split; [done|]. by rewrite Hperm, Hperm1.
Qed.

Lemma Array_sort_keyed ps :
  exists ps',
    Array_sort (by_sort_key rt) (map keyed ps) = Normal (map keyed ps')
    /\ ps' ≡ₚ ps.
Proof.
  unfold Array_sort.
  assert (Hdef : filter (fun v => is_undefined v = false) (map keyed ps) = map keyed ps).
  { induction ps as [|p ps IH]; [done|].
    cbn [map]. rewrite filter_cons_True by done. by rewrite IH. }
  assert (Hundef : filter (fun v => is_undefined v = true) (map keyed ps) = []).
  { clear Hdef. induction ps as [|p ps IH]; [done|].
    cbn [map]. rewrite filter_cons_False; [exact IH|]. simpl. discriminate. }
  rewrite Hdef, Hundef.
  destruct (sort_elems_keyed ps) as (ps' & -> & Hperm).
  exists ps'. cbn [mbind Completion_bind mret Completion_ret].
  by rewrite app_nil_r.
Qed.

(** The second [map]: the subjects, without their keys. *)
Lemma Array_map_values ps w :
  Array_map (fun o => lift (getProp o "value")) (map keyed ps) w
  = (Normal (map fst ps), w).
Proof.
  induction ps as [|p ps IH]; [done|].
  cbn [map Array_map].
  rewrite (run_lift_normal _ _ _ p.1) by done.
  by rewrite (run_bind_normal _ _ _ _ _ IH).
Qed.

Lemma spread_spec a elems own w :
  heap w !! a = Some (VArr elems own) ->
  exists c w',
    spread a w = (Normal c, w')
    /\ heap w !! c = None
    /\ heap w' = <[c := VArr elems []]> (heap w)
    /\ same_outside w w'.
Proof.
  intros Ha. unfold spread.
  rewrite (run_bind_normal _ _ _ _ _ (load_at _ _ _ Ha)).
  rewrite (run_lift_normal _ _ _ elems) by done.
  apply alloc_spec.
Qed.

Lemma call_map_spec a f elems own mapped w w1 :
  heap w !! a = Some (VArr elems own) ->
  Array_map f elems w = (Normal mapped, w1) ->
  exists c w',
    call_map a f w = (Normal c, w')
    /\ heap w1 !! c = None
    /\ heap w' = <[c := VArr mapped []]> (heap w1)
    /\ same_outside w1 w'.
Proof.
  intros Ha Hmap. unfold call_map.
  rewrite (run_bind_normal _ _ _ _ _ (load_at _ _ _ Ha)).
  rewrite (run_lift_normal _ _ _ elems) by done.
  rewrite (run_bind_normal _ _ _ _ _ Hmap).
  apply alloc_spec.
Qed.

Lemma call_sort_spec a comparefn elems own sorted w :
  heap w !! a = Some (VArr elems own) ->
  Array_sort comparefn elems = Normal sorted ->
  call_sort a comparefn w =
  (Normal a,
   mkWorld (sessionStorage w) (<[a := VArr sorted own]> (heap w)) (fetched w) (drawn w)
           (trace w)).
Proof.
  intros Ha Hsort. unfold call_sort.
  rewrite (run_bind_normal _ _ _ _ _ (load_at _ _ _ Ha)).
  rewrite (run_lift_normal _ _ _ _ Hsort).
  reflexivity.
Qed.

(** The shuffle builds a new array, a permutation of the array of the
    module, which it leaves as it is, like every other object; it makes no
    request and touches neither the storage nor the trace. *)
Lemma subjectsToTry_run subjects own w :
  heap w !! POPULAR_RANDOM_SUBJECTS = Some (VArr subjects own) ->
  exists a shuffled w',
    subjectsToTry rt w = (Normal a, w')
    /\ heap w' !! a = Some (VArr shuffled [])
    /\ shuffled ≡ₚ subjects
    /\ heap_extends w w'
    /\ same_outside w w'.
Proof.
  intros Hpop. unfold subjectsToTry.
  (* [...POPULAR_RANDOM_SUBJECTS] *)
  destruct (spread_spec _ _ _ _ Hpop) as (copy & w1 & Hrun1 & Hnew1 & Hheap1 & Hout1).
  rewrite (run_bind_normal _ _ _ _ _ Hrun1).
  assert (Hcopy : heap w1 !! copy = Some (VArr subjects []))
    by (rewrite Hheap1; apply lookup_insert_eq).
  pose proof (alloc_extends _ _ _ _ Hnew1 Hheap1) as Hext1.
  (* .map(value => ({ value, sort: Math.random() })) *)
  destruct (Array_map_keys subjects w1) as (ps & w2 & Hrun2 & Hfst & Hheap2 & Hout2).
  destruct (call_map_spec _ _ _ _ _ _ _ Hcopy Hrun2)
    as (keyed_ref & w3 & Hrun3 & Hnew3 & Hheap3 & Hout3).
  rewrite (run_bind_normal _ _ _ _ _ Hrun3).
  assert (Hkeyed : heap w3 !! keyed_ref = Some (VArr (map keyed ps) []))
    by (rewrite Hheap3; apply lookup_insert_eq).
  assert (Hext3 : heap_extends w1 w3).
  { intros r v Hr. apply (alloc_extends _ _ _ _ Hnew3 Hheap3). by rewrite Hheap2. }
  (* .sort((a, b) => a.sort - b.sort) *)
  destruct (Array_sort_keyed ps) as (ps' & Hsort & Hperm).
  rewrite (run_bind_normal _ _ _ _ _ (call_sort_spec _ _ _ _ _ _ Hkeyed Hsort)).
  set (w4 := mkWorld _ _ _ _ _).
  assert (Hsorted : heap w4 !! keyed_ref = Some (VArr (map keyed ps') []))
    by apply lookup_insert_eq.
  assert (Hext4 : heap_extends w w4).
  { intros r v Hr. unfold w4. cbn [heap].
    rewrite lookup_insert_ne; [by apply Hext3, Hext1|].
    intros <-. apply Hext1 in Hr. rewrite Hheap2 in Hnew3. congruence. }
  (* .map(({ value }) => value) *)
  destruct (call_map_spec _ _ _ _ _ _ _ Hsorted (Array_map_values ps' w4))
    as (a & w5 & Hrun5 & Hnew5 & Hheap5 & Hout5).
  exists a, (map fst ps'), w5. split; [exact Hrun5|].
  split; [rewrite Hheap5; apply lookup_insert_eq|].
  split; [by rewrite Hperm, Hfst|].
  split.
  - eapply heap_extends_trans; [exact Hext4|]. by eapply alloc_extends.
  - eapply same_outside_trans; [|exact Hout5].
    eapply same_outside_trans; [exact Hout1|].
    eapply same_outside_trans; [exact Hout2|].
    destruct Hout3 as (? & ? & ?). done.
Qed.

End Shuffle.

(** ** The category fetchers *)

Section CategoryFetchers.

Variable rt : Runtime.
Implicit Types (limit : option Z) (w : World).

(** The subjects of the three lists are strings. *)
Lemma fallbacks_stringable :
  Forall (fun subject => stringable subject = true) TRENDING_FALLBACKS_init
  /\ Forall (fun subject => stringable subject = true) TOP_RATED_FALLBACKS_init
  /\ Forall (fun subject => stringable subject = true) POPULAR_RANDOM_SUBJECTS_init.
Proof. repeat split; by repeat constructor. Qed.

(** No round changes an object, whatever the subject is. *)
Lemma try_subject_heap warning (limit : Z) subject w :
  heap (try_subject rt warning limit subject w).2 = heap w.
Proof.
  unfold try_subject, try_catch, subject_books.
  assert (Hhandler : forall e w0,
             heap ((text ← lift (ToString subject);
                    console_warn (warning +:+ text) e;; sleep 250;; mret None)
                     w0 : Completion (option JsVal) * World).2 = heap w0).
  { intros e w0. rewrite run_bind. unfold lift at 1.
    by destruct (ToString subject). }
  rewrite run_bind. unfold lift at 1.
  destruct (ToString subject) as [genre|e]; [|by rewrite Hhandler].
  rewrite run_bind.
  destruct (browseBooks_run rt
              (mkOptions None (Some [genre]) None (Some "relevance") (Some limit) None) w)
    as (_ & _ & Hheap & _).
  destruct (browseBooks rt _ w) as [[result|e] w1]; cbn [snd] in Hheap;
    [|by rewrite Hhandler].
  rewrite run_bind. unfold lift at 1.
  destruct (getProp result "books") as [books|e]; [|by rewrite Hhandler].
  rewrite run_bind.
  destruct (truthy books).
  - rewrite run_bind. unfold lift at 1.
    destruct (getProp books "length") as [len|e]; [|by rewrite Hhandler].
    unfold lift. destruct (gt0 rt len) as [[]|e]; [done..|by rewrite Hhandler].
  - done.
Qed.

Lemma first_non_empty_heap warning failure (limit : Z) subjects w :
  heap (first_non_empty rt warning failure limit subjects w).2 = heap w.
Proof.
  unfold first_non_empty. rewrite run_bind.
  assert (Hloop : heap (for_each_subject rt warning limit subjects w).2 = heap w).
  { revert w. induction subjects as [|subject subjects IH]; intros w; [done|].
    cbn [for_each_subject]. rewrite run_bind.
    pose proof (try_subject_heap warning limit subject w) as Hround.
    destruct (try_subject rt warning limit subject w) as [[[books|]|e] w1];
      cbn [snd] in *; [done| |done].
    by rewrite IH. }
  destruct (for_each_subject rt warning limit subjects w) as [[[books|]|e] w1];
    cbn [snd] in *; done.
Qed.

Lemma first_non_empty_run warning failure (limit : Z) subjects w :
  Forall (fun subject => stringable subject = true) subjects ->
  let rs := rounds rt warning limit subjects w in
  let w' := (first_non_empty rt warning failure limit subjects w).2 in
  (first_non_empty rt warning failure limit subjects w).1 = Normal (rounds_result rs)
  /\ (exists evs,
        trace w' = trace w ++ evs
        /\ List.filter fetch_or_sleep evs = flat_map (round_events rt limit) rs)
  /\ heap w' = heap w.
Proof.
  intros Hall.
  cbn zeta. unfold first_non_empty, rounds_result. rewrite run_bind.
  destruct (for_each_subject_run rt warning limit subjects w Hall)
    as (Hres & (evs & Htr & Hevs) & Hheap).
  destruct (for_each_subject rt warning limit subjects w) as [c w1].
  cbn [fst snd] in *. subst c.
  destruct (last (rounds rt warning limit subjects w)) as [[s [e| |books]]|].
  - split; [done|]. split; [|done]. exists (evs ++ [ConsoleError failure]).
    split; [simpl; by rewrite Htr, app_assoc|].
    rewrite List.filter_app, Hevs. simpl. by rewrite app_nil_r.
  - split; [done|]. split; [|done]. exists (evs ++ [ConsoleError failure]).
    split; [simpl; by rewrite Htr, app_assoc|].
    rewrite List.filter_app, Hevs. simpl. by rewrite app_nil_r.
  - split; [done|]. split; [|done]. by exists evs.
  - split; [done|]. split; [|done]. exists (evs ++ [ConsoleError failure]).
    split; [simpl; by rewrite Htr, app_assoc|].
    rewrite List.filter_app, Hevs. simpl. by rewrite app_nil_r.
Qed.

(** Without a non-empty result in any round, the fetcher returns the empty
    sequence. *)
Lemma rounds_result_exhausted (rs : list (JsVal * Attempt)) :
  Forall (fun r => is_hit r.2 = false) rs -> rounds_result rs = VArr [] [].
Proof.
  intros Hall. unfold rounds_result.
  destruct (last rs) as [[s a]|] eqn:Hlast; [|done].
  apply last_Some in Hlast as [rs' ->].
  apply Forall_app in Hall as [_ Hall]. apply Forall_cons in Hall as [Hall _].
  by destruct a.
Qed.

Lemma getTrendingBooks_loop limit w :
  loaded w ->
  getTrendingBooks rt limit w =
  first_non_empty rt "Trending fallback failed for subject: "
    "All fallback subjects for trending books failed." (default 20 limit)
    TRENDING_FALLBACKS_init w.
Proof.
  intros (Htrending & _ & _). unfold getTrendingBooks.
  rewrite (run_bind_normal _ _ _ _ _ (load_at _ _ _ Htrending)).
  by rewrite (run_lift_normal _ _ _ TRENDING_FALLBACKS_init).
Qed.

Lemma getTopRatedBooks_loop limit w :
  loaded w ->
  getTopRatedBooks rt limit w =
  first_non_empty rt "Top rated fallback failed for subject: "
    "All fallback subjects for top-rated books failed." (default 20 limit)
    TOP_RATED_FALLBACKS_init w.
Proof.
  intros (_ & Htop & _). unfold getTopRatedBooks.
  rewrite (run_bind_normal _ _ _ _ _ (load_at _ _ _ Htop)).
  by rewrite (run_lift_normal _ _ _ TOP_RATED_FALLBACKS_init).
Qed.

Lemma getRandomBooks_loop limit subjects own w :
  heap w !! POPULAR_RANDOM_SUBJECTS = Some (VArr subjects own) ->
  exists shuffled w1,
    getRandomBooks rt limit w =
    first_non_empty rt "Random books failed for subject: "
      "All random subjects failed to return results." (default 20 limit) shuffled w1
    /\ shuffled ≡ₚ subjects
    /\ heap_extends w w1
    /\ same_outside w w1.
Proof.
  intros Hpop.
  destruct (subjectsToTry_run rt subjects own w Hpop)
    as (a & shuffled & w1 & Hrun & Ha & Hperm & Hext & Hout).
  exists shuffled, w1. split; [|done]. unfold getRandomBooks.
  rewrite (run_bind_normal _ _ _ _ _ Hrun).
  rewrite (run_bind_normal _ _ _ _ _ (load_at _ _ _ Ha)).
  by rewrite (run_lift_normal _ _ _ shuffled).
Qed.

(** C8. In a call of [getRandomBooks], the list of subjects that the loop
    goes through is a permutation of the candidate list (adventure, fantasy,
    science_fiction, romance, thriller, mystery), and when the call ends the
    array of the module still holds the candidate list, in its order: the
    next call starts from the same list. *)
Theorem shuffle_is_permutation limit w :
  heap w !! POPULAR_RANDOM_SUBJECTS = Some (VArr POPULAR_RANDOM_SUBJECTS_init []) ->
  exists shuffled w1,
    getRandomBooks rt limit w =
    first_non_empty rt "Random books failed for subject: "
      "All random subjects failed to return results." (default 20 limit) shuffled w1
    /\ shuffled ≡ₚ [VStr "adventure"; VStr "fantasy"; VStr "science_fiction";
                    VStr "romance"; VStr "thriller"; VStr "mystery"]
    /\ heap w1 !! POPULAR_RANDOM_SUBJECTS = Some (VArr POPULAR_RANDOM_SUBJECTS_init [])
    /\ heap (getRandomBooks rt limit w).2 !! POPULAR_RANDOM_SUBJECTS
       = Some (VArr POPULAR_RANDOM_SUBJECTS_init []).
Proof.
  intros Hpop.
  destruct (getRandomBooks_loop limit _ _ w Hpop) as (shuffled & w1 & Hrun & Hperm & Hext & _).
  exists shuffled, w1. split; [exact Hrun|]. split; [exact Hperm|].
  split; [by apply Hext|]. rewrite Hrun, first_non_empty_heap.
  by apply Hext.
Qed.

(** C6. The loop that the three fetchers share goes through its subjects
    (strings, or values with a string form) in order, one browse call per
    round, and stops at the first round whose call returns a non-empty
    sequence of books, which it returns: a round is a hit exactly when its
    browse call returns a result whose [books] is truthy with a length above
    0, and it throws when the browse call does; the subjects of the rounds
    are a prefix of the list, cut short only by a hit, which is the last
    round; the requests and delays the loop makes are, in order, the request
    of each round, followed by a delay of 250 ms when the round threw and by
    nothing when it did not.  [getTrendingBooks] and [getTopRatedBooks] run
    this loop on their lists, [getRandomBooks] on a permutation of its
    list. *)
Theorem subjects_tried_in_sequence :
  (forall warning failure (limit : Z) subjects w,
      Forall (fun subject => stringable subject = true) subjects ->
      let rs := rounds rt warning limit subjects w in
      (first_non_empty rt warning failure limit subjects w).1 = Normal (rounds_result rs)
      /\ (exists skipped,
            subjects = map fst rs ++ skipped
            /\ (skipped ≠ [] -> exists subject books, last rs = Some (subject, NonEmpty books)))
      /\ (forall i subject books,
            rs !! i = Some (subject, NonEmpty books) -> S i = List.length rs)
      /\ List.filter fetch_or_sleep
           (new_events (first_non_empty rt warning failure limit subjects) w)
         = flat_map (round_events rt limit) rs)
  /\ (forall (limit : Z) subject w,
        (forall books,
            attempt rt limit subject w = NonEmpty books <->
            exists result len,
              (browseBooks rt (subject_options limit subject) w).1 = Normal result
              /\ getProp result "books" = Normal books
              /\ truthy books = true
              /\ getProp books "length" = Normal len
              /\ gt0 rt len = Normal true)
        /\ (forall e,
              (browseBooks rt (subject_options limit subject) w).1 = Throw e ->
              attempt rt limit subject w = Threw e))
  /\ (forall limit w,
        loaded w ->
        getTrendingBooks rt limit w =
        first_non_empty rt "Trending fallback failed for subject: "
          "All fallback subjects for trending books failed." (default 20 limit)
          TRENDING_FALLBACKS_init w
        /\ getTopRatedBooks rt limit w =
           first_non_empty rt "Top rated fallback failed for subject: "
             "All fallback subjects for top-rated books failed." (default 20 limit)
             TOP_RATED_FALLBACKS_init w
        /\ Forall (fun subject => stringable subject = true) TRENDING_FALLBACKS_init
        /\ Forall (fun subject => stringable subject = true) TOP_RATED_FALLBACKS_init
        /\ exists shuffled w1,
             getRandomBooks rt limit w =
             first_non_empty rt "Random books failed for subject: "
               "All random subjects failed to return results." (default 20 limit)
               shuffled w1
             /\ shuffled ≡ₚ POPULAR_RANDOM_SUBJECTS_init
             /\ Forall (fun subject => stringable subject = true) shuffled
             /\ trace w1 = trace w).
Proof.
  destruct fallbacks_stringable as (Htrending & Htop & Hrandom).
  split; [|split].
  - intros warning failure limit subjects w Hall rs.
    destruct (first_non_empty_run warning failure limit subjects w Hall)
      as (Hres & (evs & Htr & Hevs) & _).
    split; [exact Hres|]. split; [apply rounds_prefix|].
    split; [apply rounds_hit_is_last|].
    by rewrite (new_events_app _ _ _ Htr).
  - intros limit subject w. split.
    + intros books. apply attempt_non_empty.
    + intros e He. unfold attempt. by rewrite He.
  - intros limit w Hloaded.
    split; [by apply getTrendingBooks_loop|].
    split; [by apply getTopRatedBooks_loop|].
    split; [exact Htrending|]. split; [exact Htop|].
    destruct Hloaded as (_ & _ & Hpop).
    destruct (getRandomBooks_loop limit _ _ w Hpop)
      as (shuffled & w1 & Hrun & Hperm & _ & (_ & _ & Htr)).
    exists shuffled, w1. split; [exact Hrun|]. split; [exact Hperm|].
    split; [by rewrite Hperm|exact Htr].
Qed.

(** C4. Once the module is loaded, whatever the limit and whatever the
    network and the cache do, each of the three fetchers returns a value and
    does not throw; when no round of its loop ends with a non-empty result,
    the value is the empty sequence. *)
Theorem category_fetchers_never_raise limit w :
  loaded w ->
  (exists v w',
      getTrendingBooks rt limit w = (Normal v, w')
      /\ (Forall (fun r => is_hit r.2 = false)
            (rounds rt "Trending fallback failed for subject: " (default 20 limit)
                    TRENDING_FALLBACKS_init w) ->
          v = VArr [] []))
  /\ (exists v w',
        getTopRatedBooks rt limit w = (Normal v, w')
        /\ (Forall (fun r => is_hit r.2 = false)
              (rounds rt "Top rated fallback failed for subject: " (default 20 limit)
                      TOP_RATED_FALLBACKS_init w) ->
            v = VArr [] []))
  /\ (exists v w' shuffled w1,
        getRandomBooks rt limit w = (Normal v, w')
        /\ getRandomBooks rt limit w =
           first_non_empty rt "Random books failed for subject: "
             "All random subjects failed to return results." (default 20 limit)
             shuffled w1
        /\ shuffled ≡ₚ POPULAR_RANDOM_SUBJECTS_init
        /\ (Forall (fun r => is_hit r.2 = false)
              (rounds rt "Random books failed for subject: " (default 20 limit)
                      shuffled w1) ->
            v = VArr [] [])).
Proof.
  intros Hloaded.
  destruct fallbacks_stringable as (Htrending & Htop & Hrandom).
  assert (Hloop : forall warning failure subjects w0,
             Forall (fun subject => stringable subject = true) subjects ->
             exists v w',
               first_non_empty rt warning failure (default 20 limit) subjects w0
               = (Normal v, w')
               /\ (Forall (fun r => is_hit r.2 = false)
                     (rounds rt warning (default 20 limit) subjects w0) ->
                   v = VArr [] [])).
  { intros warning failure subjects w0 Hall.
    destruct (first_non_empty_run warning failure (default 20 limit) subjects w0 Hall)
      as (Hres & _).
    destruct (first_non_empty rt warning failure (default 20 limit) subjects w0)
      as [c w'].
    cbn [fst] in Hres. subst c. eexists _, w'. split; [reflexivity|].
    apply rounds_result_exhausted. }
  split; [|split].
  - rewrite (getTrendingBooks_loop limit w Hloaded). by apply Hloop.
  - rewrite (getTopRatedBooks_loop limit w Hloaded). by apply Hloop.
  - destruct Hloaded as (_ & _ & Hpop).
    destruct (getRandomBooks_loop limit _ _ w Hpop)
      as (shuffled & w1 & Hrun & Hperm & _).
    destruct (Hloop "Random books failed for subject: "
                "All random subjects failed to return results." shuffled w1)
      as (v & w' & Hv & Hempty); [by rewrite Hperm|].
    exists v, w', shuffled, w1. by rewrite Hrun.
Qed.

(** No call changes an object that it has not made: in particular the
    arrays of the module are the same before every call. *)
Lemma calls_keep_objects r v w :
  heap w !! r = Some v ->
  (forall options, heap (browseBooks rt options w).2 !! r = Some v)
  /\ (forall workId, heap (getBookDetails rt workId w).2 !! r = Some v)
  /\ (forall limit, heap (getTrendingBooks rt limit w).2 !! r = Some v)
  /\ (forall limit, heap (getTopRatedBooks rt limit w).2 !! r = Some v)
  /\ (forall limit,
        loaded w -> heap (getRandomBooks rt limit w).2 !! r = Some v).
Proof.
  intros Hr.
  assert (Hloop : forall warning failure (limit : Z) subjects w0,
             heap (first_non_empty rt warning failure limit subjects w0).2 = heap w0)
    by (intros; apply first_non_empty_heap).
  split; [|split; [|split; [|split]]].
  - intros options.
    destruct (browseBooks_run rt options w) as (_ & _ & -> & _). done.
  - intros workId. unfold getBookDetails.
    rewrite run_bind. unfold fetch.
    destruct (net rt (fetched w) _) as [e|response]; [done|].
    destruct (ok response); cbn [negb]; [|by destruct (bool_decide _)].
    rewrite run_bind. unfold json, lift. destruct (body response) as [parsed|e]; [|done].
    rewrite run_bind. unfold alloc at 1.
    set (w1 := mkWorld _ _ _ _ _). set (data := fresh _).
    assert (Hdata : data ≠ r) by (apply (fresh_ne _ r v); exact Hr).
    assert (H1 : cell_is r v w1).
    { unfold cell_is, w1. cbn [heap]. by rewrite lookup_insert_ne. }
    revert H1. generalize w1.
    change (preserves (cell_is r v)
              (try_catch (enrich_from_edition rt workId data)
                 (fun error =>
                    console_warn ("Could not fetch edition details for " +:+ workId +:+ ":")
                                 error);;
               author_enrichment rt data;;
               load data)).
    repeat preserve_step.
  - intros limit. unfold getTrendingBooks.
    rewrite run_bind. unfold load at 1.
    rewrite run_bind. unfold lift at 1.
    destruct (iterate _) as [subjects|e]; [|done]. by rewrite Hloop.
  - intros limit. unfold getTopRatedBooks.
    rewrite run_bind. unfold load at 1.
    rewrite run_bind. unfold lift at 1.
    destruct (iterate _) as [subjects|e]; [|done]. by rewrite Hloop.
  - intros limit (_ & _ & Hpop).
    destruct (getRandomBooks_loop limit _ _ w Hpop) as (shuffled & w1 & -> & _ & Hext & _).
    rewrite Hloop. by apply Hext.
Qed.

End CategoryFetchers.

(** ** The theorems at work *)

Example request_url_defaults :
  requestUrl Demo.offline (mkOptions None None None None None None)
  = "https://openlibrary.org/search.json?q=*&offset=0&language=eng&limit=40&fields=key%2Ctitle%2Cauthor_name%2Ccover_i%2Cfirst_publish_year".
Proof. reflexivity. Qed.

Example request_url_page_3 :
  requestUrl Demo.offline
    (mkOptions (Some "dune rock") (Some ["science fiction"; "desert"]) (Some "1965")
               (Some "new") (Some 10) (Some 3))
  = "https://openlibrary.org/search.json?q=dune+rock&subject=science+fiction&subject=desert&publish_year=1965&sort=new&offset=20&language=eng&limit=10&fields=key%2Ctitle%2Cauthor_name%2Ccover_i%2Cfirst_publish_year".
Proof. reflexivity. Qed.

Example links_of_edition :
  external_links_of
    (VObj [("goodreads", VArr [VStr "234225"] []); ("librarything", VArr [VStr "8717"] [])])
  = [("goodreads", VStr "https://www.goodreads.com/book/show/234225")].
Proof. reflexivity. Qed.

Example links_of_no_known_identifier :
  external_links_of (VObj [("librarything", VArr [VStr "8717"] [])]) = [].
Proof. reflexivity. Qed.

(** Numbers beyond [2 ^ 53] as the program writes them. *)
Example number_texts :
  Number_toString (2 ^ 64) = "18446744073709552000"
  /\ Number_toString (10 ^ 21) = "1e+21"
  /\ Number_toString (2 ^ 70) = "1.1805916207174113e+21"
  /\ Number_toString (- (2 ^ 53) - 2) = "-9007199254740994".
Proof. repeat split; vm_compute; reflexivity. Qed.

(** A run of [getTrendingBooks]: the first subject throws and is followed by
    the delay, the second is empty and is not, the third is returned. *)
Example trending_books_flaky :
  (getTrendingBooks Demo.flaky None initial_world).1
  = Normal (VArr [VObj [("key", VStr "/works/OL893415W"); ("title", VStr "Dune")]] [])
  /\ List.filter fetch_or_sleep (trace (getTrendingBooks Demo.flaky None initial_world).2)
     = [Fetch "https://openlibrary.org/search.json?q=*&subject=love&offset=0&language=eng&limit=20&fields=key%2Ctitle%2Cauthor_name%2Ccover_i%2Cfirst_publish_year";
        Sleep 250;
        Fetch "https://openlibrary.org/search.json?q=*&subject=fiction&offset=0&language=eng&limit=20&fields=key%2Ctitle%2Cauthor_name%2Ccover_i%2Cfirst_publish_year";
        Fetch "https://openlibrary.org/search.json?q=*&subject=thriller&offset=0&language=eng&limit=20&fields=key%2Ctitle%2Cauthor_name%2Ccover_i%2Cfirst_publish_year"].
Proof. split; vm_compute; reflexivity. Qed.

(** Offline, every subject is tried and the result is empty. *)
Example top_rated_books_offline :
  (getTopRatedBooks Demo.offline (Some 5) initial_world).1 = Normal (VArr [] [])
  /\ List.length (List.filter fetch_or_sleep
                    (trace (getTopRatedBooks Demo.offline (Some 5) initial_world).2))
     = 8%nat.
Proof. split; vm_compute; reflexivity. Qed.

(** The array of the module after a call of [getRandomBooks]. *)
Example random_books_leaves_subjects :
  heap (getRandomBooks Demo.flaky None initial_world).2 !! POPULAR_RANDOM_SUBJECTS
  = Some (VArr POPULAR_RANDOM_SUBJECTS_init []).
Proof. vm_compute. reflexivity. Qed.



(** A work with an empty list of authors makes the call throw. *)
Lemma details_empty_authors_throws_witness :
  exists e,
    (getBookDetails Demo.anonymous "OL893415W" initial_world).1 = Throw e
    /\ err_class e = TypeError.
Proof.
  apply (details_empty_authors_throws Demo.anonymous "OL893415W" initial_world
           (mkResponse 200 (Normal (VObj Demo.work_without_authors)))
           Demo.work_without_authors); reflexivity.
Defined.

(** A work that the catalog does not have. *)
Lemma details_primary_failure_witness :
  (getBookDetails Demo.missing "OL0W" initial_world).1
  = Throw (new_BookNotFoundError "OL0W").
Proof.
  apply (proj1 (details_primary_failure Demo.missing "OL0W" initial_world
                  (mkResponse 404 (Normal (VObj [("error", VStr "notfound")])))
                  eq_refl)).
  reflexivity.
Defined.

Lemma loaded_initial_world : loaded initial_world.
Proof. repeat split; vm_compute; reflexivity. Qed.

(** Offline, the fetchers return. *)
Lemma category_fetchers_never_raise_witness :
  loaded initial_world
  /\ exists v w', getTrendingBooks Demo.offline None initial_world = (Normal v, w').
Proof.
  pose proof loaded_initial_world as Hloaded.
  split; [exact Hloaded|].
  destruct (category_fetchers_never_raise Demo.offline None initial_world Hloaded)
    as ((v & w' & Hrun & _) & _).
  exists v, w'. exact Hrun.
Defined.




(** In the world of a tab that has loaded the module, the fetchers run the
    loop on their lists. *)
Lemma subjects_tried_in_sequence_witness :
  getTrendingBooks Demo.searching (Some 5) initial_world =
  first_non_empty Demo.searching "Trending fallback failed for subject: "
    "All fallback subjects for trending books failed." 5 TRENDING_FALLBACKS_init
    initial_world.
Proof.
  pose proof loaded_initial_world as Hloaded.
  exact (proj1 (proj2 (proj2 (subjects_tried_in_sequence Demo.searching)) (Some 5)
                  initial_world Hloaded)).
Defined.

(** The third page of ten. *)
Lemma offset_parameter_witness :
  URLSearchParams.getAll "offset"
    (searchParams (mkOptions (Some "dune") None None None (Some 10) (Some 3)))
  = ["20"].
Proof.
  refine (proj1 (proj2 (offset_parameter (Some "dune") None None None 3 10 _ _ _)));
    vm_compute; discriminate.
Defined.

(** The claim as the specification has it, for every page and size from 1
    on, fails for page 4 of size [2 ^ 53 - 1]: the product is rounded to a
    double. *)
Lemma offset_parameter_counterexample :
  offset Demo.far_page = Finite 27021597764222972
  /\ URLSearchParams.getAll "offset" (searchParams Demo.far_page) = ["27021597764222972"]
  /\ (4 - 1) * (2 ^ 53 - 1) = 27021597764222973.
Proof. repeat split; vm_compute; reflexivity. Qed.

(** The shuffle in the world of a tab that has loaded the module. *)
Lemma shuffle_is_permutation_witness :
  exists shuffled w1,
    getRandomBooks Demo.offline None initial_world =
    first_non_empty Demo.offline "Random books failed for subject: "
      "All random subjects failed to return results." 20 shuffled w1
    /\ shuffled ≡ₚ [VStr "adventure"; VStr "fantasy"; VStr "science_fiction";
                    VStr "romance"; VStr "thriller"; VStr "mystery"].
Proof.
  assert (Hpop : heap initial_world !! POPULAR_RANDOM_SUBJECTS
                 = Some (VArr POPULAR_RANDOM_SUBJECTS_init []))
    by (vm_compute; reflexivity).
  destruct (shuffle_is_permutation Demo.offline None initial_world Hpop)
    as (shuffled & w1 & Hrun & Hperm & _).
  exists shuffled, w1. split; [exact Hrun|exact Hperm].
Defined.

(** An entry under another key is not touched. *)
Lemma browse_key_deterministic_witness :
  sessionStorage (browseBooks Demo.searching Demo.dune Demo.cached_world).2 !! "theme"
  = sessionStorage Demo.cached_world !! "theme".
Proof.
  apply (proj2 (proj2 (browse_key_deterministic Demo.searching Demo.dune
                         Demo.cached_world initial_world))).
  vm_compute. discriminate.
Defined.



(** * Further properties *)

(** ** The query string *)

Module QueryString.
Import URLSearchParams.

Lemma append_cons x (a b : string) : String x a +:+ b = String x (a +:+ b).
Proof. reflexivity. Qed.

Lemma append_assoc (a b c : string) : (a +:+ b) +:+ c = a +:+ (b +:+ c).
Proof.
  induction a as [|x a IH]; [done|]. by rewrite !append_cons, IH.
Qed.

Lemma append_cancel_l (s a b : string) : s +:+ a = s +:+ b -> a = b.
Proof.
  induction s as [|x s IH]; [done|]. rewrite !append_cons. intros [= H]. by apply IH.
Qed.

Lemma has_char_append c (a b : string) :
  has_char c (a +:+ b) = has_char c a || has_char c b.
Proof.
  induction a as [|x a IH]; [done|].
  rewrite append_cons. simpl. by rewrite IH, orb_assoc.
Qed.

(** A string is cut at the first occurrence of a character in one way. *)
Lemma cut_unique c (a b r1 r2 : string) :
  has_char c a = false -> has_char c b = false ->
  a +:+ String c r1 = b +:+ String c r2 -> a = b /\ r1 = r2.
Proof.
  revert b. induction a as [|x a IH]; intros [|y b]; rewrite ?append_cons.
  - by intros _ _ [= ->].
  - intros _ Hb [= <- _]. simpl in Hb. by rewrite Ascii.eqb_refl in Hb.
  - intros Ha _ [= -> _]. simpl in Ha. by rewrite Ascii.eqb_refl in Ha.
  - intros Ha Hb [= -> H]. simpl in Ha, Hb.
    apply orb_false_iff in Ha as [_ Ha]. apply orb_false_iff in Hb as [_ Hb].
    destruct (IH b Ha Hb H) as [-> ->]. done.
Qed.

(** The encoding of a code unit is read back by the decoding. *)
Lemma urldecode_unit c (r : string) :
  urldecode (encode_unit c +:+ r) = String c (urldecode r).
Proof.
  destruct c as [b0 b1 b2 b3 b4 b5 b6 b7].
  destruct b0, b1, b2, b3, b4, b5, b6, b7; reflexivity.
Qed.

Lemma urldecode_encode (s : string) : urldecode (encode s) = s.
Proof.
  induction s as [|c s IH]; [done|].
  simpl encode. by rewrite urldecode_unit, IH.
Qed.

Lemma urldecode_encode_append (s r : string) :
  urldecode (encode s +:+ r) = s +:+ urldecode r.
Proof.
  induction s as [|c s IH]; [done|].
  simpl encode. by rewrite append_assoc, urldecode_unit, IH.
Qed.

Lemma encode_inj (s1 s2 : string) : encode s1 = encode s2 -> s1 = s2.
Proof. intros H. by rewrite <- (urldecode_encode s1), H, urldecode_encode. Qed.

(** No encoding contains a separator of the query string. *)
Lemma encode_unit_no_separator c :
  has_char "&" (encode_unit c) = false /\ has_char "=" (encode_unit c) = false.
Proof.
  destruct c as [b0 b1 b2 b3 b4 b5 b6 b7].
  destruct b0, b1, b2, b3, b4, b5, b6, b7; split; reflexivity.
Qed.

Lemma encode_no_separator (s : string) :
  has_char "&" (encode s) = false /\ has_char "=" (encode s) = false.
Proof.
  induction s as [|c s [IH1 IH2]]; [done|].
  simpl encode. rewrite !has_char_append, IH1, IH2.
  destruct (encode_unit_no_separator c) as [-> ->]. done.
Qed.

Lemma toString_cons p (rest : t) :
  toString (p :: rest) =
  match rest with
  | [] => item p
  | _ => encode p.1 +:+ String "=" (encode p.2 +:+ String "&" (toString rest))
  end.
Proof. destruct p, rest; reflexivity. Qed.

Lemma item_inj p q : item p = item q -> p = q.
Proof.
  destruct p as [n v], q as [n' v']. unfold item. cbn [fst snd]. intros H.
  apply cut_unique in H as [Hn Hv]; try apply encode_no_separator.
  by rewrite (encode_inj _ _ Hn), (encode_inj _ _ Hv).
Qed.

Lemma item_has_equals p : has_char "=" (item p) = true.
Proof. unfold item. rewrite has_char_append. simpl. by rewrite orb_true_r. Qed.

(** The serialization of the pairs determines them. *)
Lemma toString_inj (l1 l2 : t) : toString l1 = toString l2 -> l1 = l2.
Proof.
  revert l2. induction l1 as [|[n v] rest IH]; intros [|[n' v'] rest'].
  - done.
  - rewrite toString_cons. intros H.
    assert (Hc : has_char "=" (toString []) = true); [|done].
    rewrite H. destruct rest'; [apply item_has_equals|].
    rewrite has_char_append. simpl. by rewrite orb_true_r.
  - rewrite toString_cons. intros H.
    assert (Hc : has_char "=" (toString []) = true); [|done].
    rewrite <- H. destruct rest; [apply item_has_equals|].
    rewrite has_char_append. simpl. by rewrite orb_true_r.
  - rewrite !toString_cons.
    destruct rest as [|p rest], rest' as [|p' rest'].
    + intros H. by rewrite (item_inj (n, v) (n', v') H).
    + unfold item. cbn [fst snd]. intros H.
      apply cut_unique in H as [_ H]; try apply encode_no_separator.
      assert (Hc : has_char "&" (encode v) = true).
      { rewrite H, has_char_append. simpl. by rewrite orb_true_r. }
      by rewrite (proj1 (encode_no_separator v)) in Hc.
    + unfold item. cbn [fst snd]. intros H.
      apply cut_unique in H as [_ H]; try apply encode_no_separator.
      assert (Hc : has_char "&" (encode v') = true).
      { rewrite <- H, has_char_append. simpl. by rewrite orb_true_r. }
      by rewrite (proj1 (encode_no_separator v')) in Hc.
    + cbn [fst snd]. intros H.
      apply cut_unique in H as [Hn H]; try apply encode_no_separator.
      apply cut_unique in H as [Hv H]; try apply encode_no_separator.
      rewrite (encode_inj _ _ Hn), (encode_inj _ _ Hv). f_equal. by apply IH.
Qed.

(** [set] on a name that no pair has appends the pair. *)
Lemma set_fresh name value (params : t) :
  Forall (fun p => p.1 ≠ name) params ->
  set name value params = params ++ [(name, value)].
Proof.
  induction 1 as [|[n v] rest Hn _ IH]; [done|].
  rewrite URLSearchParamsFacts.set_cons. simpl in Hn.
  rewrite decide_False by done. by rewrite IH.
Qed.

Lemma append_subjects (genres : list string) (params : t) :
  fold_left (fun sp genre => append "subject" genre sp) genres params
  = params ++ map (pair "subject") genres.
Proof.
  revert params. induction genres as [|g genres IH]; intros params; simpl.
  - by rewrite app_nil_r.
  - rewrite IH. unfold append. by rewrite <- app_assoc.
Qed.

Lemma subjects_named (genres : list string) name :
  name ≠ "subject" ->
  Forall (fun p : string * string => p.1 ≠ name) (map (pair "subject") genres).
Proof. intros Hne. induction genres; constructor; [by intros <-|done]. Qed.

End QueryString.

Section QueryParameters.

Import URLSearchParams QueryString.

(** The name to be set is none of those of the pairs so far, [H] covering
    the pairs of the optional parameters. *)
Ltac fresh_name H :=
  first [ apply H; discriminate
        | apply Forall_app; split; [fresh_name H | by repeat constructor] ].

Lemma truthy_string_some (s : string) :
  truthy_string (Some s) = negb (bool_decide (s = "")).
Proof. reflexivity. Qed.

(** The conditional [set] of an optional parameter on pairs that do not have
    its name. *)
Lemma set_optional name (value : option string) (skip : bool) (params : t) :
  Forall (fun p => p.1 ≠ name) params ->
  (if truthy_string value && negb skip then set name (default "" value) params else params)
  = params ++ match value with
              | Some v => if bool_decide (v = "") || skip then [] else [(name, v)]
              | None => []
              end.
Proof.
  intros Hfresh. destruct value as [v|]; [|by rewrite app_nil_r].
  rewrite truthy_string_some. destruct (bool_decide (v = "")), skip; simpl;
    rewrite ?app_nil_r; try done.
  by apply set_fresh.
Qed.

(** The sequence of [set] and [append] builds the pairs one after the
    other: no [set] finds its name among the pairs before it. *)
Lemma searchParams_expected (options : BrowseOptions) :
  searchParams options = expected_params options.
Proof.
  destruct options as [q g y s l p].
  unfold searchParams, expected_params, effective_query, effective_year, effective_sort.
  cbn [query genres year sort limit page].
  set (q' := if truthy_string q then default "" q else "*").
  assert (Hq : q' = match q with
                    | Some q0 => if bool_decide (q0 = "") then "*" else q0
                    | None => "*"
                    end).
  { unfold q'. destruct q as [q0|]; [|done].
    rewrite truthy_string_some. by destruct (bool_decide (q0 = "")). }
  rewrite <- Hq. clear Hq. change (set "q" q' []) with [("q", q')].
  set (subjects := map (pair "subject") (default [] g)).
  assert (Hg : match g with
               | Some genres =>
                   if 0 <? Z.of_nat (List.length genres)
                   then fold_left (fun sp genre => append "subject" genre sp) genres
                                  [("q", q')]
                   else [("q", q')]
               | None => [("q", q')]
               end = [("q", q')] ++ subjects).
  { unfold subjects. destruct g as [[|g0 gs]|]; [done| |done].
    replace (0 <? Z.of_nat (List.length (g0 :: gs))) with true
      by (symmetry; apply Z.ltb_lt; simpl; lia).
    apply append_subjects. }
  rewrite Hg. clear Hg.
  assert (Hnamed : forall name, name ≠ "q" -> name ≠ "subject" ->
             Forall (fun p : string * string => p.1 ≠ name) ([("q", q')] ++ subjects)).
  { intros name H1 H2. apply Forall_app. split; [by repeat constructor|].
    by apply subjects_named. }
  (* publish_year *)
  pose proof (set_optional "publish_year" y false ([("q", q')] ++ subjects)
                (Hnamed "publish_year" ltac:(discriminate) ltac:(discriminate))) as Hy.
  rewrite andb_true_r in Hy. rewrite Hy. clear Hy.
  set (years := match y with
                | Some v => if bool_decide (v = "") || false then [] else [("publish_year", v)]
                | None => []
                end).
  assert (Hyears : years = match match y with
                                 | Some y0 => if bool_decide (y0 = "") then None else Some y0
                                 | None => None
                                 end with
                           | Some y0 => [("publish_year", y0)]
                           | None => []
                           end).
  { unfold years. destruct y as [y0|]; [|done]. by destruct (bool_decide (y0 = "")). }
  rewrite <- Hyears. clear Hyears.
  assert (Hnamed2 : forall name,
             name ≠ "q" -> name ≠ "subject" -> name ≠ "publish_year" ->
             Forall (fun p : string * string => p.1 ≠ name)
                    (([("q", q')] ++ subjects) ++ years)).
  { intros name H1 H2 H3. apply Forall_app. split; [by apply Hnamed|].
    unfold years. destruct y as [y0|]; [|done].
    destruct (bool_decide (y0 = "") || false); by repeat constructor. }
  (* sort *)
  pose proof (set_optional "sort" s (bool_decide (s = Some "relevance"))
                (([("q", q')] ++ subjects) ++ years)
                (Hnamed2 "sort" ltac:(discriminate) ltac:(discriminate)
                         ltac:(discriminate)))
    as Hs.
  rewrite Hs. clear Hs.
  set (sorts := match s with
                | Some v =>
                    if bool_decide (v = "") || bool_decide (s = Some "relevance")
                    then [] else [("sort", v)]
                | None => []
                end).
  assert (Hsorts : sorts = match match s with
                                 | Some s0 =>
                                     if bool_decide (s0 = "") || bool_decide (s0 = "relevance")
                                     then None else Some s0
                                 | None => None
                                 end with
                           | Some s0 => [("sort", s0)]
                           | None => []
                           end).
  { unfold sorts. destruct s as [s0|]; [|done].
    destruct (decide (s0 = "relevance")) as [->|Hne]; [done|].
    rewrite (bool_decide_eq_false_2 (Some s0 = Some "relevance")) by congruence.
    rewrite (bool_decide_eq_false_2 (s0 = "relevance")) by done.
    by destruct (bool_decide (s0 = "")). }
  rewrite <- Hsorts. clear Hsorts.
  assert (Hnamed3 : forall name,
             name ≠ "q" -> name ≠ "subject" -> name ≠ "publish_year" -> name ≠ "sort" ->
             Forall (fun p : string * string => p.1 ≠ name)
                    ((([("q", q')] ++ subjects) ++ years) ++ sorts)).
  { intros name H1 H2 H3 H4. apply Forall_app. split; [by apply Hnamed2|].
    unfold sorts. destruct s as [s0|]; [|done].
    destruct (bool_decide (s0 = "") || _); by repeat constructor. }
  (* offset, language, limit, fields *)
  rewrite (set_fresh "offset") by fresh_name Hnamed3.
  rewrite (set_fresh "language") by fresh_name Hnamed3.
  rewrite (set_fresh "limit") by fresh_name Hnamed3.
  rewrite (set_fresh "fields") by fresh_name Hnamed3.
  by rewrite <- !app_assoc.
Qed.

Lemma getAll_app name (l1 l2 : t) : getAll name (l1 ++ l2) = getAll name l1 ++ getAll name l2.
Proof. unfold getAll. by rewrite filter_app, map_app. Qed.

Lemma getAll_subjects name (genres : list string) :
  getAll name (map (pair "subject") genres)
  = if decide (name = "subject") then genres else [].
Proof.
  induction genres as [|g genres IH]; [by destruct (decide _)|].
  cbn [map]. rewrite URLSearchParamsFacts.getAll_cons, IH.
  destruct (decide (name = "subject")) as [->|Hne].
  - by rewrite decide_True.
  - by rewrite decide_False by congruence.
Qed.

Lemma getAll_optional name other (value : option string) :
  getAll name match value with Some v => [(other, v)] | None => [] end
  = if decide (other = name) then option_list value else [].
Proof.
  destruct value as [v|]; [|by destruct (decide _)].
  rewrite URLSearchParamsFacts.getAll_cons. by destruct (decide _).
Qed.

(** The values of each name in the pairs of a search. *)
Lemma getAll_expected (options : BrowseOptions) :
  getAll "q" (expected_params options) = [effective_query options]
  /\ getAll "subject" (expected_params options) = default [] (genres options)
  /\ getAll "publish_year" (expected_params options) = option_list (effective_year options)
  /\ getAll "sort" (expected_params options) = option_list (effective_sort options)
  /\ getAll "offset" (expected_params options) = [Double_toString (offset options)]
  /\ getAll "limit" (expected_params options)
     = [Number_toString (default 40 (limit options))]
  /\ getAll "language" (expected_params options) = ["eng"]
  /\ getAll "fields" (expected_params options)
     = ["key,title,author_name,cover_i,first_publish_year"].
Proof.
  unfold expected_params.
  repeat split;
    rewrite !getAll_app, getAll_subjects, !getAll_optional;
    cbn; by rewrite ?app_nil_r.
Qed.

(** X1. The query string of a search is, in this order: [q] (the query,
    or [*] when it is absent or empty), one [subject] per genre in the order
    given, [publish_year] when a non-empty year is given, [sort] when a sort
    other than the empty one and [relevance] is given, then [offset],
    [language=eng], [limit] (40 by default) and the list of fields: no name
    but [subject] has more than one value, whatever the options are. *)
Theorem search_params_list (options : BrowseOptions) :
  searchParams options = expected_params options
  /\ getAll "q" (searchParams options) = [effective_query options]
  /\ getAll "subject" (searchParams options) = default [] (genres options)
  /\ getAll "publish_year" (searchParams options) = option_list (effective_year options)
  /\ getAll "sort" (searchParams options) = option_list (effective_sort options)
  /\ getAll "limit" (searchParams options) = [Number_toString (default 40 (limit options))]
  /\ getAll "language" (searchParams options) = ["eng"]
  /\ getAll "fields" (searchParams options)
     = ["key,title,author_name,cover_i,first_publish_year"].
Proof.
  rewrite searchParams_expected.
  destruct (getAll_expected options) as (? & ? & ? & ? & ? & ? & ? & ?).
  done.
Qed.

Section CacheKeys.

Variable rt : Runtime.

(** The cache key determines the pairs of the query string. *)
Lemma cacheKey_params (o1 o2 : BrowseOptions) :
  cacheKey rt o1 = cacheKey rt o2 <-> expected_params o1 = expected_params o2.
Proof.
  rewrite <- !searchParams_expected. unfold cacheKey, requestUrl. split.
  - intros H. do 3 apply append_cancel_l in H. by apply toString_inj.
  - by intros ->.
Qed.

(** X2. Two searches have the same cache key, and so share one cache entry,
    exactly when they ask for the same thing: the same text (the wildcard for
    an absent or empty query), the same genres in the same order (none for an
    absent list), the same year (none for an empty one), the same sort (none
    for an empty one and for [relevance]), and the same texts of the offset
    and of the limit (40 when absent) as the program writes these numbers.
    When the numbers of both searches are safe, the offset and the limit are
    integers that a double holds, so that the texts are the same exactly when
    the numbers are; in particular two pages of a search with a limit
    other than 0 never share an entry then.  (Beyond the safe integers
    different pages can: the product is rounded, to infinity in the end.)
    The texts of the options are sequences of code units below 256, as every
    string is here. *)
Theorem cache_key_iff (o1 o2 : BrowseOptions) :
  (cacheKey rt o1 = cacheKey rt o2 <->
   effective_query o1 = effective_query o2
   /\ default [] (genres o1) = default [] (genres o2)
   /\ effective_year o1 = effective_year o2
   /\ effective_sort o1 = effective_sort o2
   /\ Double_toString (offset o1) = Double_toString (offset o2)
   /\ Number_toString (default 40 (limit o1)) = Number_toString (default 40 (limit o2)))
  /\ (safe_page o1 -> safe_page o2 ->
      (cacheKey rt o1 = cacheKey rt o2 <->
       effective_query o1 = effective_query o2
       /\ default [] (genres o1) = default [] (genres o2)
       /\ effective_year o1 = effective_year o2
       /\ effective_sort o1 = effective_sort o2
       /\ offset o1 = offset o2
       /\ default 40 (limit o1) = default 40 (limit o2)))
  /\ (forall q g y s (L p1 p2 : Z),
        L ≠ 0 -> p1 ≠ p2 ->
        safe_page (mkOptions q g y s (Some L) (Some p1)) ->
        safe_page (mkOptions q g y s (Some L) (Some p2)) ->
        cacheKey rt (mkOptions q g y s (Some L) (Some p1))
        ≠ cacheKey rt (mkOptions q g y s (Some L) (Some p2))).
Proof.
  assert (Hiff : forall o1 o2,
             cacheKey rt o1 = cacheKey rt o2 <->
             effective_query o1 = effective_query o2
             /\ default [] (genres o1) = default [] (genres o2)
             /\ effective_year o1 = effective_year o2
             /\ effective_sort o1 = effective_sort o2
             /\ Double_toString (offset o1) = Double_toString (offset o2)
             /\ Number_toString (default 40 (limit o1))
                = Number_toString (default 40 (limit o2))).
  { clear o1 o2. intros o1 o2. rewrite cacheKey_params. split.
    - intros H.
      destruct (getAll_expected o1) as (Hq1 & Hg1 & Hy1 & Hs1 & Ho1 & Hl1 & _).
      destruct (getAll_expected o2) as (Hq2 & Hg2 & Hy2 & Hs2 & Ho2 & Hl2 & _).
      rewrite H in Hq1, Hg1, Hy1, Hs1, Ho1, Hl1.
      rewrite Hq2 in Hq1. rewrite Hg2 in Hg1. rewrite Hy2 in Hy1.
      rewrite Hs2 in Hs1. rewrite Ho2 in Ho1. rewrite Hl2 in Hl1.
      injection Hq1 as Hq. injection Ho1 as Ho. injection Hl1 as Hl.
      repeat split; try done.
      + destruct (effective_year o1), (effective_year o2); by simplify_eq.
      + destruct (effective_sort o1), (effective_sort o2); by simplify_eq.
    - intros (Hq & Hg & Hy & Hs & Ho & Hl). unfold expected_params.
      by rewrite Hq, Hg, Hy, Hs, Ho, Hl. }
  assert (Hsafe : forall o1 o2,
             safe_page o1 -> safe_page o2 ->
             (cacheKey rt o1 = cacheKey rt o2 <->
              effective_query o1 = effective_query o2
              /\ default [] (genres o1) = default [] (genres o2)
              /\ effective_year o1 = effective_year o2
              /\ effective_sort o1 = effective_sort o2
              /\ offset o1 = offset o2
              /\ default 40 (limit o1) = default 40 (limit o2))).
  { clear o1 o2. intros o1 o2 (HL1 & Hp1 & Hm1) (HL2 & Hp2 & Hm2).
    rewrite Hiff. rewrite !offset_safe by done.
    rewrite !Double_toString_safe, !Number_toString_safe by done.
    split.
    - intros (Hq & Hg & Hy & Hs & Ho & Hl).
      apply (inj pretty) in Ho. apply (inj pretty) in Hl.
      repeat split; try done. by rewrite Ho.
    - intros (Hq & Hg & Hy & Hs & [= Ho] & Hl).
      repeat split; try done; by f_equal. }
  split; [apply Hiff|]. split; [apply Hsafe|].
  intros q g y s L p1 p2 HL Hp Hsafe1 Hsafe2 Hkey.
  apply (Hsafe _ _ Hsafe1 Hsafe2) in Hkey as (_ & _ & _ & _ & Hoff & _).
  destruct Hsafe1 as (_ & Hp1 & Hm1). destruct Hsafe2 as (_ & Hp2 & Hm2).
  rewrite !offset_safe in Hoff by done.
  cbn [limit page default id from_option] in Hoff.
  injection Hoff as Hoff. nia.
Qed.

End CacheKeys.

End QueryParameters.

(** ** The cache of [browseBooks] *)

Section BrowseOutcomes.

Variable rt : Runtime.



End BrowseOutcomes.

Section BrowseAgain.

Variable rt : Runtime.

(** X4. A search that has been answered is answered again when the catalog
    fails: take a call of [browseBooks] that returns [result], and a later
    world in which the entry under the key of the options is the one this
    call has left.  When the request of a call with the same options fails
    there, that call returns [result] too, provided the text that
    [JSON.stringify] makes of the result is not empty and [JSON.parse] reads
    it back. *)
Theorem search_served_again options w result w1 w2 e :
  browseBooks rt options w = (Normal result, w1) ->
  JSON_stringify rt result ≠ "" ->
  JSON_parse rt (JSON_stringify rt result) = Normal result ->
  sessionStorage w2 !! cacheKey rt options = sessionStorage w1 !! cacheKey rt options ->
  request_fails rt (requestUrl rt options) (fetched w2) e ->
  (browseBooks rt options w2).1 = Normal result.
Proof.
  intros Hrun Hne Hparse Hkept Hfail.
  assert (Hentry : exists s, sessionStorage w1 !! cacheKey rt options = Some s
                             /\ s ≠ "" /\ JSON_parse rt s = Normal result).
  { assert (Hcatch : forall e' w0,
               sessionStorage w0 = sessionStorage w ->
               browse_fallback rt options e' w0 = (Normal result, w1) ->
               exists s, sessionStorage w1 !! cacheKey rt options = Some s
                         /\ s ≠ "" /\ JSON_parse rt s = Normal result).
    { intros e' w0 Hstore.
      destruct (sessionStorage w0 !! cacheKey rt options) as [s|] eqn:Hs.
      - destruct (decide (s = "")) as [->|Hs'].
        + by rewrite (browse_fallback_miss rt options _ e') by (by right).
        + rewrite (browse_fallback_hit rt options _ e' s) by done.
          intros [= Hres <-]. by exists s.
      - by rewrite (browse_fallback_miss rt options _ e') by (by left). }
    revert Hrun. unfold browseBooks, try_catch.
    destruct (browse_network_cases rt options w)
      as [(e' & _ & ->) | [(result' & _ & _ & ->) | (result' & _ & _ & ->)]].
    - by apply Hcatch.
    - intros [= <- <-]. exists (JSON_stringify rt result').
      split; [apply lookup_insert_eq|done].
    - by apply Hcatch. }
  destruct Hentry as (s & Hs & Hs' & Hres).
  unfold browseBooks, try_catch.
  rewrite (browse_network_fails rt options w2 e Hfail).
  rewrite (browse_fallback_hit rt options _ e s).
  - exact Hres.
  - cbn [sessionStorage issued record]. by rewrite Hkept.
  - exact Hs'.
Qed.

End BrowseAgain.

(** The search for [Demo.dune] succeeds once and is served from the cache
    when the catalog cannot be reached any more. *)
Lemma search_served_again_witness :
  (browseBooks Outage.runtime Demo.dune
     (browseBooks Outage.runtime Demo.dune initial_world).2).1
  = Normal Outage.found.
Proof.
  assert (Hfirst : (browseBooks Outage.runtime Demo.dune initial_world).1
                   = Normal Outage.found)
    by (vm_compute; reflexivity).
  refine (search_served_again Outage.runtime Demo.dune initial_world Outage.found
            (browseBooks Outage.runtime Demo.dune initial_world).2
            (browseBooks Outage.runtime Demo.dune initial_world).2
            (type_error "Failed to fetch") _ _ _ eq_refl _).
  - rewrite <- Hfirst. apply surjective_pairing.
  - vm_compute. discriminate.
  - vm_compute. reflexivity.
  - apply network_error. vm_compute. reflexivity.
Defined.

(** ** The requests of [getBookDetails] *)

Section CatalogCalls.

Variable rt : Runtime.

Lemma requests_within_refl n w : requests_within rt n w w.
Proof.
  split; [done|]. split; [done|]. exists [].
  rewrite app_nil_r. simpl. repeat split; [constructor|lia..].
Qed.

Lemma requests_within_trans n k w1 w2 w3 :
  requests_within rt n w1 w2 -> requests_within rt k w2 w3 ->
  requests_within rt (n + k) w1 w3.
Proof.
  intros (Hs1 & Hd1 & evs1 & Ht1 & Hall1 & Hf1 & Hn1)
         (Hs2 & Hd2 & evs2 & Ht2 & Hall2 & Hf2 & Hn2).
  split; [congruence|]. split; [congruence|].
  exists (evs1 ++ evs2). split; [by rewrite Ht2, Ht1, app_assoc|].
  split; [by apply Forall_app|].
  unfold requests in *. rewrite omap_app, length_app. lia.
Qed.

Lemma requests_within_heap n w w1 w2 :
  sessionStorage w2 = sessionStorage w1 -> drawn w2 = drawn w1 ->
  fetched w2 = fetched w1 -> trace w2 = trace w1 ->
  requests_within rt n w w1 -> requests_within rt n w w2.
Proof.
  intros Hs Hd Hf Ht (Hs1 & Hd1 & evs1 & Ht1 & Hall1 & Hf1 & Hn1).
  split; [congruence|]. split; [congruence|].
  exists evs1. repeat split; congruence || done.
Qed.

Lemma calls_bind {A B} n k (m : M A) (f : A -> M B) :
  calls_catalog rt n m -> (forall a, calls_catalog rt k (f a)) ->
  calls_catalog rt (n + k) (m ≫= f).
Proof.
  intros Hm Hf w. rewrite run_bind. specialize (Hm w).
  destruct (m w) as [[a|e] w1]; cbn [snd] in *.
  - eapply requests_within_trans; [exact Hm|apply Hf].
  - replace (n + k)%nat with (n + k + 0)%nat by lia.
    eapply requests_within_trans; [|apply requests_within_refl].
    replace (n + k)%nat with (n + k)%nat by done.
    destruct Hm as (Hs & Hd & evs & Ht & Hall & Hfe & Hn).
    split; [done|]. split; [done|]. exists evs. repeat split; [done..|lia].
Qed.

Lemma calls_try_catch {A} n k (m : M A) (h : JsError -> M A) :
  calls_catalog rt n m -> (forall e, calls_catalog rt k (h e)) ->
  calls_catalog rt (n + k) (try_catch m h).
Proof.
  intros Hm Hh w. unfold try_catch. specialize (Hm w).
  destruct (m w) as [[a|e] w1]; cbn [snd] in *.
  - destruct Hm as (Hs & Hd & evs & Ht & Hall & Hfe & Hn).
    split; [done|]. split; [done|]. exists evs. repeat split; [done..|lia].
  - eapply requests_within_trans; [exact Hm|apply Hh].
Qed.

Lemma calls_bind_fetch {B} n url (f : Response -> M B) :
  (exists path, url = OPEN_LIBRARY_URL rt +:+ path) ->
  (forall r, calls_catalog rt n (f r)) ->
  calls_catalog rt (S n) (fetch rt url ≫= f).
Proof.
  intros Hurl Hf. apply (calls_bind 1 n (fetch rt url) f); [|exact Hf].
  intros w. unfold fetch.
  assert (H : requests_within rt 1 w (issued url w)).
  { split; [done|]. split; [done|]. exists [Fetch url].
    split; [done|]. split; [by repeat constructor|]. simpl. lia. }
  by destruct (net rt (fetched w) url).
Qed.

Lemma calls_bind_0 {A B} n (m : M A) (f : A -> M B) :
  calls_catalog rt 0 m -> (forall a, calls_catalog rt n (f a)) ->
  calls_catalog rt n (m ≫= f).
Proof. apply (calls_bind 0 n m f). Qed.

Lemma calls_try_0 {A} n (m : M A) (h : JsError -> M A) :
  calls_catalog rt n m -> (forall e, calls_catalog rt 0 (h e)) ->
  calls_catalog rt n (try_catch m h).
Proof.
  intros Hm Hh. replace n with (n + 0)%nat by lia. by apply calls_try_catch.
Qed.

Lemma calls_ret {A} n (a : A) : calls_catalog rt n (mret a : M A).
Proof. intros w. apply requests_within_refl. Qed.

Lemma calls_throw {A} n e : calls_catalog rt n (throw e : M A).
Proof. intros w. apply requests_within_refl. Qed.

Lemma calls_lift {A} n (c : Completion A) : calls_catalog rt n (lift c).
Proof. intros w. apply requests_within_refl. Qed.

End CatalogCalls.

Section CatalogCallsOf.

Variable rt : Runtime.

Lemma calls_load n r : calls_catalog rt n (load r).
Proof. intros w. apply requests_within_refl. Qed.

Lemma calls_alloc n v : calls_catalog rt n (alloc v).
Proof.
  intros w. eapply requests_within_heap; [..|apply requests_within_refl]; done.
Qed.

Lemma calls_warn n msg e : calls_catalog rt n (console_warn msg e).
Proof.
  intros w. split; [done|]. split; [done|]. exists [ConsoleWarn msg e].
  split; [done|]. split; [by repeat constructor|]. simpl. lia.
Qed.

Lemma calls_assign n r k x : calls_catalog rt n (assign r k x).
Proof.
  intros w. unfold assign, mbind, M_bind, load, store, lift.
  destruct (setProp _ k x); [|apply requests_within_refl].
  eapply requests_within_heap; [..|apply requests_within_refl]; done.
Qed.

Lemma calls_assign_in n r k1 k2 x : calls_catalog rt n (assign_in r k1 k2 x).
Proof.
  intros w. unfold assign_in, mbind, M_bind, load, store, lift.
  destruct (getProp _ k1) as [inner|]; [|apply requests_within_refl].
  destruct (setProp inner k2 x) as [inner'|]; [|apply requests_within_refl].
  destruct (setProp _ k1 inner'); [|apply requests_within_refl].
  eapply requests_within_heap; [..|apply requests_within_refl]; done.
Qed.

End CatalogCallsOf.

(** Splits a goal [calls_catalog rt n m] along the structure of [m]. *)
Ltac catalog_step :=
  lazymatch goal with
  | |- calls_catalog _ _ (fetch _ _ ≫= _) =>
      apply calls_bind_fetch; [by eexists|intros ?]
  | |- calls_catalog _ _ (_ ≫= _) => apply calls_bind_0; [|intros ?]
  | |- calls_catalog _ _ (try_catch _ _) => apply calls_try_0; [|intros ?]
  | |- calls_catalog _ _ (if ?b then _ else _) => destruct b
  | |- calls_catalog _ _ (mret _) => apply calls_ret
  | |- calls_catalog _ _ (lift _) => apply calls_lift
  | |- calls_catalog _ _ (throw _) => apply calls_throw
  | |- calls_catalog _ _ (json _) => apply calls_lift
  | |- calls_catalog _ _ (load _) => apply calls_load
  | |- calls_catalog _ _ (alloc _) => apply calls_alloc
  | |- calls_catalog _ _ (console_warn _ _) => apply calls_warn
  | |- calls_catalog _ _ (assign _ _ _) => apply calls_assign
  | |- calls_catalog _ _ (assign_in _ _ _ _) => apply calls_assign_in
  | |- calls_catalog _ _ (edition_cover _ _ _) => unfold edition_cover
  | |- calls_catalog _ _ (edition_links _ _) => unfold edition_links
  end.

Section DetailsRequests.

Variable rt : Runtime.
Implicit Types (workId : string) (w : World) (data : ref).

Lemma calls_enrich_from_edition workId data :
  calls_catalog rt 1 (enrich_from_edition rt workId data).
Proof. unfold enrich_from_edition. repeat catalog_step. Qed.

Lemma calls_enrich_from_author authorKey data :
  calls_catalog rt 1 (enrich_from_author rt authorKey data).
Proof. unfold enrich_from_author. repeat catalog_step. Qed.

Lemma calls_author_enrichment data :
  calls_catalog rt 1 (author_enrichment rt data).
Proof. unfold author_enrichment. repeat catalog_step. apply calls_enrich_from_author. Qed.

End DetailsRequests.

Section DetailsEffects.

Variable rt : Runtime.
Implicit Types (workId : string) (w : World).

(** What follows the primary request. *)
Lemma getBookDetails_enrichment workId w :
  requests_within rt 2 (issued (workUrl rt workId) w) (getBookDetails rt workId w).2.
Proof.
  unfold getBookDetails. rewrite run_bind. unfold fetch. fold (workUrl rt workId).
  destruct (net rt (fetched w) (workUrl rt workId)) as [e|response];
    [apply requests_within_refl|].
  cbv beta.
  match goal with
  | |- requests_within _ _ ?w0 (?m ?w0).2 => generalize w0; change (calls_catalog rt 2 m)
  end.
  destruct (negb (ok response)).
  { destruct (bool_decide _); apply calls_throw. }
  catalog_step; [catalog_step|].
  catalog_step; [catalog_step|].
  apply (calls_bind rt 1 1).
  - catalog_step; [apply calls_enrich_from_edition|catalog_step].
  - intros _. apply (calls_bind rt 1 0); [apply calls_author_enrichment|].
    intros _. catalog_step.
Qed.

(** X5. Whatever the catalog answers, a call of [getBookDetails] starts with
    the request for the work and makes at most two more requests, all for
    URLs of the catalog, and beyond them only writes warnings to the console:
    it neither reads nor writes the session storage, draws no random number,
    waits for no delay, and leaves every object that existed before the call
    as it was. *)
Theorem details_side_effects workId w :
  let w' := (getBookDetails rt workId w).2 in
  sessionStorage w' = sessionStorage w
  /\ drawn w' = drawn w
  /\ (forall r v, heap w !! r = Some v -> heap w' !! r = Some v)
  /\ exists evs,
       new_events (getBookDetails rt workId) w = Fetch (workUrl rt workId) :: evs
       /\ Forall (details_event rt) evs
       /\ (List.length (requests evs) <= 2)%nat
       /\ fetched w' = S (fetched w + List.length (requests evs)).
Proof.
  intros w'. subst w'.
  destruct (getBookDetails_enrichment workId w)
    as (Hs & Hd & evs & Ht & Hall & Hf & Hn).
  split; [exact Hs|]. split; [exact Hd|]. split.
  - intros r v Hr. by apply (calls_keep_objects rt r v w Hr).
  - exists evs. split; [|done].
    apply new_events_app. rewrite Ht. simpl. by rewrite <- app_assoc.
Qed.

End DetailsEffects.

(** ** The record that [getBookDetails] returns *)

Section DetailsRecord.

Variable rt : Runtime.
Implicit Types (workId : string) (w : World) (data : ref).

(** The edition block completes and leaves the record an object, with every
    property that it does not assign as it was. *)
Lemma edition_block_keeps workId data props w :
  heap w !! data = Some (VObj props) ->
  exists w' props',
    try_catch (enrich_from_edition rt workId data)
      (fun error =>
         console_warn ("Could not fetch edition details for " +:+ workId +:+ ":") error) w
    = (Normal (), w')
    /\ heap w' !! data = Some (VObj props')
    /\ (forall k, k ≠ "cover_i" -> k ≠ "external_links" ->
                  lookup_prop k props' = lookup_prop k props).
Proof.
  intros Hd.
  destruct (try_catch_warn_completes (enrich_from_edition rt workId data)
              (fun _ => "Could not fetch edition details for " +:+ workId +:+ ":") w)
    as [w' Hw'].
  assert (Hkeep : forall k, k ≠ "cover_i" -> k ≠ "external_links" ->
                            prop_is data k (lookup_prop k props) w').
  { intros k Hc Hl. change w' with (Normal (), w').2. rewrite <- Hw'.
    apply preserves_try_catch; [|intros ?; apply preserves_emit|by exists props].
    by apply enrich_from_edition_preserves. }
  destruct (Hkeep "authors") as (props' & Hd' & _); [done..|].
  exists w', props'. split; [exact Hw'|]. split; [exact Hd'|].
  intros k Hc Hl. destruct (Hkeep k Hc Hl) as (props'' & Hd'' & Hk). congruence.
Qed.

(** The author block, when it completes, leaves the record an object, with
    every property that it does not assign as it was. *)
Lemma author_block_keeps data props w w' :
  heap w !! data = Some (VObj props) ->
  (author_enrichment rt data w).2 = w' ->
  exists props',
    heap w' !! data = Some (VObj props')
    /\ (forall k, k ≠ "author_name" -> k ≠ "author_details" ->
                  lookup_prop k props' = lookup_prop k props).
Proof.
  intros Hd <-.
  assert (Hkeep : forall k, k ≠ "author_name" -> k ≠ "author_details" ->
                            prop_is data k (lookup_prop k props)
                                    (author_enrichment rt data w).2).
  { intros k Hn Ha. apply author_enrichment_preserves; [done..|by exists props]. }
  destruct (Hkeep "authors") as (props' & Hd' & _); [done..|].
  exists props'. split; [exact Hd'|].
  intros k Hn Ha. destruct (Hkeep k Hn Ha) as (props'' & Hd'' & Hk). congruence.
Qed.

(** How the author block ends. *)
Lemma author_enrichment_ends data props w :
  heap w !! data = Some (VObj props) ->
  match (author_enrichment rt data w).1 with
  | Normal _ => first_author_missing props = false /\ author_key_unprintable props = false
  | Throw e =>
      (first_author_missing props = true \/ author_key_unprintable props = true)
      /\ err_class e = TypeError
  end.
Proof.
  intros Hd.
  unfold author_enrichment, first_author_missing, author_key_unprintable, first_author_key.
  rewrite (run_bind_normal _ _ _ _ _ (load_at _ _ _ Hd)).
  rewrite (run_lift_normal _ _ _ _ (getProp_object _ _)).
  set (authors := default VUndef (lookup_prop "authors" props)).
  destruct (truthy authors) eqn:Hauthors; [|done].
  destruct (truthy_getIndex authors 0 Hauthors) as [first Hfirst].
  rewrite run_bind, (run_lift_normal _ _ _ _ Hfirst), Hfirst. cbn [andb].
  destruct (getProp first "author") as [author|e] eqn:Hauthor.
  2: { rewrite (run_lift_throw _ _ _ e eq_refl). cbn [fst].
       destruct first; try discriminate Hauthor; injection Hauthor as <-;
         (split; [by left|done]). }
  rewrite (run_lift_normal _ _ _ author eq_refl). cbn [mret M_ret].
  assert (Hpresent : match first with VUndef | VNull => true | _ => false end = false)
    by (destruct first; done).
  rewrite Hpresent.
  destruct (truthy author) eqn:Htruthy; [|done].
  rewrite (run_lift_normal _ _ _ first eq_refl), (run_lift_normal _ _ _ _ Hauthor).
  destruct (truthy_getProp author "key" Htruthy) as [authorKey Hkey].
  rewrite (run_lift_normal _ _ _ _ Hkey), Hkey.
  pose proof (author_block_ends rt authorKey data w) as Hends. cbv zeta in Hends.
  destruct (stringable authorKey).
  - destruct Hends as [w' ->]. done.
  - destruct Hends as (e & -> & He). split; [by right|done].
Qed.

(** X6. When the primary request succeeds with a record, [getBookDetails]
    returns unless the record has a truthy [authors] whose element 0 is
    [undefined] or [null] (an empty list, for one), or the author that the
    test finds in that element has a key without a string form (an object
    with a [toString] member of its own): then, and only then, the call
    throws, a [TypeError], whatever the two other requests do.  What it
    returns is an object. *)
Theorem details_returns_iff workId w r props :
  net rt (fetched w) (workUrl rt workId) = Resolved r ->
  ok r = true ->
  body r = Normal (VObj props) ->
  match (getBookDetails rt workId w).1 with
  | Normal result =>
      first_author_missing props = false
      /\ author_key_unprintable props = false
      /\ exists props', result = VObj props'
  | Throw e =>
      (first_author_missing props = true \/ author_key_unprintable props = true)
      /\ err_class e = TypeError
  end.
Proof.
  intros Hnet Hok Hbody.
  rewrite (getBookDetails_primary rt workId w r _ Hnet Hok Hbody).
  rewrite run_bind. unfold alloc at 1.
  set (w1 := mkWorld _ _ _ _ _). set (data := fresh _).
  assert (Hd : heap w1 !! data = Some (VObj props)) by apply lookup_insert_eq.
  destruct (edition_block_keeps workId data props w1 Hd) as (w2 & props2 & Hrun & Hd2 & Hsame).
  rewrite (run_bind_normal _ _ _ _ _ Hrun).
  assert (Hmissing : first_author_missing props2 = first_author_missing props)
    by (unfold first_author_missing; by rewrite Hsame).
  assert (Hkey : author_key_unprintable props2 = author_key_unprintable props)
    by (unfold author_key_unprintable, first_author_key; by rewrite Hsame).
  pose proof (author_enrichment_ends data props2 w2 Hd2) as Hends.
  destruct (author_block_keeps data props2 w2 _ Hd2 eq_refl) as (props3 & Hd3 & _).
  rewrite run_bind.
  destruct (author_enrichment rt data w2) as [[[]|e] w3]; cbn [fst snd] in *.
  - rewrite (load_at _ _ _ Hd3). cbn [fst].
    destruct Hends as [H1 H2]. split; [congruence|]. split; [congruence|by exists props3].
  - by rewrite <- Hmissing, <- Hkey.
Qed.

(** X7. The record that [getBookDetails] returns has every property of the
    record of the primary request, with its value, except for the four that
    the enrichment assigns: cover_i, external_links, author_name and
    author_details. *)
Theorem details_keeps_primary_fields workId w r props result w' :
  net rt (fetched w) (workUrl rt workId) = Resolved r ->
  ok r = true ->
  body r = Normal (VObj props) ->
  getBookDetails rt workId w = (Normal result, w') ->
  forall k, k ∉ enriched_fields -> getProp result k = getProp (VObj props) k.
Proof.
  intros Hnet Hok Hbody.
  rewrite (getBookDetails_primary rt workId w r _ Hnet Hok Hbody).
  rewrite run_bind. unfold alloc at 1.
  set (w1 := mkWorld _ _ _ _ _). set (data := fresh _).
  assert (Hd : heap w1 !! data = Some (VObj props)) by apply lookup_insert_eq.
  destruct (edition_block_keeps workId data props w1 Hd) as (w2 & props2 & Hrun & Hd2 & Hsame).
  rewrite (run_bind_normal _ _ _ _ _ Hrun).
  intros Hret k Hk.
  assert (Hne : k ≠ "cover_i" /\ k ≠ "external_links"
                /\ k ≠ "author_name" /\ k ≠ "author_details").
  { unfold enriched_fields in Hk. rewrite !not_elem_of_cons in Hk. tauto. }
  destruct Hne as (Hc & Hl & Hn & Ha).
  rewrite (returned_property rt data k (lookup_prop k props) result w2 w' Hn Ha);
    [done| |exact Hret].
  exists props2. split; [exact Hd2|]. by apply Hsame.
Qed.

End DetailsRecord.

(** A work without a list of authors: the call returns. *)
Lemma details_returns_iff_witness :
  match (getBookDetails Demo.catalog "OL893415W" initial_world).1 with
  | Normal result =>
      first_author_missing Demo.work = false
      /\ author_key_unprintable Demo.work = false
      /\ exists props', result = VObj props'
  | Throw e =>
      (first_author_missing Demo.work = true \/ author_key_unprintable Demo.work = true)
      /\ err_class e = TypeError
  end.
Proof.
  apply (details_returns_iff Demo.catalog "OL893415W" initial_world
           (mkResponse 200 (Normal (VObj Demo.work))) Demo.work); reflexivity.
Defined.

(** The title of the work is in the record returned. *)
Lemma details_keeps_primary_fields_witness :
  exists result w',
    getBookDetails Demo.catalog "OL893415W" initial_world = (Normal result, w')
    /\ getProp result "title" = Normal (VStr "Dune").
Proof.
  eexists _, _. split; [vm_compute; reflexivity|].
  refine (details_keeps_primary_fields Demo.catalog "OL893415W" initial_world
            (mkResponse 200 (Normal (VObj Demo.work))) Demo.work
            _ _ eq_refl eq_refl eq_refl _ "title" _).
  - vm_compute. reflexivity.
  - unfold enriched_fields. rewrite !not_elem_of_cons. repeat split; try discriminate.
    apply not_elem_of_nil.
Defined.

(** ** The cover *)

Section DetailsCover.

Variable rt : Runtime.
Implicit Types (workId : string) (w : World) (data : ref).

Lemma edition_links_preserves edition data k x :
  k ≠ "external_links" -> preserves (prop_is data k x) (edition_links edition data).
Proof. intros Hk. unfold edition_links. repeat preserve_step. Qed.

(** The cover statement on an edition with a first cover. *)
Lemma edition_cover_first data eprops cover more own props w :
  heap w !! data = Some (VObj props) ->
  lookup_prop "covers" eprops = Some (VArr (cover :: more) own) ->
  exists w',
    edition_cover rt (VObj eprops) data w = (Normal (), w')
    /\ heap w' !! data = Some (VObj (assign_prop "cover_i" cover props)).
Proof.
  intros Hd Hcovers. unfold edition_cover.
  assert (Hget : getProp (VObj eprops) "covers" = Normal (VArr (cover :: more) own))
    by (by rewrite getProp_object, Hcovers).
  assert (Hhas : has_cover rt (VObj eprops) = Normal true).
  { unfold has_cover. rewrite Hget. cbn [mbind Completion_bind truthy].
    change (getProp (VArr (cover :: more) own) "length")
      with (Normal (VNum (Z.of_nat (S (List.length more))))).
    reflexivity. }
  rewrite (run_lift_normal _ _ _ _ Hhas).
  rewrite (run_lift_normal _ _ _ _ Hget).
  rewrite (run_lift_normal _ _ _ cover) by done.
  by apply assign_object.
Qed.

(** The cover statement on an edition without covers. *)
Lemma edition_cover_none data eprops w :
  lookup_prop "covers" eprops = None
  \/ (exists own, lookup_prop "covers" eprops = Some (VArr [] own)) ->
  edition_cover rt (VObj eprops) data w = (Normal (), w).
Proof.
  intros Hcovers. unfold edition_cover.
  assert (Hhas : has_cover rt (VObj eprops) = Normal false).
  { unfold has_cover. rewrite getProp_object.
    destruct Hcovers as [-> | [own ->]]; done. }
  by rewrite (run_lift_normal _ _ _ _ Hhas).
Qed.

Lemma edition_block_cover workId data props found w :
  heap w !! data = Some (VObj props) ->
  edition_lookup rt workId (fetched w) found ->
  forall x,
    cover_after props found = Some x ->
    prop_is data "cover_i" x
      (try_catch (enrich_from_edition rt workId data)
         (fun error =>
            console_warn ("Could not fetch edition details for " +:+ workId +:+ ":") error)
         w).2.
Proof.
  intros Hd Hfound x Hx.
  unfold try_catch, enrich_from_edition. fold (editionsUrl rt workId).
  rewrite run_bind. unfold fetch.
  destruct Hfound as [r editionsData edition more own Hnet Hok Hbody Hentries
                     | e Hnet | r Hnet Hok | r e Hnet Hok Hbody
                     | r editionsData own Hnet Hok Hbody Hentries];
    rewrite Hnet; try rewrite Hok; simpl in Hx; try injection Hx as <-.
  - unfold json. rewrite (run_lift_normal _ _ _ _ Hbody).
    rewrite (run_lift_normal _ _ _ _ Hentries).
    rewrite (run_lift_normal _ _ _ (VNum (Z.of_nat (S (List.length more))))) by done.
    rewrite (run_lift_normal _ _ _ true)
      by (unfold gt0; cbn [ToNumber mbind Completion_bind]; f_equal; apply Z.ltb_lt; lia).
    rewrite (run_lift_normal _ _ _ edition) by done.
    destruct edition as [| | | | | |eprops|]; try discriminate.
    assert (Hd0 : heap (issued (editionsUrl rt workId) w) !! data = Some (VObj props))
      by done.
    assert (Hcover : exists wc,
               edition_cover rt (VObj eprops) data (issued (editionsUrl rt workId) w)
               = (Normal (), wc)
               /\ prop_is data "cover_i" x wc).
    { destruct (lookup_prop "covers" eprops) as [[| | | | |[|cover more'] own'| |]|] eqn:Hcovers;
        try discriminate; injection Hx as <-.
      - rewrite edition_cover_none by (right; by exists own').
        eexists. split; [done|]. by exists props.
      - destruct (edition_cover_first data eprops cover more' own' props _ Hd0 Hcovers)
          as (wc & -> & Hwc).
        exists wc. split; [done|]. eexists. split; [exact Hwc|].
        apply lookup_assign_prop_eq.
      - rewrite edition_cover_none by (by left).
        eexists. split; [done|]. by exists props. }
    destruct Hcover as (wc & Hrun & Hwc).
    rewrite (run_bind_normal _ _ _ _ _ Hrun).
    pose proof (edition_links_preserves (VObj eprops) data "cover_i" x
                  ltac:(discriminate) wc Hwc) as Hlinks.
    destruct (edition_links (VObj eprops) data wc) as [[[]|e] wl]; [exact Hlinks|].
    by apply preserves_emit.
  - by exists props.
  - by exists props.
  - unfold json. rewrite (run_lift_throw _ _ _ _ Hbody). by exists props.
  - unfold json. rewrite (run_lift_normal _ _ _ _ Hbody).
    rewrite (run_lift_normal _ _ _ _ Hentries).
    rewrite (run_lift_normal _ _ _ (VNum 0)) by done.
    rewrite (run_lift_normal _ _ _ false) by done.
    by exists props.
Qed.

(** X8. Take a call of [getBookDetails] whose primary request succeeds with
    a record and which returns.  When the edition request yields an edition
    whose [covers] is a non-empty list, [cover_i] of the result is the first
    cover of the edition, whatever the primary record had; when the edition
    has no [covers] or an empty list, and when the request yields no edition,
    [cover_i] is what the primary record had. *)
Theorem details_cover workId w r props found result w' :
  net rt (fetched w) (workUrl rt workId) = Resolved r ->
  ok r = true ->
  body r = Normal (VObj props) ->
  edition_lookup rt workId (S (fetched w)) found ->
  getBookDetails rt workId w = (Normal result, w') ->
  (forall eprops cover more own,
      found = Some (VObj eprops) ->
      lookup_prop "covers" eprops = Some (VArr (cover :: more) own) ->
      getProp result "cover_i" = Normal cover)
  /\ (forall eprops,
        found = Some (VObj eprops) ->
        lookup_prop "covers" eprops = None
        \/ (exists own, lookup_prop "covers" eprops = Some (VArr [] own)) ->
        getProp result "cover_i" = getProp (VObj props) "cover_i")
  /\ (found = None ->
      getProp result "cover_i" = getProp (VObj props) "cover_i").
Proof.
  intros Hnet Hok Hbody Hfound.
  rewrite (getBookDetails_primary rt workId w r _ Hnet Hok Hbody).
  rewrite run_bind. unfold alloc at 1.
  set (w1 := mkWorld _ _ _ _ _). set (data := fresh _).
  assert (Hd : heap w1 !! data = Some (VObj props)) by apply lookup_insert_eq.
  pose proof (edition_block_cover workId data props found w1 Hd Hfound) as Hcover.
  destruct (edition_block_keeps rt workId data props w1 Hd) as (w2 & props2 & Hrun & _).
  rewrite Hrun in Hcover. cbn [snd] in Hcover.
  rewrite (run_bind_normal _ _ _ _ _ Hrun). intros Hret.
  assert (Hget : forall x, cover_after props found = Some x ->
                           getProp result "cover_i" = Normal (default VUndef x)).
  { intros x Hx.
    by eapply (returned_property rt data "cover_i" x); [| |apply Hcover|exact Hret]. }
  split; [|split].
  - intros eprops cover more own -> Hcovers. apply (Hget (Some cover)).
    simpl. by rewrite Hcovers.
  - intros eprops -> [Hcovers | [own Hcovers]]; apply Hget; simpl; by rewrite Hcovers.
  - intros ->. by apply Hget.
Qed.

End DetailsCover.

(** The cover of a work whose first edition has one. *)
Lemma details_cover_witness :
  exists result w',
    getBookDetails Demo.catalog "OL893415W" initial_world = (Normal result, w')
    /\ getProp result "cover_i" = Normal (VNum 9255566).
Proof.
  eexists _, _. split; [vm_compute; reflexivity|].
  refine (proj1 (details_cover Demo.catalog "OL893415W" initial_world
                   (mkResponse 200 (Normal (VObj Demo.work))) Demo.work
                   (Some (VObj Demo.edition)) _ _ eq_refl eq_refl eq_refl _ _)
            Demo.edition _ [] [] eq_refl eq_refl).
  - by eapply (edition_found _ _ _
                 (mkResponse 200 (Normal (VObj [("entries", VArr [VObj Demo.edition] [])])))).
  - vm_compute. reflexivity.
Defined.

(** ** The author *)

Section DetailsAuthor.

Variable rt : Runtime.
Implicit Types (workId : string) (w : World) (data : ref).

(** The edition block makes one request. *)
Lemma edition_block_fetched workId data w :
  fetched (try_catch (enrich_from_edition rt workId data)
             (fun error =>
                console_warn ("Could not fetch edition details for " +:+ workId +:+ ":") error)
             w).2
  = S (fetched w).
Proof.
  unfold try_catch, enrich_from_edition. rewrite run_bind. unfold fetch.
  destruct (net rt (fetched w) _) as [e|editionsResponse]; [done|].
  cbv beta.
  match goal with
  | |- context [?m (issued ?url w)] =>
      assert (Hrest : calls_catalog rt 0 m) by repeat catalog_step;
      destruct (Hrest (issued url w)) as (_ & _ & evs & _ & _ & Hf & Hn);
      destruct (m (issued url w)) as [[[]|e] w']
  end; cbn [snd fetched issued record] in *; [lia|].
  unfold console_warn, emit. cbn [snd fetched record]. lia.
Qed.

(** The author block on a record whose first author has a key. *)
Lemma author_enrichment_known data props first more own author w :
  heap w !! data = Some (VObj props) ->
  lookup_prop "authors" props = Some (VArr (VObj first :: more) own) ->
  lookup_prop "author" first = Some (VObj author) ->
  author_enrichment rt data w =
  let authorKey := default VUndef (lookup_prop "key" author) in
  try_catch (enrich_from_author rt authorKey data)
    (fun error =>
       key ← lift (ToString authorKey);
       console_warn ("Could not fetch author details for " +:+ key +:+ ":") error) w.
Proof.
  intros Hd Hauthors Hauthor. unfold author_enrichment.
  assert (Hfirst : getProp (VObj first) "author" = Normal (VObj author))
    by (by rewrite getProp_object, Hauthor).
  rewrite (run_bind_normal _ _ _ _ _ (load_at _ _ _ Hd)).
  rewrite (run_lift_normal _ _ _ (VArr (VObj first :: more) own))
    by (by rewrite getProp_object, Hauthors).
  cbn [truthy]. rewrite run_bind.
  rewrite (run_lift_normal _ _ _ (VObj first)) by done.
  rewrite (run_lift_normal _ _ _ _ Hfirst).
  cbn [mret M_ret truthy].
  rewrite (run_lift_normal _ _ _ (VObj first)) by done.
  rewrite (run_lift_normal _ _ _ _ Hfirst).
  by rewrite (run_lift_normal _ _ _ _ (getProp_object _ _)).
Qed.

(** The template literal of a key that has a string form. *)
Lemma ToString_stringable (v : JsVal) :
  stringable v = true -> ToString v = Normal (string_of v).
Proof. intros Hv. unfold ToString. by rewrite Hv. Qed.

(** The author step when the record of the author arrives. *)
Lemma enrich_from_author_found authorKey data props authorData r w :
  heap w !! data = Some (VObj props) ->
  stringable authorKey = true ->
  net rt (fetched w) (authorUrl rt authorKey) = Resolved r ->
  ok r = true ->
  body r = Normal (VObj authorData) ->
  exists w',
    enrich_from_author rt authorKey data w = (Normal (), w')
    /\ heap w' !! data
       = Some (VObj (assign_prop "author_details" (author_details_of authorData)
                       (assign_prop "author_name"
                          (VArr [default VUndef (lookup_prop "name" authorData)] [])
                          props))).
Proof.
  intros Hd Hkey Hnet Hok Hbody. unfold enrich_from_author.
  rewrite (run_lift_normal _ _ _ _ (ToString_stringable _ Hkey)).
  fold (authorUrl rt authorKey).
  rewrite run_bind. unfold fetch. rewrite Hnet, Hok.
  unfold json. rewrite (run_lift_normal _ _ _ _ Hbody).
  rewrite (run_lift_normal _ _ _ _ (getProp_object _ _)).
  assert (Hd0 : heap (issued (authorUrl rt authorKey) w) !! data = Some (VObj props))
    by done.
  destruct (assign_object data "author_name"
              (VArr [default VUndef (lookup_prop "name" authorData)] []) props _ Hd0)
    as (w1 & Hrun & Hd1).
  rewrite (run_bind_normal _ _ _ _ _ Hrun).
  rewrite !(run_lift_normal _ _ _ _ (getProp_object _ _)).
  by apply assign_object.
Qed.

(** The author block when the record of the author does not arrive. *)
Lemma author_block_unchanged authorKey data w :
  stringable authorKey = true ->
  author_lookup rt authorKey (fetched w) None ->
  heap (try_catch (enrich_from_author rt authorKey data)
          (fun error =>
             key ← lift (ToString authorKey);
             console_warn ("Could not fetch author details for " +:+ key +:+ ":") error)
          w).2
  = heap w.
Proof.
  intros Hkey Hfound. unfold try_catch, enrich_from_author.
  rewrite (run_lift_normal _ _ _ _ (ToString_stringable _ Hkey)).
  fold (authorUrl rt authorKey).
  rewrite run_bind. unfold fetch.
  inversion Hfound as [| e Hnet | r Hnet Hok | r e Hnet Hok Hbody];
    rewrite Hnet; try rewrite Hok;
    try (unfold json; rewrite (run_lift_throw _ _ _ _ Hbody));
    by rewrite ?(run_lift_normal _ _ _ _ (ToString_stringable _ Hkey)).
Qed.

(** X9. Take a call of [getBookDetails] whose primary request succeeds with
    a record whose first entry of [authors] has an [author] object, the key of
    which has a string form (as a text has, and every value but an object with
    a [toString] member of its own).  The call returns, and its third
    request, for the record of that author, decides two properties of the
    result.  When the record of the author arrives, [author_name] is the
    one-element list of its name, and [author_details] its name, bio and dates
    of birth and death ([undefined] for those it lacks), whatever the primary
    record had there; when the request fails, the status is not a success or
    the body cannot be parsed, both are what the primary record had. *)
Theorem details_author workId w r props first more own author found :
  net rt (fetched w) (workUrl rt workId) = Resolved r ->
  ok r = true ->
  body r = Normal (VObj props) ->
  lookup_prop "authors" props = Some (VArr (VObj first :: more) own) ->
  lookup_prop "author" first = Some (VObj author) ->
  stringable (default VUndef (lookup_prop "key" author)) = true ->
  author_lookup rt (default VUndef (lookup_prop "key" author)) (S (S (fetched w))) found ->
  exists result w',
    getBookDetails rt workId w = (Normal result, w')
    /\ match found with
       | Some authorData =>
           getProp result "author_name"
           = Normal (VArr [default VUndef (lookup_prop "name" authorData)] [])
           /\ getProp result "author_details" = Normal (author_details_of authorData)
       | None =>
           getProp result "author_name" = getProp (VObj props) "author_name"
           /\ getProp result "author_details" = getProp (VObj props) "author_details"
       end.
Proof.
  intros Hnet Hok Hbody Hauthors Hauthor Hkey Hfound.
  rewrite (getBookDetails_primary rt workId w r _ Hnet Hok Hbody).
  rewrite run_bind. unfold alloc at 1.
  set (w1 := mkWorld _ _ _ _ _). set (data := fresh _).
  assert (Hd : heap w1 !! data = Some (VObj props)) by apply lookup_insert_eq.
  pose proof (edition_block_fetched workId data w1) as Hfetched.
  destruct (edition_block_keeps rt workId data props w1 Hd) as (w2 & props2 & Hrun & Hd2 & Hsame).
  rewrite Hrun in Hfetched. cbn [snd] in Hfetched.
  change (fetched w1) with (S (fetched w)) in Hfetched.
  rewrite (run_bind_normal _ _ _ _ _ Hrun).
  rewrite run_bind.
  rewrite (author_enrichment_known data props2 first more own author w2 Hd2)
    by (by rewrite ?Hsame).
  cbv zeta. set (authorKey := default VUndef (lookup_prop "key" author)) in *.
  rewrite <- Hfetched in Hfound.
  destruct found as [authorData|].
  - inversion Hfound as [ra authorData' Hneta Hoka Hbodya | | |]; subst authorData'.
    destruct (enrich_from_author_found authorKey data props2 authorData ra w2
                Hd2 Hkey Hneta Hoka Hbodya) as (w3 & Hrun3 & Hd3).
    unfold try_catch at 1. rewrite Hrun3.
    rewrite (load_at _ _ _ Hd3). eexists _, _. split; [reflexivity|].
    rewrite !getProp_object. split.
    + by rewrite lookup_assign_prop_ne, lookup_assign_prop_eq.
    + by rewrite lookup_assign_prop_eq.
  - pose proof (author_block_unchanged authorKey data w2 Hkey Hfound) as Hheap.
    pose proof (author_block_ends rt authorKey data w2) as Hends. cbv zeta in Hends.
    rewrite Hkey in Hends. destruct Hends as [w3 Hrun3].
    rewrite Hrun3 in Hheap |- *. cbn [snd] in Hheap.
    assert (Hd3 : heap w3 !! data = Some (VObj props2)) by (by rewrite Hheap).
    rewrite (load_at _ _ _ Hd3). eexists _, _. split; [reflexivity|].
    rewrite !getProp_object. by rewrite !Hsame.
Qed.

End DetailsAuthor.

(** The author of a work whose record names one. *)
Lemma details_author_witness :
  exists result w',
    getBookDetails Library.runtime "OL893415W" initial_world = (Normal result, w')
    /\ getProp result "author_name" = Normal (VArr [VStr "Frank Herbert"] [])
    /\ getProp result "author_details"
       = Normal (VObj [("name", VStr "Frank Herbert"); ("bio", VUndef);
                       ("birth_date", VStr "8 October 1920"); ("death_date", VUndef)]).
Proof.
  refine (details_author Library.runtime "OL893415W" initial_world
            (mkResponse 200 (Normal (VObj Library.work))) Library.work
            _ [] [] _ (Some Library.author) eq_refl eq_refl eq_refl eq_refl eq_refl
            eq_refl _).
  by eapply (author_found _ _ _ (mkResponse 200 (Normal (VObj Library.author)))).
Defined.

(** ** The cost of a category fetcher *)

Section FetcherBounds.

Variable rt : Runtime.
Implicit Types (limit : Z) (subjects : list JsVal) (w : World).

Lemma requests_filter evs : requests (List.filter fetch_or_sleep evs) = requests evs.
Proof.
  induction evs as [|ev evs IH]; [done|].
  destruct ev; simpl; unfold requests in *; simpl; by rewrite ?IH.
Qed.

Lemma delays_filter evs : delays (List.filter fetch_or_sleep evs) = delays evs.
Proof.
  induction evs as [|ev evs IH]; [done|].
  destruct ev; simpl; unfold delays in *; simpl; by rewrite ?IH.
Qed.

Lemma requests_app evs1 evs2 : requests (evs1 ++ evs2) = requests evs1 ++ requests evs2.
Proof. apply omap_app. Qed.

Lemma delays_app evs1 evs2 : delays (evs1 ++ evs2) = delays evs1 ++ delays evs2.
Proof. apply omap_app. Qed.

Lemma requests_rounds limit (rs : list (JsVal * Attempt)) :
  List.length (requests (flat_map (round_events rt limit) rs)) = List.length rs.
Proof.
  induction rs as [|[s a] rs IH]; [done|].
  cbn [flat_map]. rewrite requests_app, length_app, IH.
  by destruct a.
Qed.

Lemma delays_rounds limit (rs : list (JsVal * Attempt)) :
  Forall (fun ms => ms = 250) (delays (flat_map (round_events rt limit) rs))
  /\ (List.length (delays (flat_map (round_events rt limit) rs)) <= List.length rs)%nat.
Proof.
  induction rs as [|[s a] rs [IH1 IH2]]; [by split; [constructor|]|].
  cbn [flat_map]. rewrite delays_app, length_app. split.
  - apply Forall_app. split; [|exact IH1]. destruct a; by repeat constructor.
  - destruct a; simpl; lia.
Qed.

Lemma rounds_length warning limit subjects w :
  subjects ≠ [] ->
  (1 <= List.length (rounds rt warning limit subjects w) <= List.length subjects)%nat.
Proof.
  intros Hne. split.
  - destruct subjects as [|s subjects]; [done|]. rewrite rounds_cons. simpl. lia.
  - destruct (rounds_prefix rt warning limit subjects w) as (skipped & Heq & _).
    rewrite Heq at 2. rewrite length_app, length_map. lia.
Qed.

(** The loop over a non-empty list of subjects. *)
Lemma first_non_empty_bounded warning failure limit subjects w :
  subjects ≠ [] ->
  Forall (fun subject => stringable subject = true) subjects ->
  bounded_run (List.length subjects)
    (new_events (first_non_empty rt warning failure limit subjects) w).
Proof.
  intros Hne Hall.
  destruct (first_non_empty_run rt warning failure limit subjects w Hall)
    as (_ & (evs & Htr & Hevs) & _).
  rewrite (new_events_app _ _ _ Htr).
  unfold bounded_run.
  rewrite <- (requests_filter evs), <- (delays_filter evs), Hevs, requests_rounds.
  split; [by apply rounds_length|]. apply delays_rounds.
Qed.

(** X10. Once the module is loaded, a call of a category fetcher makes at
    least one request and at most one per subject of its list: five for
    [getTrendingBooks], four for [getTopRatedBooks], six for
    [getRandomBooks].  Every delay it waits for is of 250 ms, and there are no
    more delays than requests: the call waits for 1250, 1000 and 1500 ms at
    most. *)
Theorem fetchers_bounded (limit : option Z) w :
  loaded w ->
  bounded_run 5 (new_events (getTrendingBooks rt limit) w)
  /\ bounded_run 4 (new_events (getTopRatedBooks rt limit) w)
  /\ bounded_run 6 (new_events (getRandomBooks rt limit) w).
Proof.
  intros Hloaded.
  destruct fallbacks_stringable as (Htrending & Htop & Hrandom).
  split; [|split].
  - unfold new_events. rewrite (getTrendingBooks_loop rt limit w Hloaded).
    by apply (first_non_empty_bounded _ _ _ TRENDING_FALLBACKS_init).
  - unfold new_events. rewrite (getTopRatedBooks_loop rt limit w Hloaded).
    by apply (first_non_empty_bounded _ _ _ TOP_RATED_FALLBACKS_init).
  - destruct Hloaded as (_ & _ & Hpop).
    destruct (getRandomBooks_loop rt limit _ _ w Hpop)
      as (shuffled & w1 & Hrun & Hperm & _ & (_ & _ & Htr)).
    unfold new_events. rewrite Hrun, <- Htr.
    replace 6%nat with (List.length shuffled)
      by (by rewrite Hperm).
    apply (first_non_empty_bounded _ _ _ shuffled).
    + intros ->. by apply Permutation_nil_l in Hperm.
    + by rewrite Hperm.
Qed.

End FetcherBounds.

(** Offline, [getTopRatedBooks] makes four requests and waits four times. *)
Lemma fetchers_bounded_witness :
  loaded initial_world
  /\ bounded_run 4 (new_events (getTopRatedBooks Demo.offline None) initial_world).
Proof.
  pose proof loaded_initial_world as Hloaded.
  split; [exact Hloaded|].
  exact (proj1 (proj2 (fetchers_bounded Demo.offline None initial_world Hloaded))).
Defined.

(** ** The order of the shuffle *)

Section ShuffleOrder.

Variable rt : Runtime.
Implicit Types (w : World) (ps : list (JsVal * Z)).

(** The first [map] draws one key per subject, in order. *)
Lemma Array_map_draws elems w :
  exists w',
    Array_map
      (fun value => sort ← random rt; mret (VObj [("value", value); ("sort", sort)]))
      elems w = (Normal (map keyed (drawn_keys rt elems w)), w')
    /\ heap w' = heap w
    /\ drawn w' = (drawn w + List.length elems)%nat.
Proof.
  revert w. induction elems as [|x elems IH]; intros w.
  - exists w. split; [done|]. split; [done|]. simpl. lia.
  - cbn [Array_map]. rewrite run_bind.
    set (w1 := mkWorld (sessionStorage w) (heap w) (fetched w) (S (drawn w)) (trace w)).
    change ((sort ← random rt; mret (VObj [("value", x); ("sort", sort)])) w)
      with (@Normal JsVal (keyed (x, Math_random rt (drawn w))), w1).
    destruct (IH w1) as (w' & Hrun & Hheap & Hdrawn).
    rewrite (run_bind_normal _ _ _ _ _ Hrun).
    exists w'. split; [done|]. split; [done|]. rewrite Hdrawn. simpl. lia.
Qed.

Lemma insert_sorted_sorted p ps :
  Sorted key_le ps ->
  exists ps',
    insert_sorted (by_sort_key rt) (keyed p) (map keyed ps) = Normal (map keyed ps')
    /\ ps' ≡ₚ p :: ps
    /\ Sorted key_le ps'
    /\ (forall z, key_le z p -> HdRel key_le z ps -> HdRel key_le z ps').
Proof.
  induction ps as [|q ps IH]; intros Hs.
  - exists [p]. split; [done|]. split; [done|].
    split; [by repeat constructor|]. intros z Hz _. by constructor.
  - cbn [map insert_sorted]. rewrite by_sort_key_keyed.
    cbn [mbind Completion_bind default id from_option].
    destruct (p.2 - q.2 <=? 0) eqn:Hle.
    + exists (p :: q :: ps). split; [done|]. split; [done|]. split.
      * constructor; [exact Hs|]. constructor. unfold key_le.
        apply Z.leb_le in Hle. lia.
      * intros z Hz _. by constructor.
    + apply Sorted_inv in Hs as [Hs Hhd].
      destruct (IH Hs) as (ps' & -> & Hperm & Hs' & Hhd').
      exists (q :: ps'). split; [done|]. split.
      * rewrite Hperm. apply Permutation_swap.
      * split.
        -- constructor; [exact Hs'|]. apply Hhd'; [|exact Hhd].
           unfold key_le. apply Z.leb_gt in Hle. lia.
        -- intros z _ Hz. apply HdRel_inv in Hz. by constructor.
Qed.

Lemma sort_elems_sorted ps :
  exists ps',
    sort_elems (by_sort_key rt) (map keyed ps) = Normal (map keyed ps')
    /\ ps' ≡ₚ ps
    /\ Sorted key_le ps'.
Proof.
  induction ps as [|p ps IH].
  - exists []. by repeat split.
  - cbn [map sort_elems]. destruct IH as (ps1 & -> & Hperm1 & Hs1).
    cbn [mbind Completion_bind].
    destruct (insert_sorted_sorted p ps1 Hs1) as (ps' & -> & Hperm & Hs' & _).
    exists ps'. split; [done|]. split; [by rewrite Hperm, Hperm1|done].
Qed.

Lemma Array_sort_sorted ps :
  exists ps',
    Array_sort (by_sort_key rt) (map keyed ps) = Normal (map keyed ps')
    /\ ps' ≡ₚ ps
    /\ Sorted key_le ps'.
Proof.
  unfold Array_sort.
  assert (Hdef : filter (fun v => is_undefined v = false) (map keyed ps) = map keyed ps).
  { induction ps as [|p ps IH]; [done|].
    cbn [map]. rewrite filter_cons_True by done. by rewrite IH. }
  assert (Hundef : filter (fun v => is_undefined v = true) (map keyed ps) = []).
  { clear Hdef. induction ps as [|p ps IH]; [done|].
    cbn [map]. rewrite filter_cons_False; [exact IH|]. simpl. discriminate. }
  rewrite Hdef, Hundef.
  destruct (sort_elems_sorted ps) as (ps' & -> & Hperm & Hs).
  exists ps'. cbn [mbind Completion_bind mret Completion_ret].
  by rewrite app_nil_r.
Qed.

(** The shuffle: the subjects by increasing key. *)
Lemma subjectsToTry_sorted subjects own w :
  heap w !! POPULAR_RANDOM_SUBJECTS = Some (VArr subjects own) ->
  exists a ps w',
    subjectsToTry rt w = (Normal a, w')
    /\ heap w' !! a = Some (VArr (map fst ps) [])
    /\ ps ≡ₚ drawn_keys rt subjects w
    /\ Sorted key_le ps
    /\ drawn w' = (drawn w + List.length subjects)%nat.
Proof.
  intros Hpop. unfold subjectsToTry.
  (* [...POPULAR_RANDOM_SUBJECTS] *)
  rewrite run_bind. unfold spread at 1.
  rewrite (run_bind_normal _ _ _ _ _ (load_at _ _ _ Hpop)).
  rewrite (run_lift_normal _ _ _ subjects) by done.
  unfold alloc at 1. set (w1 := mkWorld _ _ _ _ _). set (copy := fresh _).
  assert (Hcopy : heap w1 !! copy = Some (VArr subjects [])) by apply lookup_insert_eq.
  (* .map(value => ({ value, sort: Math.random() })) *)
  destruct (Array_map_draws subjects w1) as (w2 & Hrun2 & Hheap2 & Hdrawn2).
  change (drawn_keys rt subjects w1) with (drawn_keys rt subjects w) in Hrun2.
  rewrite run_bind. unfold call_map at 1.
  rewrite (run_bind_normal _ _ _ _ _ (load_at _ _ _ Hcopy)).
  rewrite (run_lift_normal _ _ _ subjects) by done.
  rewrite (run_bind_normal _ _ _ _ _ Hrun2).
  unfold alloc at 1. set (w3 := mkWorld _ _ _ _ _). set (keyed_ref := fresh _).
  assert (Hkeyed : heap w3 !! keyed_ref
                   = Some (VArr (map keyed (drawn_keys rt subjects w)) []))
    by apply lookup_insert_eq.
  (* .sort((a, b) => a.sort - b.sort) *)
  destruct (Array_sort_sorted (drawn_keys rt subjects w)) as (ps & Hsort & Hperm & Hsorted).
  rewrite (run_bind_normal _ _ _ _ _ (call_sort_spec _ _ _ _ _ _ Hkeyed Hsort)).
  set (w4 := mkWorld _ _ _ _ _).
  assert (Hsorted_ref : heap w4 !! keyed_ref = Some (VArr (map keyed ps) []))
    by apply lookup_insert_eq.
  (* .map(({ value }) => value) *)
  unfold call_map.
  rewrite (run_bind_normal _ _ _ _ _ (load_at _ _ _ Hsorted_ref)).
  rewrite (run_lift_normal _ _ _ (map keyed ps)) by done.
  rewrite (run_bind_normal _ _ _ _ _ (Array_map_values ps w4)).
  unfold alloc. eexists _, ps, _. split; [reflexivity|].
  split; [apply lookup_insert_eq|]. split; [exact Hperm|]. split; [exact Hsorted|].
  exact Hdrawn2.
Qed.

(** X11. A call of [getRandomBooks] draws one random number per subject of
    the list of the module, the subject at index [i] getting the [i]-th draw
    as its key, and then goes through the subjects by increasing key. *)
Theorem shuffle_by_draws (limit : option Z) subjects own w :
  heap w !! POPULAR_RANDOM_SUBJECTS = Some (VArr subjects own) ->
  exists ps w1,
    getRandomBooks rt limit w =
    first_non_empty rt "Random books failed for subject: "
      "All random subjects failed to return results." (default 20 limit)
      (map fst ps) w1
    /\ ps ≡ₚ drawn_keys rt subjects w
    /\ Sorted key_le ps
    /\ drawn w1 = (drawn w + List.length subjects)%nat.
Proof.
  intros Hpop.
  destruct (subjectsToTry_sorted subjects own w Hpop)
    as (a & ps & w1 & Hrun & Ha & Hperm & Hsorted & Hdrawn).
  exists ps, w1. split; [|done]. unfold getRandomBooks.
  rewrite (run_bind_normal _ _ _ _ _ Hrun).
  rewrite (run_bind_normal _ _ _ _ _ (load_at _ _ _ Ha)).
  by rewrite (run_lift_normal _ _ _ (map fst ps)).
Qed.

End ShuffleOrder.

(** The shuffle in the world of a tab that has loaded the module: six
    draws. *)
Lemma shuffle_by_draws_witness :
  exists ps w1,
    getRandomBooks Demo.offline None initial_world =
    first_non_empty Demo.offline "Random books failed for subject: "
      "All random subjects failed to return results." 20 (map fst ps) w1
    /\ Sorted key_le ps
    /\ drawn w1 = 6%nat.
Proof.
  assert (Hpop : heap initial_world !! POPULAR_RANDOM_SUBJECTS
                 = Some (VArr POPULAR_RANDOM_SUBJECTS_init []))
    by (vm_compute; reflexivity).
  destruct (shuffle_by_draws Demo.offline None _ _ initial_world Hpop)
    as (ps & w1 & Hrun & _ & Hsorted & Hdrawn).
  exists ps, w1. split; [exact Hrun|]. split; [exact Hsorted|exact Hdrawn].
Defined.

(** ** The request of a round *)

Section RoundRequest.

Variable rt : Runtime.

(** The search of a round is for the first page. *)
Lemma subject_offset (L : Z) (subject : JsVal) :
  offset (subject_options L subject) = Finite 0.
Proof.
  unfold offset, subject_options. cbn [limit page default id from_option].
  change (Double_sub 1 1) with (Finite 0). unfold Double_mul.
  by replace (0 * L) with 0 by lia.
Qed.

(** X12. The search that a category fetcher makes for a subject asks for
    the first page of any text in that subject, with the limit of the call:
    the sort order [relevance] that the fetcher passes leaves no parameter in
    the query string.  Two such searches with the same limit share a cache
    entry exactly when their subjects are the same text. *)
Theorem round_request (limit : Z) (subject : JsVal) :
  searchParams (subject_options limit subject)
  = [("q", "*"); ("subject", string_of subject); ("offset", "0"); ("language", "eng");
     ("limit", Number_toString limit);
     ("fields", "key,title,author_name,cover_i,first_publish_year")]
  /\ forall subject',
       cacheKey rt (subject_options limit subject)
       = cacheKey rt (subject_options limit subject')
       <-> string_of subject = string_of subject'.
Proof.
  assert (Hparams : forall s,
             expected_params (subject_options limit s)
             = [("q", "*"); ("subject", string_of s); ("offset", "0"); ("language", "eng");
                ("limit", Number_toString limit);
                ("fields", "key,title,author_name,cover_i,first_publish_year")]).
  { intros s. unfold expected_params. rewrite subject_offset. reflexivity. }
  split; [by rewrite searchParams_expected|].
  intros subject'. rewrite cacheKey_params, !Hparams. split.
  - by intros [= ->].
  - by intros ->.
Qed.

End RoundRequest.

(** ** The errors of the primary request *)

Section DetailsPrimary.

Variable rt : Runtime.
Implicit Types (workId : string) (w : World).

(** X13. Only the status of the primary response is turned into an error of
    the module: when the primary request of [getBookDetails] is rejected, or
    when the body of a successful response cannot be parsed, the call throws
    that very error, after this one request and without a warning; nothing
    absorbs it, unlike the failures of the two requests that follow. *)
Theorem details_primary_unreachable workId w e :
  net rt (fetched w) (workUrl rt workId) = Rejected e
  \/ (exists r, net rt (fetched w) (workUrl rt workId) = Resolved r
                /\ ok r = true /\ body r = Throw e) ->
  (getBookDetails rt workId w).1 = Throw e
  /\ new_events (getBookDetails rt workId) w = [Fetch (workUrl rt workId)].
Proof.
  intros Hfail.
  assert (Hrun : getBookDetails rt workId w = (Throw e, issued (workUrl rt workId) w)).
  { unfold getBookDetails. rewrite run_bind. unfold fetch. fold (workUrl rt workId).
    destruct Hfail as [-> | (r & -> & Hok & Hbody)]; [done|].
    rewrite Hok. cbn [negb]. unfold json. by rewrite (run_lift_throw _ _ _ _ Hbody). }
  rewrite Hrun. split; [done|].
  apply new_events_app. by rewrite Hrun.
Qed.

End DetailsPrimary.

(** Offline, the lookup of a work fails with the error of the network. *)
Lemma details_primary_unreachable_witness :
  (getBookDetails Demo.offline "OL893415W" initial_world).1
  = Throw (type_error "Failed to fetch").
Proof.
  apply (details_primary_unreachable Demo.offline "OL893415W" initial_world).
  left. reflexivity.
Defined.

(** ** A fetcher and the cache *)

Section FetcherCache.

Variable rt : Runtime.
Implicit Types (limit : Z) (w : World).

(** A round whose request fails while the cache has a non-empty result for
    its subject ends the loop with that result. *)
Lemma first_non_empty_cached warning failure limit subject rest w e s result book books own :
  Forall (fun subject => stringable subject = true) (subject :: rest) ->
  request_fails rt (requestUrl rt (subject_options limit subject)) (fetched w) e ->
  sessionStorage w !! cacheKey rt (subject_options limit subject) = Some s ->
  s ≠ "" ->
  JSON_parse rt s = Normal result ->
  getProp result "books" = Normal (VArr (book :: books) own) ->
  (first_non_empty rt warning failure limit (subject :: rest) w).1
  = Normal (VArr (book :: books) own)
  /\ requests (new_events (first_non_empty rt warning failure limit (subject :: rest)) w)
     = [requestUrl rt (subject_options limit subject)]
  /\ delays (new_events (first_non_empty rt warning failure limit (subject :: rest)) w) = [].
Proof.
  intros Hall Hfail Hs Hne Hparse Hbooks.
  assert (Hattempt : attempt rt limit subject w = NonEmpty (VArr (book :: books) own)).
  { apply attempt_non_empty.
    exists result, (VNum (Z.of_nat (S (List.length books)))).
    split; [|split; [exact Hbooks|split; [done|split; [done|]]]].
    - unfold browseBooks, try_catch.
      rewrite (browse_network_fails rt _ w e Hfail).
      rewrite (browse_fallback_hit rt _ _ e s) by done. exact Hparse.
    - reflexivity. }
  destruct (first_non_empty_run rt warning failure limit (subject :: rest) w Hall)
    as (Hres & (evs & Htr & Hevs) & _).
  rewrite rounds_cons, Hattempt in Hres, Hevs. cbn [is_hit] in Hres, Hevs.
  split; [exact Hres|].
  rewrite (new_events_app _ _ _ Htr).
  rewrite <- (requests_filter evs), <- (delays_filter evs), Hevs. done.
Qed.

(** X14. The cache makes the home page survive an outage: once the module
    is loaded, when the request for the first subject of [getTrendingBooks]
    fails while the cache has, under the key of that search, the text of a
    result with a non-empty list of books, the call returns this list after
    that one request, without a delay.  The same holds of
    [getTopRatedBooks]. *)
Theorem fetchers_served_from_cache (limit : option Z) w e s result book books own :
  loaded w ->
  JSON_parse rt s = Normal result ->
  s ≠ "" ->
  getProp result "books" = Normal (VArr (book :: books) own) ->
  (let first := subject_options (default 20 limit) (VStr "love") in
   request_fails rt (requestUrl rt first) (fetched w) e ->
   sessionStorage w !! cacheKey rt first = Some s ->
   (getTrendingBooks rt limit w).1 = Normal (VArr (book :: books) own)
   /\ requests (new_events (getTrendingBooks rt limit) w) = [requestUrl rt first]
   /\ delays (new_events (getTrendingBooks rt limit) w) = [])
  /\ (let first := subject_options (default 20 limit) (VStr "history") in
      request_fails rt (requestUrl rt first) (fetched w) e ->
      sessionStorage w !! cacheKey rt first = Some s ->
      (getTopRatedBooks rt limit w).1 = Normal (VArr (book :: books) own)
      /\ requests (new_events (getTopRatedBooks rt limit) w) = [requestUrl rt first]
      /\ delays (new_events (getTopRatedBooks rt limit) w) = []).
Proof.
  intros Hloaded Hparse Hne Hbooks.
  destruct fallbacks_stringable as (Htrending & Htop & _).
  split.
  - intros first Hfail Hs. unfold new_events.
    rewrite (getTrendingBooks_loop rt limit w Hloaded).
    by apply (first_non_empty_cached _ _ _ _ _ w e s result).
  - intros first Hfail Hs. unfold new_events.
    rewrite (getTopRatedBooks_loop rt limit w Hloaded).
    by apply (first_non_empty_cached _ _ _ _ _ w e s result).
Qed.

End FetcherCache.

(** Offline, the trending books come from the cache. *)
Lemma fetchers_served_from_cache_witness :
  (getTrendingBooks Demo.offline None Home.cached_world).1
  = Normal (VArr [VObj [("key", VStr "/works/OL893415W"); ("title", VStr "Dune")]] []).
Proof.
  assert (Hloaded : loaded Home.cached_world)
    by (repeat split; vm_compute; reflexivity).
  destruct (fetchers_served_from_cache Demo.offline None Home.cached_world
              (type_error "Failed to fetch") (Demo.stringify Demo.cached_result)
              Demo.cached_result
              (VObj [("key", VStr "/works/OL893415W"); ("title", VStr "Dune")]) [] []
              Hloaded)
    as [Htrending _].
  - vm_compute. reflexivity.
  - vm_compute. discriminate.
  - reflexivity.
  - apply Htrending.
    + apply network_error. vm_compute. reflexivity.
    + vm_compute. reflexivity.
Defined.
